(** * Voice chess arena: the board engine of the ChessBoard component

    A shallow embedding of the self-contained ChessBoard component (the
    variant with per-piece movement rules and the voice command resolver)
    and of the [handleMove] callback of the ChessGame component.

    Conventions of the embedding:
    - JavaScript numbers that index the board are integers ([Z]).
    - Strings are [string]; a character stands for one code unit below 256.
      [toLowerCase], [trim] and the regular expression dot are modelled on
      that range.
    - [null] and [undefined] cells are both read as "no piece" ([None]):
      the component only ever tests cells for truthiness.
    - A run either returns, throws a [TypeError] (reading a property of
      [undefined]), or leaves the embedding ([OutOfFuel], [Unmodelled]). *)

From stdpp Require Import base numbers list strings.
From Stdlib Require Import ZArith Bool Lia Ascii.

Local Open Scope Z_scope.

(** ** Outcome of a run *)

Inductive run (A : Type) : Type :=
| Done (a : A)
| TypeError
| OutOfFuel
| Unmodelled.
Arguments Done {A} a.
Arguments TypeError {A}.
Arguments OutOfFuel {A}.
Arguments Unmodelled {A}.

Definition bind {A B : Type} (m : run A) (k : A -> run B) : run B :=
  match m with
  | Done a => k a
  | TypeError => TypeError
  | OutOfFuel => OutOfFuel
  | Unmodelled => Unmodelled
  end.

Declare Scope run_scope.
Delimit Scope run_scope with run.
Notation "'let*' x ':=' m 'in' k" := (bind m (fun x => k))
  (at level 10, x name, m at level 100, k at level 200) : run_scope.
Local Open Scope run_scope.

(** ** Data model *)

Inductive Color : Type := white | black.

Definition Color_eqb (a b : Color) : bool :=
  match a, b with
  | white, white | black, black => true
  | _, _ => false
  end.

(** [interface ChessPiece]; [symbol] is the code point of the glyph. *)
Record ChessPiece : Type := mkPiece {
  type : string;
  color : Color;
  symbol : N
}.

Record Square : Type := mkSquare { row : Z; col : Z }.

(** A value that the source types as [string]: a string, or the number
    [NaN], which [getSquareNotation] yields when both of its operands are
    [undefined]. *)
Inductive JsString : Type :=
| Str (s : string)
| NaN.

(** Conversion to text, as in a template literal. *)
Definition toText (v : JsString) : string :=
  match v with
  | Str s => s
  | NaN => "NaN"
  end.

Definition Cell : Type := option ChessPiece.
Definition Board : Type := list (list Cell).

(** [interface ChessMove]; [timestamp] is the clock reading of [new Date()]. *)
Record ChessMove : Type := mkMove {
  from : JsString;
  to : JsString;
  piece : string;
  notation : string;
  timestamp : Z
}.

(** ** Notation codec *)

Definition files : string := "abcdefgh".
Definition ranks : string := "87654321".

(** [s[i]]: the one-character string at index [i], or [undefined]. *)
Definition charAt (s : string) (i : Z) : option ascii :=
  if i <? 0 then None else String.get (Z.to_nat i) s.

(** String conversion of an operand of [+] when the other is a string. *)
Definition operandToString (o : option ascii) : string :=
  match o with
  | Some c => String c EmptyString
  | None => "undefined"
  end.

(** [files[col] + ranks[row]]: a concatenation as soon as one operand is a
    string; [undefined + undefined] is the number [NaN]. *)
Definition getSquareNotation (row col : Z) : JsString :=
  match charAt files col, charAt ranks row with
  | None, None => NaN
  | f, r => Str (operandToString f +:+ operandToString r)
  end.

(** [s.indexOf(c)] for a one-character needle. *)
Fixpoint indexOf_from (s : string) (c : ascii) (i : Z) : Z :=
  match s with
  | EmptyString => -1
  | String d s' => if Ascii.eqb d c then i else indexOf_from s' c (i + 1)
  end.

Definition indexOf (s : string) (c : ascii) : Z := indexOf_from s c 0.

(** [null] is [None]; an object [{row, col}] is [Some]. The [length] of
    [NaN] is [undefined], which differs from 2. *)
Definition parseSquareNotation (notation : JsString) : option Square :=
  match notation with
  | Str (String c0 (String c1 EmptyString)) =>
      let col := indexOf files c0 in
      let row := indexOf ranks c1 in
      if (col =? -1) || (row =? -1) then Some (mkSquare (-1) (-1))
      else Some (mkSquare row col)
  | _ => None (* notation.length !== 2 *)
  end.

(** ** Board access *)

Definition inRange (z : Z) : bool := (0 <=? z) && (z <=? 7).
Definition inGrid (r c : Z) : bool := inRange r && inRange c.

(** [board[r][c]]: a missing row makes the second index throw; a missing
    column reads [undefined]. *)
Definition board_get (board : Board) (r c : Z) : run Cell :=
  if r <? 0 then TypeError
  else match board !! Z.to_nat r with
       | None => TypeError
       | Some line =>
           if c <? 0 then Done None
           else Done (default None (line !! Z.to_nat c))
       end.

(** [board[r][c] = v] on the fresh copy made by [executeMove]. A write past
    the end of a row extends the row with holes; a write at a negative
    column creates a named property, which the list model cannot hold. *)
Definition row_set (line : list Cell) (c : Z) (v : Cell) : run (list Cell) :=
  if c <? 0 then Unmodelled
  else
    let i := Z.to_nat c in
    if (i <? length line)%nat then Done (<[i := v]> line)
    else Done (line ++ replicate (i - length line) None ++ [v]).

Definition board_set (board : Board) (r c : Z) (v : Cell) : run Board :=
  if r <? 0 then TypeError
  else match board !! Z.to_nat r with
       | None => TypeError
       | Some line =>
           let* line' := row_set line c v in
           Done (<[Z.to_nat r := line']> board)
       end.

Definition pc (t : string) (c : Color) (s : N) : Cell := Some (mkPiece t c s).

Definition initialBoard : Board :=
  [ [ pc "rook" black 9820; pc "knight" black 9822; pc "bishop" black 9821;
      pc "queen" black 9819; pc "king" black 9818; pc "bishop" black 9821;
      pc "knight" black 9822; pc "rook" black 9820 ];
    replicate 8 (pc "pawn" black 9823);
    replicate 8 None;
    replicate 8 None;
    replicate 8 None;
    replicate 8 None;
    replicate 8 (pc "pawn" white 9817);
    [ pc "rook" white 9814; pc "knight" white 9816; pc "bishop" white 9815;
      pc "queen" white 9813; pc "king" white 9812; pc "bishop" white 9815;
      pc "knight" white 9816; pc "rook" white 9814 ] ].

(** The shape every board of the component has. *)
Definition wfBoard (board : Board) : Prop :=
  length board = 8%nat /\ Forall (fun line => length line = 8%nat) board.

(** ** Legality engine

    The functions below are closures over the component's [board] state and
    its [currentPlayer] prop. *)

Definition truthy (c : Cell) : bool :=
  match c with Some _ => true | None => false end.

(** [for (let i = 0; i < 8; i++)] ranges over these indices, in this order. *)
Definition range8 : list Z := [0; 1; 2; 3; 4; 5; 6; 7].

Fixpoint forM {S : Type} (l : list Z) (body : Z -> S -> run S) (acc : S)
  : run S :=
  match l with
  | [] => Done acc
  | x :: l' => let* acc' := body x acc in forM l' body acc'
  end.

Section Engine.

Variable board : Board.
Variable currentPlayer : Color.

(** The [while] loop of [isPathClear]. [fuel] bounds the number of times
    the loop condition is evaluated; the first component of the result
    lists the squares whose cell the loop has read, in order. *)
Fixpoint isPathClear_loop (fuel : nat)
    (rowStep colStep toRow toCol currentRow currentCol : Z)
  : list Square * run bool :=
  match fuel with
  | O => ([], OutOfFuel)
  | S fuel' =>
      if negb (currentRow =? toRow) || negb (currentCol =? toCol) then
        match board_get board currentRow currentCol with
        | Done (Some _) => ([mkSquare currentRow currentCol], Done false)
        | Done None =>
            let rest :=
              isPathClear_loop fuel' rowStep colStep toRow toCol
                (currentRow + rowStep) (currentCol + colStep) in
            (mkSquare currentRow currentCol :: fst rest, snd rest)
        | TypeError => ([mkSquare currentRow currentCol], TypeError)
        | OutOfFuel => ([mkSquare currentRow currentCol], OutOfFuel)
        | Unmodelled => ([mkSquare currentRow currentCol], Unmodelled)
        end
      else ([], Done true)
  end.

(** Enough fuel for every run of the loop on this board: a run that
    changes row leaves the rows of the board after at most
    [length board] reads, and a run along a row ends at [toCol]. *)
Definition pathFuel (fromCol toCol : Z) : nat :=
  S (length board + Z.to_nat (Z.abs (toCol - fromCol))).

Definition stepOf (from to : Z) : Z :=
  if to =? from then 0 else if to >? from then 1 else -1.

Definition isPathClear_run (fuel : nat) (fromRow fromCol toRow toCol : Z)
  : list Square * run bool :=
  let rowStep := stepOf fromRow toRow in
  let colStep := stepOf fromCol toCol in
  isPathClear_loop fuel rowStep colStep toRow toCol
    (fromRow + rowStep) (fromCol + colStep).

Definition isPathClear (fromRow fromCol toRow toCol : Z) : run bool :=
  snd (isPathClear_run (pathFuel fromCol toCol) fromRow fromCol toRow toCol).

Definition direction (c : Color) : Z :=
  match c with white => -1 | black => 1 end.

Definition startRow (c : Color) : Z :=
  match c with white => 6 | black => 1 end.

Definition isValidPawnMove (fromRow fromCol toRow toCol : Z)
    (piece : ChessPiece) : run bool :=
  let direction := direction (color piece) in
  let startRow := startRow (color piece) in
  let* targetPiece := board_get board toRow toCol in
  if fromCol =? toCol then
    if (toRow =? fromRow + direction) && negb (truthy targetPiece)
    then Done true
    else if (fromRow =? startRow) && (toRow =? fromRow + 2 * direction)
            && negb (truthy targetPiece)
    then
      let* middle := board_get board (fromRow + direction) fromCol in
      if negb (truthy middle) then Done true else Done false
    else Done false
  else
    if (Z.abs (fromCol - toCol) =? 1) && (toRow =? fromRow + direction)
       && match targetPiece with
          | Some t => negb (Color_eqb (color t) (color piece))
          | None => false
          end
    then Done true
    else Done false.

Definition isValidRookMove (fromRow fromCol toRow toCol : Z) : run bool :=
  if negb (fromRow =? toRow) && negb (fromCol =? toCol) then Done false
  else isPathClear fromRow fromCol toRow toCol.

Definition isValidBishopMove (fromRow fromCol toRow toCol : Z) : run bool :=
  if negb (Z.abs (fromRow - toRow) =? Z.abs (fromCol - toCol))
  then Done false
  else isPathClear fromRow fromCol toRow toCol.

Definition isValidKnightMove (fromRow fromCol toRow toCol : Z) : run bool :=
  let rowDiff := Z.abs (fromRow - toRow) in
  let colDiff := Z.abs (fromCol - toCol) in
  Done (((rowDiff =? 2) && (colDiff =? 1))
        || ((rowDiff =? 1) && (colDiff =? 2))).

Definition isValidQueenMove (fromRow fromCol toRow toCol : Z) : run bool :=
  let* rook := isValidRookMove fromRow fromCol toRow toCol in
  if rook then Done true
  else isValidBishopMove fromRow fromCol toRow toCol.

Definition isValidKingMove (fromRow fromCol toRow toCol : Z) : run bool :=
  let rowDiff := Z.abs (fromRow - toRow) in
  let colDiff := Z.abs (fromCol - toCol) in
  Done ((rowDiff <=? 1) && (colDiff <=? 1)
        && ((rowDiff >? 0) || (colDiff >? 0))).

(** The [switch (piece.type)] of [isValidMove]. *)
Definition pieceRule (fromRow fromCol toRow toCol : Z) (piece : ChessPiece)
  : run bool :=
  if String.eqb (type piece) "pawn" then
    isValidPawnMove fromRow fromCol toRow toCol piece
  else if String.eqb (type piece) "rook" then
    isValidRookMove fromRow fromCol toRow toCol
  else if String.eqb (type piece) "bishop" then
    isValidBishopMove fromRow fromCol toRow toCol
  else if String.eqb (type piece) "knight" then
    isValidKnightMove fromRow fromCol toRow toCol
  else if String.eqb (type piece) "queen" then
    isValidQueenMove fromRow fromCol toRow toCol
  else if String.eqb (type piece) "king" then
    isValidKingMove fromRow fromCol toRow toCol
  else Done false.

(** [isValidMove] with the movement rules of its [switch] abstracted:
    the five basic checks come first and [rule] is called last. *)
Definition isValidMove_with
    (rule : Z -> Z -> Z -> Z -> ChessPiece -> run bool)
    (fromRow fromCol toRow toCol : Z) : run bool :=
  if (toRow <? 0) || (toRow >? 7) || (toCol <? 0) || (toCol >? 7)
  then Done false
  else if (fromRow =? toRow) && (fromCol =? toCol) then Done false
  else
    let* piece := board_get board fromRow fromCol in
    match piece with
    | None => Done false
    | Some piece =>
        if negb (Color_eqb (color piece) currentPlayer) then Done false
        else
          let* targetPiece := board_get board toRow toCol in
          if match targetPiece with
             | Some t => Color_eqb (color t) (color piece)
             | None => false
             end
          then Done false
          else rule fromRow fromCol toRow toCol piece
    end.

Definition isValidMove (fromRow fromCol toRow toCol : Z) : run bool :=
  isValidMove_with pieceRule fromRow fromCol toRow toCol.

Definition calculateValidMoves (row col : Z) : run (list Square) :=
  forM range8 (fun toRow moves =>
    forM range8 (fun toCol moves =>
      let* ok := isValidMove row col toRow toCol in
      Done (if ok then moves ++ [mkSquare toRow toCol] else moves))
    moves) [].

(** The inner [for] of the bare-destination search: the value of
    [fromSquare] when the loop over the columns of [row] ends. *)
Fixpoint searchCols (toSquare : JsString) (row : Z) (cols : list Z)
  : run (option JsString) :=
  match cols with
  | [] => Done None
  | col :: cols' =>
      let* piece := board_get board row col in
      match piece with
      | Some p =>
          if Color_eqb (color p) currentPlayer then
            match parseSquareNotation toSquare with
            | Some (mkSquare toRow toCol) =>
                let* ok := isValidMove row col toRow toCol in
                if ok then Done (Some (getSquareNotation row col))
                else searchCols toSquare row cols'
            | None => searchCols toSquare row cols'
            end
          else searchCols toSquare row cols'
      | None => searchCols toSquare row cols'
      end
  end.

(** Truthiness of a [string | null] variable: [null], the empty string
    and [NaN] are falsy. *)
Definition truthyString (o : option JsString) : bool :=
  match o with
  | Some (Str s) => negb (String.eqb s EmptyString)
  | Some NaN => false
  | None => false
  end.

(** The outer [for], left through [if (fromSquare) break]. *)
Fixpoint searchRows (toSquare : JsString) (rows : list Z)
  : run (option JsString) :=
  match rows with
  | [] => Done None
  | row :: rows' =>
      let* fromSquare := searchCols toSquare row range8 in
      if truthyString fromSquare then Done fromSquare
      else searchRows toSquare rows'
  end.

End Engine.

(** ** Text of a voice command *)

Definition codeOf (c : ascii) : N := N_of_ascii c.

Definition between (lo hi : N) (c : ascii) : bool :=
  ((lo <=? codeOf c) && (codeOf c <=? hi))%N.

(** [toLowerCase] on one code unit below 256. *)
Definition lowerChar (c : ascii) : ascii :=
  if between 65 90 c || between 192 214 c || between 216 222 c
  then ascii_of_N (codeOf c + 32)
  else c.

Fixpoint toLowerCase (s : string) : string :=
  match s with
  | EmptyString => EmptyString
  | String c s' => String (lowerChar c) (toLowerCase s')
  end.

(** White space and line terminators below 256, as [trim] strips them. *)
Definition isWhiteSpace (c : ascii) : bool :=
  between 9 13 c || (codeOf c =? 32)%N || (codeOf c =? 160)%N.

Fixpoint trimStart (s : string) : string :=
  match s with
  | EmptyString => EmptyString
  | String c s' => if isWhiteSpace c then trimStart s' else s
  end.

Fixpoint trimEnd (s : string) : string :=
  match s with
  | EmptyString => EmptyString
  | String c s' =>
      match trimEnd s' with
      | EmptyString => if isWhiteSpace c then EmptyString
                       else String c EmptyString
      | t => String c t
      end
  end.

Definition trim (s : string) : string := trimEnd (trimStart s).

(** The character classes [[a-h]] and [[1-8]]. *)
Definition isFileChar (c : ascii) : bool := between 97 104 c.
Definition isRankChar (c : ascii) : bool := between 49 56 c.

(** The dot of a regular expression matches all but line terminators. *)
Definition isLineTerminator (c : ascii) : bool :=
  (codeOf c =? 10)%N || (codeOf c =? 13)%N.

(** [/^[a-h][1-8]$/.test(s)] *)
Definition testBareSquare (s : string) : bool :=
  match s with
  | String f (String r EmptyString) => isFileChar f && isRankChar r
  | _ => false
  end.

(** [.*?([a-h][1-8])] matched at the start of [s]: the lazy star first
    tries to stop, and otherwise consumes one more character that is not a
    line terminator. The result is the second capture group. *)
Fixpoint lazyThenSquare (s : string) : option string :=
  match s with
  | String f (String r _ as rest) =>
      if isFileChar f && isRankChar r
      then Some (String f (String r EmptyString))
      else if isLineTerminator f then None
      else lazyThenSquare rest
  | _ => None
  end.

(** [s.match(/([a-h][1-8]).*?([a-h][1-8])/)]: the match at the leftmost
    start position, as the two capture groups. *)
Fixpoint matchSquarePair (s : string) : option (string * string) :=
  match s with
  | String f (String r rest as tail) =>
      if isFileChar f && isRankChar r then
        match lazyThenSquare rest with
        | Some second => Some (String f (String r EmptyString), second)
        | None => matchSquarePair tail
        end
      else matchSquarePair tail
  | _ => None
  end.

(** ** Component state and handlers *)

Inductive GameMode : Type := player | engine.

(** The state of the ChessBoard component ([board], [selectedSquare],
    [validMoves]) and of its parent ChessGame ([moveHistory],
    [currentPlayer], [gameStarted], [gameMode]). [engineTimers] counts the
    [setTimeout] callbacks that [handleMove] has scheduled. *)
Record GameState : Type := mkState {
  board : Board;
  selectedSquare : option Square;
  validMoves : list Square;
  moveHistory : list ChessMove;
  currentPlayer : Color;
  gameStarted : bool;
  gameMode : GameMode;
  engineTimers : nat
}.

Definition opposite (c : Color) : Color :=
  match c with white => black | black => white end.

(** [handleMove] of ChessGame, the [onMove] prop of the board. *)
Definition handleMove (move : ChessMove) (s : GameState) : GameState :=
  {| board := board s;
     selectedSquare := selectedSquare s;
     validMoves := validMoves s;
     moveHistory := moveHistory s ++ [move];
     currentPlayer := opposite (currentPlayer s);
     gameStarted := gameStarted s;
     gameMode := gameMode s;
     engineTimers :=
       match gameMode s, currentPlayer s with
       | engine, white => S (engineTimers s)
       | _, _ => engineTimers s
       end |}.

Definition setBoardAndClear (newBoard : Board) (s : GameState) : GameState :=
  {| board := newBoard;
     selectedSquare := None;
     validMoves := [];
     moveHistory := moveHistory s;
     currentPlayer := currentPlayer s;
     gameStarted := gameStarted s;
     gameMode := gameMode s;
     engineTimers := engineTimers s |}.

Definition setSelection (sel : option Square) (moves : list Square)
    (s : GameState) : GameState :=
  {| board := board s;
     selectedSquare := sel;
     validMoves := moves;
     moveHistory := moveHistory s;
     currentPlayer := currentPlayer s;
     gameStarted := gameStarted s;
     gameMode := gameMode s;
     engineTimers := engineTimers s |}.

(** [piece?.type || "unknown"] *)
Definition pieceName (c : Cell) : string :=
  match c with
  | Some p => if String.eqb (type p) EmptyString then "unknown" else type p
  | None => "unknown"
  end.

(** [now] is the reading of the clock taken by [new Date()]. *)
Definition executeMove (now : Z) (s : GameState)
    (fromRow fromCol toRow toCol : Z) : run GameState :=
  let newBoard := board s in
  let* piece := board_get newBoard fromRow fromCol in
  let* newBoard := board_set newBoard toRow toCol piece in
  let* newBoard := board_set newBoard fromRow fromCol None in
  let move :=
    {| from := getSquareNotation fromRow fromCol;
       to := getSquareNotation toRow toCol;
       piece := pieceName piece;
       notation := toText (getSquareNotation fromRow fromCol) +:+ "-"
                   +:+ toText (getSquareNotation toRow toCol);
       timestamp := now |} in
  Done (handleMove move (setBoardAndClear newBoard s)).

Definition ownPiece (s : GameState) (c : Cell) : bool :=
  match c with
  | Some p => Color_eqb (color p) (currentPlayer s)
  | None => false
  end.

Definition handleSquareClick (now : Z) (s : GameState) (row col : Z)
  : run GameState :=
  if negb (gameStarted s) then Done s
  else
    match selectedSquare s with
    | Some (mkSquare fromRow fromCol) =>
        if (fromRow =? row) && (fromCol =? col)
        then Done (setSelection None [] s)
        else
          let* ok :=
            isValidMove (board s) (currentPlayer s) fromRow fromCol row col in
          if ok then executeMove now s fromRow fromCol row col
          else
            let* piece := board_get (board s) row col in
            if ownPiece s piece then
              let* moves :=
                calculateValidMoves (board s) (currentPlayer s) row col in
              Done (setSelection (Some (mkSquare row col)) moves s)
            else Done (setSelection None [] s)
    | None =>
        let* piece := board_get (board s) row col in
        if ownPiece s piece then
          let* moves :=
            calculateValidMoves (board s) (currentPlayer s) row col in
          Done (setSelection (Some (mkSquare row col)) moves s)
        else Done s
    end.

(** The first half of [processVoiceCommand]: the pair
    [(fromSquare, toSquare)] that the two parsing branches leave. *)
Definition extractSquares (s : GameState) (trimmedCommand : string)
  : run (option JsString * option JsString) :=
  if testBareSquare trimmedCommand then
    let toSquare := Str trimmedCommand in
    let* fromSquare :=
      searchRows (board s) (currentPlayer s) toSquare range8 in
    Done (fromSquare, Some toSquare)
  else
    match matchSquarePair trimmedCommand with
    | Some (first, second) => Done (Some (Str first), Some (Str second))
    | None => Done (None, None)
    end.

(** The second half: [if (fromSquare && toSquare) { ... }]. *)
Definition moveExtracted (now : Z) (s : GameState)
    (fromSquare toSquare : option JsString) : run GameState :=
  if truthyString fromSquare && truthyString toSquare then
    match fromSquare, toSquare with
    | Some fromSquare, Some toSquare =>
        match parseSquareNotation fromSquare, parseSquareNotation toSquare with
        | Some (mkSquare fromRow fromCol), Some (mkSquare toRow toCol) =>
            let* ok :=
              isValidMove (board s) (currentPlayer s)
                fromRow fromCol toRow toCol in
            if ok then executeMove now s fromRow fromCol toRow toCol
            else Done s
        | _, _ => Done s
        end
    | _, _ => Done s
    end
  else Done s.

Definition processVoiceCommand (now : Z) (s : GameState) (command : string)
  : run GameState :=
  if negb (gameStarted s) then Done s
  else
    let trimmedCommand := trim (toLowerCase command) in
    let* squares := extractSquares s trimmedCommand in
    moveExtracted now s (fst squares) (snd squares).

Definition initialState (mode : GameMode) : GameState :=
  {| board := initialBoard;
     selectedSquare := None;
     validMoves := [];
     moveHistory := [];
     currentPlayer := white;
     gameStarted := true;
     gameMode := mode;
     engineTimers := 0 |}.

(** ** Vocabulary of the statements *)

(** The squares a run of the loop meets: [n] squares from [(r, c)] on. *)
Fixpoint pathSquares (n : nat) (rs cs r c : Z) : list Square :=
  match n with
  | O => []
  | S n' => mkSquare r c :: pathSquares n' rs cs (r + rs) (c + cs)
  end.

Definition emptyAt (b : Board) (sq : Square) : bool :=
  match board_get b (row sq) (col sq) with
  | Done None => true
  | _ => false
  end.


(** Number of king steps from origin to destination. *)
Definition distance (fromRow fromCol toRow toCol : Z) : Z :=
  Z.max (Z.abs (toRow - fromRow)) (Z.abs (toCol - fromCol)).

(** Same row, same column, or same diagonal. *)
Definition aligned (fromRow fromCol toRow toCol : Z) : Prop :=
  fromRow = toRow \/ fromCol = toCol
  \/ Z.abs (fromRow - toRow) = Z.abs (fromCol - toCol).

(** The squares strictly between origin and destination of an aligned
    move, from the origin's side on. *)
Definition squaresBetween (fromRow fromCol toRow toCol : Z) : list Square :=
  pathSquares (Z.to_nat (distance fromRow fromCol toRow toCol - 1))
    (stepOf fromRow toRow) (stepOf fromCol toCol)
    (fromRow + stepOf fromRow toRow) (fromCol + stepOf fromCol toCol).

(** Every square strictly between origin and destination is empty. *)
Definition pathIsClear (b : Board) (fromRow fromCol toRow toCol : Z) : bool :=
  forallb (emptyAt b) (squaresBetween fromRow fromCol toRow toCol).

(** A string that is not a two-character square name: its length is not 2,
    or its first character is not in [a..h], or its second is not in
    [1..8]. *)
Definition malformedNotation (s : string) : bool :=
  negb (String.length s =? 2)%nat
  || match String.get 0 s with
     | Some c => negb (isFileChar c)
     | None => true
     end
  || match String.get 1 s with
     | Some c => negb (isRankChar c)
     | None => true
     end.

(** Rook, bishop or queen. *)
Definition slidingPiece (p : ChessPiece) : Prop :=
  type p = "rook" \/ type p = "bishop" \/ type p = "queen".

(** White's moves from the initial position: every pawn one or two squares
    ahead, and the four knight moves; as (origin, destination). *)
Definition openingMoves : list (Square * Square) :=
  flat_map (fun c => [ (mkSquare 6 c, mkSquare 5 c);
                       (mkSquare 6 c, mkSquare 4 c) ]) range8
  ++ [ (mkSquare 7 1, mkSquare 5 0); (mkSquare 7 1, mkSquare 5 2);
       (mkSquare 7 6, mkSquare 5 5); (mkSquare 7 6, mkSquare 5 7) ].

Definition isValidMove_sq (b : Board) (cp : Color) (m : Square * Square)
  : run bool :=
  isValidMove b cp (row (fst m)) (col (fst m)) (row (snd m)) (col (snd m)).

(** An empty board but for a white rook on a1. *)
Definition loneRookBoard : Board :=
  <[7%nat := <[0%nat := pc "rook" white 9814]> (replicate 8 None)]>
    (replicate 8 (replicate 8 None)).

(** A click on a rendered square, or a voice command delivered through the
    [lastVoiceCommand] prop. *)
Inductive Event : Type :=
| Click (row col : Z)
| Voice (command : string).

(** One call of the handler of an event: [handleSquareClick] for a click,
    [processVoiceCommand] for a command. This is a single call; the effect
    of the component, which calls [processVoiceCommand] again after a
    change of the board, is [runEffect] below, and an input together with
    the calls that follow from it is [componentInput]. *)
Definition handleEvent (now : Z) (s : GameState) (e : Event)
  : run GameState :=
  match e with
  | Click row col => handleSquareClick now s row col
  | Voice command => processVoiceCommand now s command
  end.

(** Clicks come from the 64 rendered squares. *)
Definition wfEvent (e : Event) : Prop :=
  match e with
  | Click row col => inGrid row col = true
  | Voice _ => True
  end.

(** An 8 by 8 board, and a selection, if any, on the board. *)
Definition wfState (s : GameState) : Prop :=
  wfBoard (board s)
  /\ forall sq, selectedSquare s = Some sq -> inGrid (row sq) (col sq) = true.

(** The record that [executeMove] emits. *)
Definition moveRecord (now : Z) (p : ChessPiece)
    (fromRow fromCol toRow toCol : Z) : ChessMove :=
  {| from := getSquareNotation fromRow fromCol;
     to := getSquareNotation toRow toCol;
     piece := pieceName (Some p);
     notation := toText (getSquareNotation fromRow fromCol) +:+ "-"
                 +:+ toText (getSquareNotation toRow toCol);
     timestamp := now |}.

(** What an accepted move from [(fromRow, fromCol)] to [(toRow, toCol)]
    leaves behind. *)
Definition movedTo (now : Z) (s s' : GameState)
    (fromRow fromCol toRow toCol : Z) : Prop :=
  exists p : ChessPiece,
    board_get (board s) fromRow fromCol = Done (Some p)
    /\ currentPlayer s' = opposite (currentPlayer s)
    /\ moveHistory s'
       = moveHistory s ++ [moveRecord now p fromRow fromCol toRow toCol]
    /\ board_get (board s') fromRow fromCol = Done None
    /\ board_get (board s') toRow toCol = Done (Some p)
    /\ forall r c, (r <> fromRow \/ c <> fromCol) -> (r <> toRow \/ c <> toCol) ->
                   board_get (board s') r c = board_get (board s) r c.

(** No move: board, turn and history are as before. *)
Definition noMove (s s' : GameState) : Prop :=
  board s' = board s
  /\ currentPlayer s' = currentPlayer s
  /\ moveHistory s' = moveHistory s.

(** The 64 squares in row-major order: rows 0 to 7, and columns 0 to 7
    within a row. *)
Definition allSquares : list Square :=
  flat_map (fun r => map (mkSquare r) range8) range8.

Definition squareName (sq : Square) : JsString :=
  getSquareNotation (row sq) (col sq).

(** [sq] holds a piece of the colour to move, and the move from [sq] to
    the target is judged legal. *)
Definition canReach (b : Board) (cp : Color) (toRow toCol : Z) (sq : Square)
  : bool :=
  match board_get b (row sq) (col sq) with
  | Done (Some p) =>
      Color_eqb (color p) cp
      && match isValidMove b cp (row sq) (col sq) toRow toCol with
         | Done true => true
         | _ => false
         end
  | _ => false
  end.

(** The first square, in row-major order, from which the target can be
    reached. *)
Definition firstOrigin (b : Board) (cp : Color) (toRow toCol : Z)
  : option Square :=
  find (canReach b cp toRow toCol) allSquares.

(** [s] has a file letter followed by a rank digit somewhere. *)
Fixpoint containsSquare (s : string) : bool :=
  match s with
  | String f (String r _ as rest) =>
      (isFileChar f && isRankChar r) || containsSquare rest
  | _ => false
  end.

(** ** Vocabulary of the further properties *)

(** The destination does not hold a piece of the colour of [p]. *)
Definition targetFree (b : Board) (p : ChessPiece) (toRow toCol : Z) : Prop :=
  forall t, board_get b toRow toCol = Done (Some t) -> color t <> color p.

(** The line a sliding piece of type [t] moves along: a row or column for
    a rook, a diagonal for a bishop, any of them for a queen. *)
Definition lineOf (t : string) (fromRow fromCol toRow toCol : Z) : Prop :=
  (t = "rook" /\ (fromRow = toRow \/ fromCol = toCol))
  \/ (t = "bishop" /\ Z.abs (fromRow - toRow) = Z.abs (fromCol - toCol))
  \/ (t = "queen" /\ aligned fromRow fromCol toRow toCol).

(** The move from [(fromRow, fromCol)] to [sq] is judged legal. *)
Definition legalTo (b : Board) (cp : Color) (fromRow fromCol : Z)
    (sq : Square) : bool :=
  match isValidMove b cp fromRow fromCol (row sq) (col sq) with
  | Done true => true
  | _ => false
  end.

(** The cell holds a piece of colour [c]. *)
Definition ofColor (c : Color) (cell : Cell) : bool :=
  match cell with
  | Some p => Color_eqb (color p) c
  | None => false
  end.

(** Number of pieces of colour [c] on the board. *)
Definition countPieces (c : Color) (b : Board) : nat :=
  length (List.filter (ofColor c) (concat b)).

(** A sequence of handler calls, each with the clock reading at its
    time. The calls that the effect of the component makes are calls of
    [processVoiceCommand], so a run of the component is such a sequence. *)
Fixpoint runEvents (s : GameState) (es : list (Z * Event)) : run GameState :=
  match es with
  | [] => Done s
  | (now, e) :: es' =>
      let* s' := handleEvent now s e in
      runEvents s' es'
  end.

(** ** Rendering helpers of the board component *)

(** [selectedSquare?.row === row && selectedSquare?.col === col] *)
Definition isSquareSelected (s : GameState) (r c : Z) : bool :=
  match selectedSquare s with
  | Some sq => (row sq =? r) && (col sq =? c)
  | None => false
  end.

(** [validMoves.some(move => move.row === row && move.col === col)] *)
Definition isValidMoveSquare (s : GameState) (r c : Z) : bool :=
  existsb (fun move => (row move =? r) && (col move =? c)) (validMoves s).

(** The remainder operator [%] keeps the sign of the dividend. *)
Definition getSquareColor (s : GameState) (r c : Z) : string :=
  let isDark := Z.rem (r + c) 2 =? 1 in
  let baseColor := if isDark then "bg-amber-800" else "bg-amber-100" in
  if isSquareSelected s r c then "bg-blue-500"
  else if isValidMoveSquare s r c then
    if isDark then "bg-green-700" else "bg-green-300"
  else baseColor.

(** The selection, if any, is a square of the board holding a piece of the
    side to move, and [validMoves] is what [calculateValidMoves] gives for
    it on the current board; without a selection [validMoves] is empty. *)
Definition selectionOk (s : GameState) : Prop :=
  match selectedSquare s with
  | None => validMoves s = []
  | Some sq =>
      inGrid (row sq) (col sq) = true
      /\ (exists p, board_get (board s) (row sq) (col sq) = Done (Some p)
                    /\ color p = currentPlayer s)
      /\ calculateValidMoves (board s) (currentPlayer s) (row sq) (col sq)
         = Done (validMoves s)
  end.

(** A destination that is legal from the selected square. *)
Definition legalFromSelection (s : GameState) (r c : Z) : Prop :=
  exists sq, selectedSquare s = Some sq
             /\ isValidMove (board s) (currentPlayer s) (row sq) (col sq) r c
                = Done true.

(** ** The game component *)

(** [startNewGame] of ChessGame. It sets the state of ChessGame; the state
    of the board component is not in its reach, and timers already
    scheduled are not cancelled. *)
Definition startNewGame (s : GameState) : GameState :=
  {| board := board s;
     selectedSquare := selectedSquare s;
     validMoves := validMoves s;
     moveHistory := [];
     currentPlayer := white;
     gameStarted := true;
     gameMode := gameMode s;
     engineTimers := engineTimers s |}.

(** White is to move exactly when the history has an even number of
    records. *)
Definition turnMatchesHistory (s : GameState) : Prop :=
  currentPlayer s
  = if Nat.even (length (moveHistory s)) then white else black.

(** The spoken form "<origin> to <destination>" of a move. *)
Definition spokenMove (fromRow fromCol toRow toCol : Z) : string :=
  toText (getSquareNotation fromRow fromCol) +:+ " to "
  +:+ toText (getSquareNotation toRow toCol).

(** The text of [spokenMove] is read back as its two squares. *)
Definition spokenMoveRead (a b : Square) : bool :=
  let text := trim (toLowerCase (spokenMove (row a) (col a) (row b) (col b))) in
  negb (testBareSquare text)
  && match matchSquarePair text, squareName a, squareName b with
     | Some (x, y), Str na, Str nb => String.eqb x na && String.eqb y nb
     | _, _, _ => false
     end.

(** Number of places in [s] where a file letter is followed by a rank
    digit. *)
Fixpoint countSquares (s : string) : nat :=
  match s with
  | String f (String r _ as rest) =>
      ((if isFileChar f && isRankChar r then 1 else 0) + countSquares rest)%nat
  | _ => 0%nat
  end.

(** ** The basic variant of the board component

    The earlier variant of the component has no movement rules: its
    [isValidMove] looks at the two squares only, and its click handler
    carries the statements of [executeMove] inline and sets no valid
    moves. *)

Module Basic.

Definition isValidMove (board : Board) (currentPlayer : Color)
    (fromRow fromCol toRow toCol : Z) : run bool :=
  let* piece := board_get board fromRow fromCol in
  match piece with
  | None => Done false
  | Some piece =>
      if negb (Color_eqb (color piece) currentPlayer) then Done false
      else if (toRow <? 0) || (toRow >? 7) || (toCol <? 0) || (toCol >? 7)
      then Done false
      else
        let* targetPiece := board_get board toRow toCol in
        if match targetPiece with
           | Some t => Color_eqb (color t) (color piece)
           | None => false
           end
        then Done false
        else Done true
  end.

Definition handleSquareClick (now : Z) (s : GameState) (row col : Z)
  : run GameState :=
  if negb (gameStarted s) then Done s
  else
    match selectedSquare s with
    | Some (mkSquare fromRow fromCol) =>
        if (fromRow =? row) && (fromCol =? col)
        then Done (setSelection None [] s)
        else
          let* ok :=
            isValidMove (board s) (currentPlayer s) fromRow fromCol row col in
          if ok then
            let newBoard := board s in
            let* piece := board_get newBoard fromRow fromCol in
            let* newBoard := board_set newBoard row col piece in
            let* newBoard := board_set newBoard fromRow fromCol None in
            let move :=
              {| from := getSquareNotation fromRow fromCol;
                 to := getSquareNotation row col;
                 piece := pieceName piece;
                 notation := toText (getSquareNotation fromRow fromCol)
                             +:+ "-" +:+ toText (getSquareNotation row col);
                 timestamp := now |} in
            Done (handleMove move (setBoardAndClear newBoard s))
          else Done s
    | None =>
        let* piece := board_get (board s) row col in
        if ownPiece s piece
        then Done (setSelection (Some (mkSquare row col)) [] s)
        else Done s
    end.

End Basic.

(** ** The reply of the engine *)

(** [s.split(sep)] for a one-character separator. *)
Fixpoint split (sep : ascii) (s : string) : list string :=
  match s with
  | EmptyString => [EmptyString]
  | String c s' =>
      if Ascii.eqb c sep then EmptyString :: split sep s'
      else match split sep s' with
           | p :: ps => String c p :: ps
           | [] => [String c EmptyString]
           end
  end.

Definition engineMoves : list string := ["e7-e5"; "b8-c6"; "g8-f6"; "f8-c5"].

(** [makeEngineMove] of ChessGame, the callback of the timer that
    [handleMove] sets. [pick] is the value of
    [Math.floor(Math.random() * engineMoves.length)]. An index outside the
    table would make [split] be called on [undefined]; a missing part of
    the split would be an [undefined] field, which the record type of the
    embedding does not hold. *)
Definition makeEngineMove (now : Z) (pick : nat) (s : GameState)
  : run GameState :=
  match engineMoves !! pick with
  | None => TypeError
  | Some randomMove =>
      match split "-" randomMove !! 0%nat, split "-" randomMove !! 1%nat with
      | Some f, Some t =>
          let engineMove :=
            {| from := Str f;
               to := Str t;
               piece := "pawn";
               notation := randomMove;
               timestamp := now |} in
          Done {| board := board s;
                  selectedSquare := selectedSquare s;
                  validMoves := validMoves s;
                  moveHistory := moveHistory s ++ [engineMove];
                  currentPlayer := white;
                  gameStarted := gameStarted s;
                  gameMode := gameMode s;
                  engineTimers := engineTimers s |}
      | _, _ => Unmodelled
      end
  end.

(** ** The filter of VoiceControls

    [processChessMove] tests the transcript against four patterns and
    hands it to [onVoiceMove] at the first that matches. The patterns are
    anchored at both ends, so each is a recogniser of the whole
    transcript. *)

(** The rest of [s] after the literal [p], if [s] starts with it. *)
Fixpoint stripPrefix (p s : string) : option string :=
  match p, s with
  | EmptyString, _ => Some s
  | String a p', String b s' =>
      if Ascii.eqb a b then stripPrefix p' s' else None
  | String _ _, EmptyString => None
  end.

(** The literal [w] at the start of [s], and [k] on what follows. *)
Definition thenMatch (w : string) (k : string -> bool) (s : string) : bool :=
  match stripPrefix w s with
  | Some rest => k rest
  | None => false
  end.

(** [\s*] and then [k]. What follows the star in the patterns below starts
    with a letter, so the star can only end where the white space ends. *)
Definition spacesThen (k : string -> bool) (s : string) : bool :=
  k (trimStart s).

Definition pieceWords : list string :=
  ["king"; "queen"; "rook"; "bishop"; "knight"; "pawn"].

(** [/^(king|queen|rook|bishop|knight|pawn)?\s*([a-h][1-8])$/] *)
Definition matchPieceSquare (s : string) : bool :=
  existsb (fun w => thenMatch w (spacesThen testBareSquare) s) pieceWords
  || spacesThen testBareSquare s.

(** [side?$] *)
Definition matchSideEnd (s : string) : bool :=
  String.eqb s "sid" || String.eqb s "side".

(** [/^(castle|castling)\s*(king|queen)?side?$/] *)
Definition matchCastling (s : string) : bool :=
  existsb
    (fun w =>
       thenMatch w
         (spacesThen
            (fun r =>
               existsb (fun k => thenMatch k matchSideEnd r) ["king"; "queen"]
               || matchSideEnd r)) s)
    ["castle"; "castling"].

(** The alternatives of [(?:to|takes?|captures?)]. *)
Definition moveVerbs : list string :=
  ["to"; "take"; "takes"; "capture"; "captures"].

(** [/^([a-h][1-8])\s*(?:to|takes?|captures?)\s*([a-h][1-8])$/] *)
Definition matchLongNotation (s : string) : bool :=
  match s with
  | String f (String r rest) =>
      isFileChar f && isRankChar r
      && spacesThen
           (fun u =>
              existsb (fun v => thenMatch v (spacesThen testBareSquare) u)
                moveVerbs) rest
  | _ => false
  end.

Definition movePatterns : list (string -> bool) :=
  [testBareSquare; matchPieceSquare; matchCastling; matchLongNotation].

(** The loop over the patterns: the argument of the call of [onVoiceMove],
    if there is one. The loop ends at the first match. *)
Fixpoint firstMatch (patterns : list (string -> bool)) (transcript : string)
  : option string :=
  match patterns with
  | [] => None
  | pattern :: rest =>
      if pattern transcript then Some transcript
      else firstMatch rest transcript
  end.

Definition processChessMove (transcript : string) : option string :=
  firstMatch movePatterns transcript.

(** Vocabulary on the characters of a transcript. *)
Fixpoint allChars (P : ascii -> bool) (s : string) : bool :=
  match s with
  | EmptyString => true
  | String c s' => P c && allChars P s'
  end.

Definition hasLineTerminator (s : string) : bool :=
  negb (allChars (fun c => negb (isLineTerminator c)) s).

(** A character that [toLowerCase] keeps and that is no rank digit. *)
Definition plainChar (c : ascii) : bool :=
  Ascii.eqb (lowerChar c) c && negb (isRankChar c).

(** ** The voice effect of the board component

    [useEffect(() => { if (lastVoiceCommand && gameStarted)
    processVoiceCommand(lastVoiceCommand) },
    [lastVoiceCommand, gameStarted, board])]: after a render in which one
    of the three dependencies has changed, the pending command is
    processed again. *)

(** The state of [GameState] with the [lastVoiceCommand] prop. *)
Record Component : Type := mkComponent {
  game : GameState;
  lastVoiceCommand : string
}.

Definition withGame (c : Component) (g : GameState) : Component :=
  {| game := g; lastVoiceCommand := lastVoiceCommand c |}.

(** A string is truthy when it is not empty. *)
Definition truthyText (s : string) : bool :=
  match s with
  | EmptyString => false
  | String _ _ => true
  end.

(** The body of the effect. *)
Definition voiceEffect (now : Z) (c : Component) : run GameState :=
  if truthyText (lastVoiceCommand c) && gameStarted (game c)
  then processVoiceCommand now (game c) (lastVoiceCommand c)
  else Done (game c).

(** The [board] dependency. [setBoard] is called by [executeMove] only,
    each time with a new array and together with [onMove], which appends
    one record: the board of the next render is another array exactly when
    the history has grown. *)
Definition boardChanged (before after : GameState) : bool :=
  negb (length (moveHistory after) =? length (moveHistory before))%nat.

(** The effect runs, and runs again after every run that has changed the
    board. [clock k] is the time of run [k]. *)
Fixpoint runEffect (fuel : nat) (clock : nat -> Z) (k : nat) (c : Component)
  : run Component :=
  match fuel with
  | O => OutOfFuel
  | S fuel' =>
      let* g := voiceEffect (clock k) c in
      if boardChanged (game c) g
      then runEffect fuel' clock (S k) (withGame c g)
      else Done (withGame c g)
  end.

(** Number of pieces on the board. *)
Definition pieces (b : Board) : nat :=
  (countPieces white b + countPieces black b)%nat.

(** Runs that suffice: two more than there are pieces on the board. *)
Definition effectFuel (s : GameState) : nat := S (S (pieces (board s))).

(** One input of the component and what follows from it. A click calls
    [handleSquareClick], at time [clock 0], and the effect follows if the
    click has changed the board. A command arrives as the new value of
    the prop, and the effect follows if the value is another than before. *)
Definition componentInput (clock : nat -> Z) (c : Component) (e : Event)
  : run Component :=
  match e with
  | Click row col =>
      let* g := handleSquareClick (clock 0%nat) (game c) row col in
      if boardChanged (game c) g
      then runEffect (effectFuel g) clock 1 (withGame c g)
      else Done (withGame c g)
  | Voice command =>
      if String.eqb command (lastVoiceCommand c) then Done c
      else
        runEffect (effectFuel (game c)) clock 0
          {| game := game c; lastVoiceCommand := command |}
  end.

Fixpoint runInputs (c : Component) (es : list ((nat -> Z) * Event))
  : run Component :=
  match es with
  | [] => Done c
  | (clock, e) :: es' =>
      let* c' := componentInput clock c e in
      runInputs c' es'
  end.

(** The component before any command was given. *)
Definition initialComponent (mode : GameMode) : Component :=
  {| game := initialState mode; lastVoiceCommand := EmptyString |}.

(** ** Vocabulary of the statements on the component *)

(** The turn has passed from one colour to the other. *)
Definition turnPassed (before after : Color) : Prop :=
  before = white /\ after = black \/ before = black /\ after = white.

(** One accepted move with its effects. *)
Definition acceptedMove (s s' : GameState) : Prop :=
  exists now fromRow fromCol toRow toCol,
    isValidMove (board s) (currentPlayer s) fromRow fromCol toRow toCol
    = Done true
    /\ executeMove now s fromRow fromCol toRow toCol = Done s'
    /\ movedTo now s s' fromRow fromCol toRow toCol
    /\ turnPassed (currentPlayer s) (currentPlayer s').

(** [n] accepted moves in a row, and then board, turn and history as the
    last of them left them. *)
Inductive acceptedMoves : nat -> GameState -> GameState -> Prop :=
| moves_none (s s' : GameState) :
    noMove s s' -> acceptedMoves 0 s s'
| moves_step (n : nat) (s s1 s' : GameState) :
    acceptedMove s s1 -> acceptedMoves n s1 s' -> acceptedMoves (S n) s s'.

(** What a run of the effect leaves: the command still pending, a state of
    the component, and [n] accepted moves made on the way. *)
Definition settled (c c' : Component) (n : nat) : Prop :=
  wfState (game c')
  /\ lastVoiceCommand c' = lastVoiceCommand c
  /\ gameStarted (game c') = gameStarted (game c)
  /\ acceptedMoves n (game c) (game c').

(** * Properties *)

(** ** Board access *)

Lemma wfBoard_rows (b : Board) : wfBoard b -> length b = 8%nat.
Proof. intros [H _]. exact H. Qed.

Lemma board_get_Done (b : Board) (r c : Z) :
  length b = 8%nat -> 0 <= r <= 7 -> exists cell, board_get b r c = Done cell.
Proof.
  intros Hlen Hr. unfold board_get.
  destruct (Z.ltb_spec r 0) as [Hneg | _]; [lia |].
  destruct (b !! Z.to_nat r) as [line |] eqn:Hrow.
  - destruct (c <? 0); eauto.
  - apply lookup_ge_None in Hrow. lia.
Qed.

Lemma board_get_not_OutOfFuel (b : Board) (r c : Z) :
  board_get b r c <> OutOfFuel.
Proof.
  unfold board_get. destruct (r <? 0); [discriminate |].
  destruct (b !! Z.to_nat r); [| discriminate].
  destruct (c <? 0); discriminate.
Qed.

(** ** The path-clearance loop *)

Lemma length_pathSquares n rs cs r c : length (pathSquares n rs cs r c) = n.
Proof. revert r c. induction n as [| n IH]; intros; simpl; [| rewrite IH]; done. Qed.

Lemma lookup_pathSquares n rs cs : forall r c (k : nat) sq,
  pathSquares n rs cs r c !! k = Some sq ->
  (k < n)%nat /\ sq = mkSquare (r + Z.of_nat k * rs) (c + Z.of_nat k * cs).
Proof.
  induction n as [| n IH]; intros r c k sq H; simpl in H; [done |].
  destruct k as [| k]; simpl in H.
  - injection H as <-. split; [lia |]. f_equal; lia.
  - apply IH in H as [Hk ->]. split; [lia |]. f_equal; lia.
Qed.

Lemma isPathClear_loop_S (b : Board) (fuel : nat) (rs cs tr tc cr cc : Z) :
  isPathClear_loop b (S fuel) rs cs tr tc cr cc
  = if negb (cr =? tr) || negb (cc =? tc) then
      match board_get b cr cc with
      | Done (Some _) => ([mkSquare cr cc], Done false)
      | Done None =>
          let rest :=
            isPathClear_loop b fuel rs cs tr tc (cr + rs) (cc + cs) in
          (mkSquare cr cc :: fst rest, snd rest)
      | TypeError => ([mkSquare cr cc], TypeError)
      | OutOfFuel => ([mkSquare cr cc], OutOfFuel)
      | Unmodelled => ([mkSquare cr cc], Unmodelled)
      end
    else ([], Done true).
Proof. reflexivity. Qed.

Lemma isPathClear_loop_fuel (b : Board) (rs cs tr tc : Z) :
  forall (fuel fuel' : nat) (cr cc : Z),
    (fuel <= fuel')%nat ->
    snd (isPathClear_loop b fuel rs cs tr tc cr cc) <> OutOfFuel ->
    isPathClear_loop b fuel' rs cs tr tc cr cc
    = isPathClear_loop b fuel rs cs tr tc cr cc.
Proof.
  induction fuel as [| fuel IH]; intros fuel' cr cc Hle Hok; simpl in *.
  - congruence.
  - destruct fuel' as [| fuel']; [lia |]. simpl.
    destruct (negb (cr =? tr) || negb (cc =? tc)); [| reflexivity].
    destruct (board_get b cr cc) as [[p |] | | |]; try reflexivity.
    simpl in Hok. rewrite IH; [reflexivity | lia | exact Hok].
Qed.

Lemma isPathClear_loop_exact (b : Board) (rs cs tr tc : Z) :
  length b = 8%nat ->
  rs <> 0 \/ cs <> 0 ->
  forall (n : nat) (cr cc : Z),
    tr = cr + Z.of_nat n * rs ->
    tc = cc + Z.of_nat n * cs ->
    (forall k, 0 <= k < Z.of_nat n -> 0 <= cr + k * rs <= 7) ->
    exists m : nat,
      (m <= n)%nat /\
      isPathClear_loop b (S n) rs cs tr tc cr cc
      = (take m (pathSquares n rs cs cr cc),
         Done (forallb (emptyAt b) (pathSquares n rs cs cr cc))).
Proof.
  intros Hlen Hstep. induction n as [| n IH]; intros cr cc Hr Hc Hrows.
  - exists 0%nat. split; [lia |]. simpl.
    replace (cr =? tr) with true by (symmetry; apply Z.eqb_eq; lia).
    replace (cc =? tc) with true by (symmetry; apply Z.eqb_eq; lia).
    reflexivity.
  - assert (Hcond : negb (cr =? tr) || negb (cc =? tc) = true).
    { apply orb_true_iff. destruct Hstep as [H | H]; [left | right];
        apply negb_true_iff, Z.eqb_neq; nia. }
    destruct (board_get_Done b cr cc Hlen) as [cell Hcell].
    { specialize (Hrows 0). lia. }
    rewrite isPathClear_loop_S, Hcond, Hcell.
    cbn [pathSquares forallb]. unfold emptyAt at 1. cbn [row col].
    rewrite Hcell. destruct cell as [p |].
    + exists 1%nat. split; [lia |]. reflexivity.
    + destruct (IH (cr + rs) (cc + cs)) as (m & Hm & Heq); [lia | lia | |].
      { intros k Hk. specialize (Hrows (k + 1)). lia. }
      exists (S m). split; [lia |]. rewrite Heq. reflexivity.
Qed.

Lemma stepOf_spec (f t : Z) :
  (t = f /\ stepOf f t = 0) \/ (f < t /\ stepOf f t = 1)
  \/ (t < f /\ stepOf f t = -1).
Proof.
  unfold stepOf. destruct (Z.eqb_spec t f) as [-> | Hne]; [left; done |].
  rewrite Z.gtb_ltb. destruct (Z.ltb_spec f t); [right; left | right; right];
    split; (lia || done).
Qed.

Lemma isPathClear_run_aligned (b : Board) (fr fc tr tc : Z) (fuel : nat) :
  length b = 8%nat ->
  0 <= fr <= 7 -> 0 <= tr <= 7 ->
  aligned fr fc tr tc ->
  fr <> tr \/ fc <> tc ->
  distance fr fc tr tc <= Z.of_nat fuel ->
  exists m : nat,
    Z.of_nat m < distance fr fc tr tc /\
    isPathClear_run b fuel fr fc tr tc
    = (take m (squaresBetween fr fc tr tc),
       Done (forallb (emptyAt b) (squaresBetween fr fc tr tc))).
Proof.
  intros Hlen Hfr Htr Hal Hne Hfuel.
  unfold isPathClear_run, squaresBetween.
  set (d := distance fr fc tr tc) in *.
  set (rs := stepOf fr tr). set (cs := stepOf fc tc).
  assert (Hd : 1 <= d /\ tr = fr + d * rs /\ tc = fc + d * cs
               /\ (rs <> 0 \/ cs <> 0) /\ -1 <= rs <= 1).
  { subst d rs cs. unfold distance, aligned in *.
    destruct (stepOf_spec fr tr) as [[? ->] | [[? ->] | [? ->]]];
      destruct (stepOf_spec fc tc) as [[? ->] | [[? ->] | [? ->]]]; lia. }
  destruct Hd as (Hd1 & Hr & Hc & Hstep & Hrs).
  destruct (isPathClear_loop_exact b rs cs tr tc Hlen Hstep
              (Z.to_nat (d - 1)) (fr + rs) (fc + cs)) as (m & Hm & Heq).
  - rewrite Z2Nat.id by lia. lia.
  - rewrite Z2Nat.id by lia. lia.
  - rewrite Z2Nat.id by lia. intros k Hk. nia.
  - exists m. split; [lia |]. rewrite <- Heq.
    apply isPathClear_loop_fuel; [lia |]. rewrite Heq. discriminate.
Qed.

Lemma isPathClear_aligned (b : Board) (fr fc tr tc : Z) :
  length b = 8%nat ->
  0 <= fr <= 7 -> 0 <= tr <= 7 ->
  aligned fr fc tr tc ->
  fr <> tr \/ fc <> tc ->
  isPathClear b fr fc tr tc
  = Done (forallb (emptyAt b) (squaresBetween fr fc tr tc)).
Proof.
  intros Hlen Hfr Htr Hal Hne. unfold isPathClear.
  destruct (isPathClear_run_aligned b fr fc tr tc (pathFuel b fc tc))
    as (m & _ & ->); try done.
  unfold pathFuel, distance. rewrite Hlen. unfold aligned in Hal. lia.
Qed.

(** ** Adequacy of the fuel of [isPathClear]

    On every board and for all integer arguments the loop ends: along a
    row it reaches [toCol], and otherwise it returns or throws before it
    has run through the rows of the board. *)

Lemma isPathClear_loop_along_row (b : Board) (cs tr tc : Z) :
  cs <> 0 ->
  forall (n fuel : nat) (cc : Z),
    (n < fuel)%nat -> tc = cc + Z.of_nat n * cs ->
    snd (isPathClear_loop b fuel 0 cs tr tc tr cc) <> OutOfFuel.
Proof.
  intros Hcs. induction n as [| n IH]; intros fuel cc Hfuel Htc;
    (destruct fuel as [| fuel]; [lia |]); rewrite isPathClear_loop_S.
  - rewrite Z.eqb_refl.
    replace (cc =? tc) with true by (symmetry; apply Z.eqb_eq; lia).
    discriminate.
  - destruct (negb (tr =? tr) || negb (cc =? tc)); [| discriminate].
    pose proof (board_get_not_OutOfFuel b tr cc) as Hget.
    destruct (board_get b tr cc) as [[p |] | | |]; try discriminate;
      [| congruence].
    cbn [snd]. rewrite Z.add_0_r. apply IH; lia.
Qed.

Lemma board_get_off_rows (b : Board) (r c : Z) :
  r < 0 \/ Z.of_nat (length b) <= r -> board_get b r c = TypeError.
Proof.
  intros H. unfold board_get. destruct (Z.ltb_spec r 0); [reflexivity |].
  destruct (b !! Z.to_nat r) as [line |] eqn:Hline; [| reflexivity].
  apply lookup_lt_Some in Hline. lia.
Qed.

Lemma isPathClear_loop_across_rows (b : Board) (rs cs tr tc : Z) :
  forall (n fuel : nat) (cr cc : Z),
    (n < fuel)%nat ->
    (rs = 1 /\ (cr < 0 \/ Z.of_nat (length b) - Z.of_nat n <= cr))
    \/ (rs = -1 /\ (Z.of_nat (length b) <= cr \/ cr < Z.of_nat n)) ->
    snd (isPathClear_loop b fuel rs cs tr tc cr cc) <> OutOfFuel.
Proof.
  induction n as [| n IH]; intros fuel cr cc Hfuel Hcr;
    (destruct fuel as [| fuel]; [lia |]); rewrite isPathClear_loop_S;
    (destruct (negb (cr =? tr) || negb (cc =? tc)); [| discriminate]).
  - rewrite board_get_off_rows by lia. discriminate.
  - destruct (Z.lt_ge_cases cr 0) as [Hneg | Hpos];
      [rewrite board_get_off_rows by lia; discriminate |].
    destruct (Z.le_gt_cases (Z.of_nat (length b)) cr) as [Hbig | Hsmall];
      [rewrite board_get_off_rows by lia; discriminate |].
    pose proof (board_get_not_OutOfFuel b cr cc) as Hget.
    destruct (board_get b cr cc) as [[p |] | | |]; try discriminate;
      [| congruence].
    cbn [snd]. apply IH; lia.
Qed.

(** [isPathClear] never runs out of fuel, and more fuel than [pathFuel]
    does not change its result. *)
Lemma isPathClear_fuel_adequate (b : Board) (fromRow fromCol toRow toCol : Z) :
  isPathClear b fromRow fromCol toRow toCol <> OutOfFuel
  /\ forall fuel : nat,
       (pathFuel b fromCol toCol <= fuel)%nat ->
       isPathClear_run b fuel fromRow fromCol toRow toCol
       = isPathClear_run b (pathFuel b fromCol toCol)
           fromRow fromCol toRow toCol.
Proof.
  assert (H : isPathClear b fromRow fromCol toRow toCol <> OutOfFuel).
  { unfold isPathClear, isPathClear_run, pathFuel.
    destruct (stepOf_spec fromRow toRow) as [[Hr ->] | [[Hr ->] | [Hr ->]]].
    - subst toRow. rewrite Z.add_0_r.
      destruct (stepOf_spec fromCol toCol) as [[Hc ->] | [[Hc ->] | [Hc ->]]].
      + subst toCol. rewrite Z.add_0_r. cbn [isPathClear_loop].
        rewrite !Z.eqb_refl. discriminate.
      + apply (isPathClear_loop_along_row b 1 fromRow toCol ltac:(lia)
                 (Z.to_nat (toCol - fromCol - 1))); lia.
      + apply (isPathClear_loop_along_row b (-1) fromRow toCol ltac:(lia)
                 (Z.to_nat (fromCol - toCol - 1))); lia.
    - apply (isPathClear_loop_across_rows b 1 _ toRow toCol (length b)); lia.
    - apply (isPathClear_loop_across_rows b (-1) _ toRow toCol (length b));
        lia. }
  split; [exact H |]. intros fuel Hfuel. unfold isPathClear_run.
  apply isPathClear_loop_fuel; [exact Hfuel | exact H].
Qed.

(** ** Notation codec *)

Lemma in_range8 (z : Z) : 0 <= z <= 7 -> z ∈ range8.
Proof.
  intros H. unfold range8. rewrite !elem_of_cons. lia.
Qed.

Lemma inRange_true (z : Z) : inRange z = true <-> 0 <= z <= 7.
Proof. unfold inRange. rewrite andb_true_iff, !Z.leb_le. done. Qed.

Lemma inGrid_true (r c : Z) :
  inGrid r c = true <-> 0 <= r <= 7 /\ 0 <= c <= 7.
Proof. unfold inGrid. rewrite andb_true_iff, !inRange_true. done. Qed.

Lemma roundtrip_range8 :
  Forall (fun r =>
    Forall (fun c =>
      parseSquareNotation (getSquareNotation r c) = Some (mkSquare r c))
      range8) range8.
Proof. repeat constructor. Qed.

(** C2: on each of the 64 squares, parsing the name that
    [getSquareNotation] produces gives back the same row and column. *)
Theorem parse_getSquareNotation (row col : Z) :
  0 <= row <= 7 -> 0 <= col <= 7 ->
  parseSquareNotation (getSquareNotation row col) = Some (mkSquare row col).
Proof.
  intros Hr Hc.
  pose proof roundtrip_range8 as H.
  rewrite Forall_forall in H. specialize (H row (in_range8 row Hr)).
  rewrite Forall_forall in H. exact (H col (in_range8 col Hc)).
Qed.

Lemma parse_getSquareNotation_witness :
  (0 <= 6 <= 7 /\ 0 <= 4 <= 7)
  /\ parseSquareNotation (getSquareNotation 6 4) = Some (mkSquare 6 4).
Proof. split; [lia | apply (parse_getSquareNotation 6 4); lia]. Defined.

Lemma indexOf_files (c : ascii) :
  (if isFileChar c then inRange (indexOf files c)
   else indexOf files c =? -1) = true.
Proof. destruct c as [[] [] [] [] [] [] [] []]; reflexivity. Qed.

Lemma indexOf_ranks (c : ascii) :
  (if isRankChar c then inRange (indexOf ranks c)
   else indexOf ranks c =? -1) = true.
Proof. destruct c as [[] [] [] [] [] [] [] []]; reflexivity. Qed.

(** C3, as the claim states it, fails: the two characters of ["z9"] are
    outside the alphabets, and the parser still returns a pair. *)
Lemma parse_z9_not_null :
  ~ (parseSquareNotation (Str "z9") = None
     <-> malformedNotation "z9" = true).
Proof. intros [_ H]. specialize (H eq_refl). discriminate H. Qed.

(** C3 (amended): the parser returns [null] exactly when the length is not
    2; on a two-character string with a character outside [a..h] / [1..8]
    it returns the pair [(-1, -1)], which is off the board; on every other
    string it returns a square of the board. *)
Theorem parseSquareNotation_cases (s : string) :
  (parseSquareNotation (Str s) = None <-> String.length s <> 2%nat)
  /\ (String.length s = 2%nat -> malformedNotation s = true ->
      parseSquareNotation (Str s) = Some (mkSquare (-1) (-1)))
  /\ (malformedNotation s = false ->
      exists r c, inGrid r c = true
                  /\ parseSquareNotation (Str s) = Some (mkSquare r c)).
Proof.
  destruct s as [| c0 [| c1 [| c2 s]]]; cbn [String.length].
  - split; [done |]. split; [done |]. intros H; discriminate H.
  - split; [done |]. split; [done |]. intros H; discriminate H.
  - pose proof (indexOf_files c0) as Hf. pose proof (indexOf_ranks c1) as Hr.
    unfold malformedNotation, parseSquareNotation.
    cbn [String.length String.get Nat.eqb negb orb].
    destruct (isFileChar c0), (isRankChar c1); cbn [negb orb].
    + apply inRange_true in Hf, Hr.
      destruct (Z.eqb_spec (indexOf files c0) (-1)); [lia |].
      destruct (Z.eqb_spec (indexOf ranks c1) (-1)); [lia |].
      cbn [orb]. split; [split; [discriminate | done] |].
      split; [discriminate |]. intros _.
      exists (indexOf ranks c1), (indexOf files c0).
      split; [apply inGrid_true; lia | reflexivity].
    + rewrite Hr, orb_true_r. split; [split; [discriminate | done] |].
      split; [done | discriminate].
    + rewrite Hf. cbn [orb]. split; [split; [discriminate | done] |].
      split; [done | discriminate].
    + rewrite Hf. cbn [orb]. split; [split; [discriminate | done] |].
      split; [done | discriminate].
  - split; [split; [intros _; discriminate | done] |].
    split; [discriminate |]. intros H; discriminate H.
Qed.

Lemma parseSquareNotation_cases_witness :
  parseSquareNotation (Str "z9") = Some (mkSquare (-1) (-1)).
Proof.
  apply (proj1 (proj2 (parseSquareNotation_cases "z9"))); reflexivity.
Defined.

(** ** The basic checks of [isValidMove] *)

Lemma bounds_check (toRow toCol : Z) :
  (toRow <? 0) || (toRow >? 7) || (toCol <? 0) || (toCol >? 7)
  = negb (inGrid toRow toCol).
Proof.
  unfold inGrid, inRange. rewrite !Z.gtb_ltb.
  destruct (Z.ltb_spec toRow 0), (Z.ltb_spec 7 toRow),
    (Z.ltb_spec toCol 0), (Z.ltb_spec 7 toCol),
    (Z.leb_spec 0 toRow), (Z.leb_spec toRow 7),
    (Z.leb_spec 0 toCol), (Z.leb_spec toCol 7); simpl; lia || reflexivity.
Qed.

Lemma same_square_check (fromRow fromCol toRow toCol : Z) :
  (fromRow =? toRow) && (fromCol =? toCol) = true
  <-> fromRow = toRow /\ fromCol = toCol.
Proof. rewrite andb_true_iff, !Z.eqb_eq. done. Qed.

Lemma Color_eqb_eq (a b : Color) : Color_eqb a b = true <-> a = b.
Proof. destruct a, b; simpl; split; congruence. Qed.

Lemma Color_eqb_refl (a : Color) : Color_eqb a a = true.
Proof. destruct a; reflexivity. Qed.

(** C6: with the origin on the board, [isValidMove] answers [false] as soon
    as the destination is off the board, or equals the origin, or the
    origin is empty, or its piece is not of the colour to move, or the
    destination holds a piece of the mover's colour; the answer does not
    depend on the movement rules, which are not consulted. *)
Theorem isValidMove_basic_checks (b : Board) (cp : Color)
    (fromRow fromCol toRow toCol : Z) :
  wfBoard b ->
  inGrid fromRow fromCol = true ->
  inGrid toRow toCol = false
  \/ (fromRow = toRow /\ fromCol = toCol)
  \/ board_get b fromRow fromCol = Done None
  \/ (exists p, board_get b fromRow fromCol = Done (Some p) /\ color p <> cp)
  \/ (exists p t, board_get b fromRow fromCol = Done (Some p)
                  /\ board_get b toRow toCol = Done (Some t)
                  /\ color t = color p) ->
  (forall rule,
     isValidMove_with b cp rule fromRow fromCol toRow toCol = Done false)
  /\ isValidMove b cp fromRow fromCol toRow toCol = Done false.
Proof.
  intros Hwf Hfrom Hcase.
  assert (Hall : forall rule,
    isValidMove_with b cp rule fromRow fromCol toRow toCol = Done false);
    [| split; [exact Hall | apply Hall]].
  intros rule. unfold isValidMove_with. rewrite bounds_check.
  destruct (inGrid toRow toCol) eqn:Hto; cbn [negb]; [| reflexivity].
  destruct ((fromRow =? toRow) && (fromCol =? toCol)) eqn:Hsame;
    [reflexivity |].
  pose proof Hto as Hto'. apply inGrid_true in Hfrom, Hto.
  destruct (board_get_Done b fromRow fromCol (wfBoard_rows b Hwf))
    as [cell Hcell]; [lia |].
  destruct (board_get_Done b toRow toCol (wfBoard_rows b Hwf))
    as [target Htarget]; [lia |].
  rewrite Hcell. cbn [bind]. destruct cell as [p |]; [| reflexivity].
  destruct (Color_eqb (color p) cp) eqn:Hcol; cbn [negb]; [| reflexivity].
  rewrite Htarget. cbn [bind].
  destruct Hcase as [H | [H | [H | [(q & H & Hq) | (q & t & H & Ht & Hqt)]]]].
  - congruence.
  - apply same_square_check in H. congruence.
  - congruence.
  - apply Color_eqb_eq in Hcol. congruence.
  - rewrite Hcell in H. injection H as <-.
    rewrite Htarget in Ht. injection Ht as ->.
    rewrite Hqt, Color_eqb_refl. reflexivity.
Qed.

Lemma wfBoard_initialBoard : wfBoard initialBoard.
Proof. split; [reflexivity | repeat constructor]. Qed.

Lemma isValidMove_basic_checks_witness :
  isValidMove initialBoard white 7 0 6 0 = Done false.
Proof.
  apply (isValidMove_basic_checks initialBoard white 7 0 6 0).
  - split; [reflexivity | repeat constructor].
  - reflexivity.
  - right; right; right; right.
    exists (mkPiece "rook" white 9814), (mkPiece "pawn" white 9817).
    repeat split; reflexivity.
Defined.

(** ** Pawn moves *)

Lemma pawn_double_advance_model (b : Board) (p : ChessPiece)
    (fromRow fromCol toRow toCol : Z) :
  wfBoard b ->
  board_get b fromRow fromCol = Done (Some p) ->
  type p = "pawn" ->
  inGrid toRow toCol = true ->
  Z.abs (toRow - fromRow) = 2 ->
  exists r : bool,
    isValidPawnMove b fromRow fromCol toRow toCol p = Done r
    /\ isValidMove b (color p) fromRow fromCol toRow toCol = Done r
    /\ (r = true <->
        toCol = fromCol
        /\ toRow = fromRow + 2 * direction (color p)
        /\ fromRow = startRow (color p)
        /\ board_get b (fromRow + direction (color p)) fromCol = Done None
        /\ board_get b toRow toCol = Done None).
Proof.
  intros Hwf Hp Htype Hto Hdist.
  pose proof (wfBoard_rows b Hwf) as Hlen.
  pose proof Hto as Hto'. apply inGrid_true in Hto'.
  destruct (board_get_Done b toRow toCol Hlen) as [target Htarget]; [lia |].
  assert (Hpawn : exists r : bool,
    isValidPawnMove b fromRow fromCol toRow toCol p = Done r
    /\ (r = true -> target = None)
    /\ (r = true <->
        toCol = fromCol
        /\ toRow = fromRow + 2 * direction (color p)
        /\ fromRow = startRow (color p)
        /\ board_get b (fromRow + direction (color p)) fromCol = Done None
        /\ board_get b toRow toCol = Done None)).
  { unfold isValidPawnMove. rewrite Htarget. cbn [bind].
    destruct (Z.eqb_spec fromCol toCol) as [Hc | Hc].
    - destruct (Z.eqb_spec toRow (fromRow + direction (color p))) as [H1 | H1].
      { destruct (color p); cbn [direction] in H1; lia. }
      cbn [andb].
      destruct (Z.eqb_spec fromRow (startRow (color p))) as [Hs | Hs];
        cbn [andb].
      2:{ exists false. split; [reflexivity |]. split; [done |].
          split; [done | intros (_ & _ & H & _); done]. }
      destruct (Z.eqb_spec toRow (fromRow + 2 * direction (color p)))
        as [H2 | H2]; cbn [andb].
      2:{ exists false. split; [reflexivity |]. split; [done |].
          split; [done | intros (_ & H & _); done]. }
      destruct target as [t |]; cbn [truthy negb].
      { exists false. split; [reflexivity |]. split; [done |].
        split; [done | intros (_ & _ & _ & _ & H); discriminate H]. }
      destruct (board_get_Done b (fromRow + direction (color p)) fromCol Hlen)
        as [middle Hmiddle].
      { rewrite Hs. destruct (color p); cbn; lia. }
      rewrite Hmiddle. cbn [bind]. destruct middle as [m |]; cbn [truthy negb].
      + exists false. split; [reflexivity |]. split; [done |].
        split; [done | intros (_ & _ & _ & H & _); discriminate H].
      + exists true. split; [reflexivity |]. done.
    - assert (H1 : (toRow =? fromRow + direction (color p)) = false).
      { apply Z.eqb_neq. destruct (color p); cbn [direction]; lia. }
      rewrite H1, andb_false_r. cbn [andb].
      exists false. split; [reflexivity |]. split; [done |].
      split; [done | intros (H & _); congruence]. }
  destruct Hpawn as (r & Hr & Hempty & Hiff).
  exists r. split; [exact Hr |]. split; [| exact Hiff].
  unfold isValidMove, isValidMove_with. rewrite bounds_check, Hto.
  cbn [negb].
  assert (Hrow : (fromRow =? toRow) = false) by (apply Z.eqb_neq; lia).
  rewrite Hrow. cbn [andb]. rewrite Hp. cbn [bind].
  rewrite Color_eqb_refl. cbn [negb]. rewrite Htarget. cbn [bind].
  destruct target as [t |].
  - destruct r; [specialize (Hempty eq_refl); discriminate Hempty |].
    destruct (Color_eqb (color t) (color p)); [reflexivity |].
    unfold pieceRule. rewrite Htype. cbn. exact Hr.
  - unfold pieceRule. rewrite Htype. cbn. exact Hr.
Qed.

(** C5: for a pawn standing on the board and a destination of the board two
    rows away, the pawn rule, and [isValidMove] on that pawn's turn, accept
    the move exactly when the destination is in the pawn's column, the
    pawn is on its starting row and goes two rows forward, which is from
    row 6 to row 4 for a white pawn and from row 1 to row 3 for a black
    one, and the square in between, on row 5 or row 2, and the destination
    are both empty. *)
Theorem pawn_double_advance (b : Board) (p : ChessPiece)
    (fromRow fromCol toRow toCol : Z) :
  wfBoard b ->
  board_get b fromRow fromCol = Done (Some p) ->
  type p = "pawn" ->
  inGrid toRow toCol = true ->
  Z.abs (toRow - fromRow) = 2 ->
  exists r : bool,
    isValidPawnMove b fromRow fromCol toRow toCol p = Done r
    /\ isValidMove b (color p) fromRow fromCol toRow toCol = Done r
    /\ (r = true <->
        toCol = fromCol
        /\ (color p = white /\ fromRow = 6 /\ toRow = 4
            /\ board_get b 5 fromCol = Done None
            \/ color p = black /\ fromRow = 1 /\ toRow = 3
               /\ board_get b 2 fromCol = Done None)
        /\ board_get b toRow toCol = Done None).
Proof.
  intros Hwf Hp Htype Hto Hdist.
  destruct (pawn_double_advance_model b p fromRow fromCol toRow toCol
              Hwf Hp Htype Hto Hdist) as (r & Hpawn & Hvalid & Hiff).
  exists r. split; [exact Hpawn |]. split; [exact Hvalid |].
  rewrite Hiff. clear Hiff Hpawn Hvalid Hp.
  destruct (color p); cbn [direction startRow]; split.
  - intros (Hc & Hrow & Hstart & Hmid & Hdst). subst fromRow.
    split; [exact Hc |]. split; [| exact Hdst].
    left. repeat split; [lia | exact Hmid].
  - intros (Hc & [(_ & Hstart & Hrow & Hmid) | (Hcol & _)] & Hdst);
      [| discriminate Hcol].
    subst fromRow. repeat split; [exact Hc | lia | exact Hmid | exact Hdst].
  - intros (Hc & Hrow & Hstart & Hmid & Hdst). subst fromRow.
    split; [exact Hc |]. split; [| exact Hdst].
    right. repeat split; [lia | exact Hmid].
  - intros (Hc & [(Hcol & _) | (_ & Hstart & Hrow & Hmid)] & Hdst);
      [discriminate Hcol |].
    subst fromRow. repeat split; [exact Hc | lia | exact Hmid | exact Hdst].
Qed.

Lemma pawn_double_advance_witness :
  isValidPawnMove initialBoard 6 4 4 4 (mkPiece "pawn" white 9817) = Done true
  /\ isValidMove initialBoard white 6 4 4 4 = Done true.
Proof.
  destruct (pawn_double_advance initialBoard (mkPiece "pawn" white 9817)
              6 4 4 4) as (r & Hpawn & Hvalid & Hiff).
  - split; [reflexivity | repeat constructor].
  - reflexivity.
  - reflexivity.
  - reflexivity.
  - reflexivity.
  - assert (Hr : r = true).
    { apply Hiff. split; [reflexivity |]. split; [| reflexivity].
      left. repeat split. }
    rewrite Hr in Hpawn, Hvalid. exact (conj Hpawn Hvalid).
Defined.

(** ** Sliding pieces *)

Section Sliding.

Variable b : Board.
Variables fromRow fromCol toRow toCol : Z.
Hypothesis Hrows : length b = 8%nat.
Hypothesis HfromRow : 0 <= fromRow <= 7.
Hypothesis HtoRow : 0 <= toRow <= 7.
Hypothesis Hmoves : fromRow <> toRow \/ fromCol <> toCol.

Lemma isValidRookMove_spec :
  isValidRookMove b fromRow fromCol toRow toCol
  = Done (((fromRow =? toRow) || (fromCol =? toCol))
          && pathIsClear b fromRow fromCol toRow toCol).
Proof.
  unfold isValidRookMove.
  destruct (Z.eqb_spec fromRow toRow) as [Hr | Hr];
    destruct (Z.eqb_spec fromCol toCol) as [Hc | Hc]; cbn [negb andb orb];
    try reflexivity;
    apply isPathClear_aligned; unfold aligned; auto.
Qed.

Lemma isValidBishopMove_spec :
  isValidBishopMove b fromRow fromCol toRow toCol
  = Done ((Z.abs (fromRow - toRow) =? Z.abs (fromCol - toCol))
          && pathIsClear b fromRow fromCol toRow toCol).
Proof.
  unfold isValidBishopMove.
  destruct (Z.eqb_spec (Z.abs (fromRow - toRow)) (Z.abs (fromCol - toCol)))
    as [Hd | Hd]; cbn [negb andb]; [| reflexivity].
  apply isPathClear_aligned; unfold aligned; auto.
Qed.

Lemma isValidQueenMove_spec :
  isValidQueenMove b fromRow fromCol toRow toCol
  = Done (((fromRow =? toRow) || (fromCol =? toCol)
           || (Z.abs (fromRow - toRow) =? Z.abs (fromCol - toCol)))
          && pathIsClear b fromRow fromCol toRow toCol).
Proof.
  unfold isValidQueenMove.
  rewrite isValidRookMove_spec, isValidBishopMove_spec. cbn [bind].
  destruct ((fromRow =? toRow) || (fromCol =? toCol)); cbn [andb orb];
    [| reflexivity].
  destruct (pathIsClear b fromRow fromCol toRow toCol); [reflexivity |].
  rewrite andb_false_r. reflexivity.
Qed.

Lemma isValidPawnMove_Done (p : ChessPiece) :
  exists r, isValidPawnMove b fromRow fromCol toRow toCol p = Done r.
Proof.
  unfold isValidPawnMove.
  destruct (board_get_Done b toRow toCol Hrows HtoRow) as [target ->].
  cbn [bind].
  destruct (fromCol =? toCol).
  - destruct ((toRow =? fromRow + direction (color p))
              && negb (truthy target)); [eauto |].
    destruct (Z.eqb_spec fromRow (startRow (color p))) as [Hs | Hs];
      cbn [andb]; [| eauto].
    destruct ((toRow =? fromRow + 2 * direction (color p))
              && negb (truthy target)); [| eauto].
    destruct (board_get_Done b (fromRow + direction (color p)) fromCol Hrows)
      as [middle ->].
    { rewrite Hs. destruct (color p); cbn; lia. }
    cbn [bind]. destruct (negb (truthy middle)); eauto.
  - match goal with |- context [if ?c then _ else _] => destruct c end; eauto.
Qed.

Lemma pieceRule_Done (p : ChessPiece) :
  exists r, pieceRule b fromRow fromCol toRow toCol p = Done r.
Proof.
  unfold pieceRule.
  destruct (String.eqb (type p) "pawn"); [apply isValidPawnMove_Done |].
  destruct (String.eqb (type p) "rook");
    [rewrite isValidRookMove_spec; eauto |].
  destruct (String.eqb (type p) "bishop");
    [rewrite isValidBishopMove_spec; eauto |].
  destruct (String.eqb (type p) "knight");
    [unfold isValidKnightMove; eauto |].
  destruct (String.eqb (type p) "queen");
    [rewrite isValidQueenMove_spec; eauto |].
  destruct (String.eqb (type p) "king");
    [unfold isValidKingMove; eauto |].
  eauto.
Qed.

End Sliding.

(** [isValidMove] returns on every board of the component whenever the
    origin row is one of the board's rows. *)
Lemma isValidMove_Done (b : Board) (cp : Color) (fromRow fromCol toRow toCol : Z) :
  length b = 8%nat -> 0 <= fromRow <= 7 ->
  exists r, isValidMove b cp fromRow fromCol toRow toCol = Done r.
Proof.
  intros Hlen Hfrom. unfold isValidMove, isValidMove_with.
  rewrite bounds_check.
  destruct (inGrid toRow toCol) eqn:Hto; cbn [negb]; [| eauto].
  apply inGrid_true in Hto.
  destruct ((fromRow =? toRow) && (fromCol =? toCol)) eqn:Hsame; [eauto |].
  assert (fromRow <> toRow \/ fromCol <> toCol) as Hne.
  { apply andb_false_iff in Hsame as [H | H]; apply Z.eqb_neq in H; auto. }
  destruct (board_get_Done b fromRow fromCol Hlen Hfrom) as [cell ->].
  cbn [bind]. destruct cell as [p |]; [| eauto].
  destruct (negb (Color_eqb (color p) cp)); [eauto |].
  destruct (board_get_Done b toRow toCol Hlen) as [target ->]; [lia |].
  cbn [bind].
  match goal with |- context [if ?c then _ else _] => destruct c end;
    [eauto |].
  apply pieceRule_Done; (done || lia).
Qed.

Lemma board_get_Some_inGrid (b : Board) (r c : Z) (p : ChessPiece) :
  wfBoard b -> board_get b r c = Done (Some p) -> 0 <= r <= 7 /\ 0 <= c <= 7.
Proof.
  intros [Hlen Hall] H. unfold board_get in H.
  destruct (Z.ltb_spec r 0); [discriminate |].
  destruct (b !! Z.to_nat r) as [line |] eqn:Hline; [| discriminate].
  destruct (Z.ltb_spec c 0); [discriminate |].
  destruct (line !! Z.to_nat c) as [cell |] eqn:Hcell; [| discriminate].
  pose proof (lookup_lt_Some _ _ _ Hline) as Hr.
  pose proof (lookup_lt_Some _ _ _ Hcell) as Hc.
  rewrite Forall_forall in Hall.
  assert (length line = 8%nat) as Hline8
    by (eapply Hall, list_elem_of_lookup_2; eauto).
  unfold Board, Cell in *. lia.
Qed.

Lemma emptyAt_true (b : Board) (sq : Square) :
  emptyAt b sq = true <-> board_get b (row sq) (col sq) = Done None.
Proof.
  unfold emptyAt. destruct (board_get b (row sq) (col sq)) as [[p |] | | |];
    split; intros H; (reflexivity || discriminate H).
Qed.

Lemma clear_path (b : Board) (l : list Square) :
  forallb (emptyAt b) l = true ->
  forall sq, sq ∈ l -> board_get b (row sq) (col sq) = Done None.
Proof.
  intros H sq Hsq. apply emptyAt_true.
  rewrite forallb_forall in H. apply H, list_elem_of_In, Hsq.
Qed.

(** C4: for a rook, bishop or queen, [isValidMove] returns, and answers
    [true] only if origin and destination are aligned and every square
    strictly between them is empty. On the initial position with white to
    move, the 20 opening moves are all judged legal, and the rook move from
    a1 to a3, which would jump the pawn on a2, is judged illegal. *)
Theorem sliding_move_needs_clear_path :
  (forall (b : Board) (cp : Color) (fromRow fromCol toRow toCol : Z)
          (p : ChessPiece),
      wfBoard b ->
      board_get b fromRow fromCol = Done (Some p) ->
      slidingPiece p ->
      exists r : bool,
        isValidMove b cp fromRow fromCol toRow toCol = Done r
        /\ (r = true ->
            aligned fromRow fromCol toRow toCol
            /\ forall sq, sq ∈ squaresBetween fromRow fromCol toRow toCol ->
                          board_get b (row sq) (col sq) = Done None))
  /\ (length openingMoves = 20%nat
      /\ NoDup openingMoves
      /\ Forall (fun m => isValidMove_sq initialBoard white m = Done true)
           openingMoves)
  /\ isValidMove initialBoard white 7 0 5 0 = Done false.
Proof.
  split; [| split; [split; [reflexivity | split] | reflexivity]].
  - intros b cp fromRow fromCol toRow toCol p Hwf Hp Hslide.
    pose proof (wfBoard_rows b Hwf) as Hlen.
    destruct (board_get_Some_inGrid b _ _ p Hwf Hp) as [Hfr Hfc].
    unfold isValidMove, isValidMove_with. rewrite bounds_check.
    destruct (inGrid toRow toCol) eqn:Hto; cbn [negb];
      [| exists false; done].
    apply inGrid_true in Hto.
    destruct ((fromRow =? toRow) && (fromCol =? toCol)) eqn:Hsame;
      [exists false; done |].
    assert (fromRow <> toRow \/ fromCol <> toCol) as Hne.
    { apply andb_false_iff in Hsame as [H | H]; apply Z.eqb_neq in H; auto. }
    rewrite Hp. cbn [bind].
    destruct (negb (Color_eqb (color p) cp)); [exists false; done |].
    destruct (board_get_Done b toRow toCol Hlen) as [target ->]; [lia |].
    cbn [bind].
    match goal with |- context [if ?c then _ else _] => destruct c end;
      [exists false; done |].
    unfold pieceRule.
    destruct Hslide as [Ht | [Ht | Ht]]; rewrite Ht; cbn [String.eqb Ascii.eqb Bool.eqb];
      [ rewrite isValidRookMove_spec by (done || lia)
      | rewrite isValidBishopMove_spec by (done || lia)
      | rewrite isValidQueenMove_spec by (done || lia) ];
      (eexists; split; [reflexivity |]);
      intros Hr; apply andb_true_iff in Hr as [Hal Hclear];
      (split; [| apply clear_path, Hclear]); unfold aligned.
    + apply orb_true_iff in Hal as [H | H]; apply Z.eqb_eq in H; auto.
    + apply Z.eqb_eq in Hal; auto.
    + rewrite !orb_true_iff, !Z.eqb_eq in Hal. tauto.
  - apply NoDup_ListNoDup. repeat constructor; cbn; intuition discriminate.
  - repeat constructor.
Qed.

Lemma sliding_move_needs_clear_path_witness :
  aligned 7 0 0 0
  /\ forall sq, sq ∈ squaresBetween 7 0 0 0 ->
                board_get loneRookBoard (row sq) (col sq) = Done None.
Proof.
  destruct (proj1 sliding_move_needs_clear_path loneRookBoard white 7 0 0 0
              (mkPiece "rook" white 9814)) as (r & Hr & Hclear).
  - split; [reflexivity | repeat constructor].
  - reflexivity.
  - left. reflexivity.
  - apply Hclear. vm_compute in Hr. congruence.
Defined.

(** C10: for distinct squares of the board on a common row, column or
    diagonal, the loop of [isPathClear] returns within seven evaluations of
    its condition and reads at most six cells; the [k]-th cell it reads is
    the square [k + 1] steps from the origin towards the destination, which
    lies on the board strictly between the two, one step closer to the
    destination than the cell read before it. *)
Theorem isPathClear_terminates_in_bounds (b : Board)
    (fromRow fromCol toRow toCol : Z) :
  wfBoard b ->
  inGrid fromRow fromCol = true ->
  inGrid toRow toCol = true ->
  fromRow <> toRow \/ fromCol <> toCol ->
  aligned fromRow fromCol toRow toCol ->
  exists (reads : list Square) (result : bool),
    (forall fuel : nat, (7 <= fuel)%nat ->
       isPathClear_run b fuel fromRow fromCol toRow toCol
       = (reads, Done result))
    /\ isPathClear b fromRow fromCol toRow toCol = Done result
    /\ (length reads < 7)%nat
    /\ forall (k : nat) (sq : Square),
         reads !! k = Some sq ->
         let step := Z.of_nat k + 1 in
         sq = mkSquare (fromRow + step * stepOf fromRow toRow)
                       (fromCol + step * stepOf fromCol toCol)
         /\ 0 < step < distance fromRow fromCol toRow toCol
         /\ inGrid (row sq) (col sq) = true
         /\ distance (row sq) (col sq) toRow toCol
            = distance fromRow fromCol toRow toCol - step.
Proof.
  intros Hwf Hfrom Hto Hne Hal.
  pose proof (wfBoard_rows b Hwf) as Hlen.
  apply inGrid_true in Hfrom, Hto.
  assert (Hd : distance fromRow fromCol toRow toCol <= 7)
    by (unfold distance; lia).
  destruct (isPathClear_run_aligned b fromRow fromCol toRow toCol 7)
    as (m & Hm & Hrun); try (done || lia).
  exists (take m (squaresBetween fromRow fromCol toRow toCol)),
    (forallb (emptyAt b) (squaresBetween fromRow fromCol toRow toCol)).
  split; [| split; [| split]].
  - intros fuel Hfuel. rewrite <- Hrun. unfold isPathClear_run.
    apply isPathClear_loop_fuel; [exact Hfuel |].
    unfold isPathClear_run in Hrun. rewrite Hrun. discriminate.
  - apply isPathClear_aligned; (done || lia).
  - rewrite length_take. lia.
  - intros k sq Hk. apply lookup_take_Some in Hk as [Hk Hkm].
    apply lookup_pathSquares in Hk as [_ ->]. cbn [row col].
    unfold distance, aligned in *. rewrite inGrid_true.
    destruct (stepOf_spec fromRow toRow) as [[? ->] | [[? ->] | [? ->]]];
      destruct (stepOf_spec fromCol toCol) as [[? ->] | [[? ->] | [? ->]]];
      (split; [f_equal; lia | lia]).
Qed.

Lemma isPathClear_terminates_in_bounds_witness :
  exists (reads : list Square) (result : bool),
    (forall fuel : nat, (7 <= fuel)%nat ->
       isPathClear_run initialBoard fuel 7 0 0 7 = (reads, Done result))
    /\ isPathClear initialBoard 7 0 0 7 = Done result
    /\ (length reads < 7)%nat
    /\ forall (k : nat) (sq : Square),
         reads !! k = Some sq ->
         let step := Z.of_nat k + 1 in
         sq = mkSquare (7 + step * stepOf 7 0) (0 + step * stepOf 0 7)
         /\ 0 < step < distance 7 0 0 7
         /\ inGrid (row sq) (col sq) = true
         /\ distance (row sq) (col sq) 0 7 = distance 7 0 0 7 - step.
Proof.
  apply (isPathClear_terminates_in_bounds initialBoard 7 0 0 7).
  - split; [reflexivity | repeat constructor].
  - reflexivity.
  - reflexivity.
  - left. lia.
  - right. right. reflexivity.
Defined.

(** ** Writing the board *)

Lemma wfBoard_lookup (b : Board) (r : Z) :
  wfBoard b -> 0 <= r <= 7 ->
  exists line, b !! Z.to_nat r = Some line /\ length line = 8%nat.
Proof.
  intros [Hlen Hall] Hr.
  destruct (b !! Z.to_nat r) as [line |] eqn:Hline.
  - exists line. split; [reflexivity |].
    rewrite Forall_forall in Hall.
    eapply Hall, list_elem_of_lookup_2; eauto.
  - apply lookup_ge_None in Hline. lia.
Qed.

Lemma board_set_Done (b : Board) (r c : Z) (v : Cell) :
  wfBoard b -> 0 <= r <= 7 -> 0 <= c <= 7 ->
  exists b',
    board_set b r c v = Done b'
    /\ wfBoard b'
    /\ board_get b' r c = Done v
    /\ forall r' c', r' <> r \/ c' <> c ->
                     board_get b' r' c' = board_get b r' c'.
Proof.
  intros Hwf Hr Hc.
  destruct (wfBoard_lookup b r Hwf Hr) as (line & Hline & Hlen).
  destruct Hwf as [Hrows Hall].
  unfold wfBoard, board_get, board_set, row_set, Board, Cell in *.
  destruct (Z.ltb_spec r 0); [lia |]. rewrite Hline.
  destruct (Z.ltb_spec c 0); [lia |].
  destruct (Nat.ltb_spec (Z.to_nat c) (length line)); [| lia].
  cbn [bind]. eexists. split; [reflexivity |].
  assert (Hr' : (Z.to_nat r < length b)%nat) by lia.
  split; [| split].
  - split; [rewrite length_insert; exact Hrows |].
    apply Forall_insert; [exact Hall |]. rewrite length_insert. exact Hlen.
  - unfold board_get.
    destruct (Z.ltb_spec r 0); [lia |].
    rewrite list_lookup_insert_eq by exact Hr'.
    destruct (Z.ltb_spec c 0); [lia |].
    rewrite list_lookup_insert_eq by assumption. reflexivity.
  - intros r' c' Hne. unfold board_get.
    destruct (Z.ltb_spec r' 0); [reflexivity |].
    destruct (decide (Z.to_nat r' = Z.to_nat r)) as [Heq | Hneq].
    + rewrite Heq, list_lookup_insert_eq, Hline by exact Hr'.
      destruct (Z.ltb_spec c' 0); [reflexivity |].
      rewrite list_lookup_insert_ne by lia. reflexivity.
    + rewrite list_lookup_insert_ne by congruence. reflexivity.
Qed.

(** ** The move executor *)

Lemma isValidMove_true_inv (b : Board) (cp : Color)
    (fromRow fromCol toRow toCol : Z) :
  isValidMove b cp fromRow fromCol toRow toCol = Done true ->
  exists p, board_get b fromRow fromCol = Done (Some p)
            /\ color p = cp
            /\ inGrid toRow toCol = true
            /\ (fromRow <> toRow \/ fromCol <> toCol).
Proof.
  unfold isValidMove, isValidMove_with. rewrite bounds_check.
  destruct (inGrid toRow toCol); cbn [negb]; [| discriminate].
  destruct ((fromRow =? toRow) && (fromCol =? toCol)) eqn:Hsame;
    [discriminate |].
  destruct (board_get b fromRow fromCol) as [[p |] | | |]; cbn [bind];
    try discriminate.
  destruct (Color_eqb (color p) cp) eqn:Hcol; cbn [negb]; [| discriminate].
  intros _. exists p. apply Color_eqb_eq in Hcol.
  repeat split; try done.
  apply andb_false_iff in Hsame as [H | H]; apply Z.eqb_neq in H; auto.
Qed.

Lemma executeMove_Done (now : Z) (s : GameState)
    (fromRow fromCol toRow toCol : Z) (p : ChessPiece) :
  wfBoard (board s) ->
  board_get (board s) fromRow fromCol = Done (Some p) ->
  inGrid toRow toCol = true ->
  fromRow <> toRow \/ fromCol <> toCol ->
  exists s',
    executeMove now s fromRow fromCol toRow toCol = Done s'
    /\ wfState s'
    /\ movedTo now s s' fromRow fromCol toRow toCol.
Proof.
  intros Hwf Hp Hto Hne.
  destruct (board_get_Some_inGrid _ _ _ _ Hwf Hp) as [Hfr Hfc].
  apply inGrid_true in Hto as [Htr Htc].
  destruct (board_set_Done (board s) toRow toCol (Some p) Hwf Htr Htc)
    as (b1 & Hb1 & Hwf1 & Hget1 & Hframe1).
  destruct (board_set_Done b1 fromRow fromCol None Hwf1 Hfr Hfc)
    as (b2 & Hb2 & Hwf2 & Hget2 & Hframe2).
  unfold executeMove. rewrite Hp. cbn [bind]. rewrite Hb1. cbn [bind].
  rewrite Hb2. cbn [bind]. eexists. split; [reflexivity |].
  split; [split; [exact Hwf2 | intros sq H; discriminate H] |].
  exists p. cbn. repeat split; try done.
  - rewrite Hframe2 by (destruct Hne; auto). exact Hget1.
  - intros r c H1 H2. rewrite Hframe2, Hframe1 by assumption. reflexivity.
Qed.

(** ** The bare-destination search *)

Lemma find_app_first {A : Type} (f : A -> bool) (l1 l2 : list A) :
  find f (l1 ++ l2)
  = match find f l1 with Some x => Some x | None => find f l2 end.
Proof.
  induction l1 as [| a l1 IH]; cbn [find app]; [reflexivity |].
  destruct (f a); [reflexivity | exact IH].
Qed.

Lemma truthyString_squareName (sq : Square) :
  0 <= col sq <= 7 -> truthyString (Some (squareName sq)) = true.
Proof.
  intros Hc. destruct sq as [r c]. cbn [col] in Hc.
  unfold squareName, getSquareNotation, truthyString. cbn [row col].
  apply in_range8 in Hc. unfold range8 in Hc. rewrite !elem_of_cons in Hc.
  destruct Hc as [-> | [-> | [-> | [-> | [-> | [-> | [-> | [-> | Hc]]]]]]]];
    [.. | inversion Hc]; cbn; destruct (charAt ranks r); reflexivity.
Qed.

Section Search.

Variable b : Board.
Variable cp : Color.
Variable toSquare : JsString.
Variables toRow toCol : Z.
Hypothesis Hrows : length b = 8%nat.
Hypothesis Hparse : parseSquareNotation toSquare = Some (mkSquare toRow toCol).

Lemma searchCols_spec (r : Z) (cols : list Z) :
  0 <= r <= 7 ->
  searchCols b cp toSquare r cols
  = Done (squareName <$> find (canReach b cp toRow toCol)
                              (map (mkSquare r) cols)).
Proof.
  intros Hr. induction cols as [| c cols IH];
    cbn [searchCols map find]; [reflexivity |].
  unfold canReach at 1. cbn [row col].
  destruct (board_get_Done b r c Hrows Hr) as [cell Hcell].
  rewrite Hcell. cbn [bind].
  destruct cell as [p |]; [| exact IH].
  destruct (Color_eqb (color p) cp); cbn [andb]; [| exact IH].
  rewrite Hparse.
  destruct (isValidMove_Done b cp r c toRow toCol Hrows Hr) as [v ->].
  cbn [bind]. destruct v; [reflexivity | exact IH].
Qed.

Lemma searchRows_spec (rows : list Z) :
  Forall (fun r => 0 <= r <= 7) rows ->
  searchRows b cp toSquare rows
  = Done (squareName <$> find (canReach b cp toRow toCol)
                              (flat_map (fun r => map (mkSquare r) range8)
                                 rows)).
Proof.
  induction 1 as [| r rows Hr Hall IH]; cbn [searchRows flat_map];
    [reflexivity |].
  rewrite searchCols_spec by exact Hr. cbn [bind].
  rewrite find_app_first.
  destruct (find (canReach b cp toRow toCol) (map (mkSquare r) range8))
    as [sq |] eqn:Hfind; cbn [fmap option_fmap option_map].
  - rewrite truthyString_squareName; [reflexivity |].
    apply find_some in Hfind as [Hin _].
    apply in_map_iff in Hin as (c & <- & Hc). cbn [col].
    unfold range8 in Hc. cbn [In] in Hc. lia.
  - cbn [truthyString]. exact IH.
Qed.

End Search.

(** ** Square names in a command *)

Lemma parse_bareSquare (s : string) :
  testBareSquare s = true ->
  exists r c, (0 <= r <= 7 /\ 0 <= c <= 7)
              /\ parseSquareNotation (Str s) = Some (mkSquare r c).
Proof.
  destruct s as [| c0 [| c1 [| c2 s]]]; cbn [testBareSquare];
    try discriminate.
  intros H. apply andb_true_iff in H as [Hf Hr].
  pose proof (indexOf_files c0) as Hi. pose proof (indexOf_ranks c1) as Hj.
  rewrite Hf in Hi. rewrite Hr in Hj. apply inRange_true in Hi, Hj.
  unfold parseSquareNotation.
  destruct (Z.eqb_spec (indexOf files c0) (-1)); [lia |].
  destruct (Z.eqb_spec (indexOf ranks c1) (-1)); [lia |].
  cbn [orb]. eauto.
Qed.

Lemma testBareSquare_truthy (s : string) :
  testBareSquare s = true -> truthyString (Some (Str s)) = true.
Proof. destruct s; [discriminate | reflexivity]. Qed.

Lemma lazyThenSquare_shape (s x : string) :
  lazyThenSquare s = Some x -> testBareSquare x = true.
Proof.
  induction s as [| f s IH]; [discriminate |].
  destruct s as [| r rest]; [discriminate |]. cbn [lazyThenSquare].
  destruct (isFileChar f && isRankChar r) eqn:Hsq.
  - intros H. injection H as <-. exact Hsq.
  - destruct (isLineTerminator f); [discriminate | exact IH].
Qed.

Lemma matchSquarePair_shape (s x y : string) :
  matchSquarePair s = Some (x, y) ->
  testBareSquare x = true /\ testBareSquare y = true.
Proof.
  induction s as [| f s IH]; [discriminate |].
  destruct s as [| r rest]; [discriminate |]. cbn [matchSquarePair].
  destruct (isFileChar f && isRankChar r) eqn:Hsq; [| exact IH].
  destruct (lazyThenSquare rest) as [second |] eqn:Hsecond; [| exact IH].
  intros H. injection H as <- <-.
  split; [exact Hsq | eapply lazyThenSquare_shape, Hsecond].
Qed.

Lemma containsSquare_bare (s : string) :
  containsSquare s = false -> testBareSquare s = false.
Proof.
  destruct s as [| f [| r [| c s]]]; try reflexivity.
  cbn [containsSquare testBareSquare]. intros H.
  apply orb_false_iff in H as [H _]. exact H.
Qed.

Lemma containsSquare_pair (s : string) :
  containsSquare s = false -> matchSquarePair s = None.
Proof.
  induction s as [| f s IH]; [reflexivity |].
  destruct s as [| r rest]; [reflexivity |].
  cbn [containsSquare matchSquarePair]. intros H.
  apply orb_false_iff in H as [Hsq Hrest]. rewrite Hsq. exact (IH Hrest).
Qed.

Lemma allSquares_inGrid (sq : Square) :
  In sq allSquares -> 0 <= row sq <= 7 /\ 0 <= col sq <= 7.
Proof.
  assert (H : Forall (fun sq => 0 <= row sq <= 7 /\ 0 <= col sq <= 7)
                allSquares) by (repeat constructor; cbn; lia).
  rewrite Forall_forall in H. intros Hin. apply H, list_elem_of_In, Hin.
Qed.

Lemma parse_squareName (sq : Square) :
  0 <= row sq <= 7 -> 0 <= col sq <= 7 ->
  parseSquareNotation (squareName sq) = Some sq.
Proof.
  intros Hr Hc. destruct sq as [r c]. cbn [row col] in *.
  pose proof roundtrip_range8 as H.
  rewrite Forall_forall in H. specialize (H r (in_range8 r Hr)).
  rewrite Forall_forall in H. exact (H c (in_range8 c Hc)).
Qed.

(** ** The voice command resolver *)

Lemma moveExtracted_squares (now : Z) (s : GameState) (x y : string) :
  wfBoard (board s) ->
  testBareSquare x = true -> testBareSquare y = true ->
  exists fromRow fromCol toRow toCol,
    (0 <= fromRow <= 7 /\ 0 <= fromCol <= 7)
    /\ parseSquareNotation (Str x) = Some (mkSquare fromRow fromCol)
    /\ parseSquareNotation (Str y) = Some (mkSquare toRow toCol)
    /\ exists ok,
         isValidMove (board s) (currentPlayer s) fromRow fromCol toRow toCol
         = Done ok
         /\ moveExtracted now s (Some (Str x)) (Some (Str y))
            = if ok then executeMove now s fromRow fromCol toRow toCol
              else Done s.
Proof.
  intros Hwf Hx Hy.
  destruct (parse_bareSquare x Hx) as (fr & fc & Hfrom & Hpx).
  destruct (parse_bareSquare y Hy) as (tr & tc & Hto & Hpy).
  exists fr, fc, tr, tc. split; [exact Hfrom |].
  split; [exact Hpx |]. split; [exact Hpy |].
  destruct (isValidMove_Done (board s) (currentPlayer s) fr fc tr tc
              (wfBoard_rows _ Hwf)) as [ok Hok]; [lia |].
  exists ok. split; [exact Hok |].
  unfold moveExtracted.
  rewrite (testBareSquare_truthy x Hx), (testBareSquare_truthy y Hy).
  cbn [andb]. rewrite Hpx, Hpy, Hok. reflexivity.
Qed.

Lemma canReach_true (b : Board) (cp : Color) (toRow toCol : Z) (sq : Square) :
  canReach b cp toRow toCol sq = true ->
  exists p, board_get b (row sq) (col sq) = Done (Some p)
            /\ color p = cp
            /\ isValidMove b cp (row sq) (col sq) toRow toCol = Done true.
Proof.
  unfold canReach.
  destruct (board_get b (row sq) (col sq)) as [[p |] | | |]; try discriminate.
  intros H. apply andb_true_iff in H as [Hcol Hvalid].
  exists p. split; [reflexivity |]. split; [apply Color_eqb_eq, Hcol |].
  destruct (isValidMove b cp (row sq) (col sq) toRow toCol) as [[|] | | |];
    (reflexivity || discriminate).
Qed.

Lemma allSquares_row_major (r c : Z) :
  0 <= r <= 7 -> 0 <= c <= 7 ->
  allSquares !! Z.to_nat (8 * r + c) = Some (mkSquare r c).
Proof.
  intros Hr Hc.
  assert (H : Forall (fun r => Forall (fun c =>
                allSquares !! Z.to_nat (8 * r + c) = Some (mkSquare r c))
                range8) range8) by (repeat constructor).
  rewrite Forall_forall in H. specialize (H r (in_range8 r Hr)).
  rewrite Forall_forall in H. exact (H c (in_range8 c Hc)).
Qed.

Lemma find_first {A : Type} (f : A -> bool) (l : list A) (x : A) :
  find f l = Some x ->
  exists k : nat,
    l !! k = Some x
    /\ forall (j : nat) (y : A), (j < k)%nat -> l !! j = Some y -> f y = false.
Proof.
  induction l as [| a l IH]; cbn [find]; [discriminate |].
  destruct (f a) eqn:Hfa.
  - intros H. injection H as <-. exists 0%nat. split; [reflexivity |].
    intros j y Hj. lia.
  - intros H. destruct (IH H) as (k & Hk & Hbefore). exists (S k).
    split; [exact Hk |]. intros [| j] y Hj Hy.
    + injection Hy as <-. exact Hfa.
    + apply (Hbefore j y); [lia | exact Hy].
Qed.

Lemma lookup_allSquares (k : nat) (sq : Square) :
  allSquares !! k = Some sq -> Z.of_nat k = 8 * row sq + col sq.
Proof.
  unfold allSquares. cbn [flat_map map range8 app]. intros H.
  do 64 (destruct k as [| k]; [injection H as <-; reflexivity |]).
  discriminate H.
Qed.

(** The origin that [firstOrigin] returns comes no later, in row-major
    order, than any square from which the target can be reached. *)
Lemma firstOrigin_least (b : Board) (cp : Color) (toRow toCol : Z)
    (origin : Square) :
  firstOrigin b cp toRow toCol = Some origin ->
  canReach b cp toRow toCol origin = true
  /\ forall sq, In sq allSquares ->
                canReach b cp toRow toCol sq = true ->
                8 * row origin + col origin <= 8 * row sq + col sq.
Proof.
  intros Hfirst. split; [apply (find_some _ _ Hfirst) |].
  apply find_first in Hfirst as (k & Hk & Hbefore).
  apply lookup_allSquares in Hk.
  intros sq Hin Hreach. apply list_elem_of_In, list_elem_of_lookup in Hin.
  destruct Hin as [j Hj]. pose proof (lookup_allSquares j sq Hj) as Hj'.
  destruct (Nat.lt_ge_cases j k) as [Hlt | Hge]; [| lia].
  rewrite (Hbefore j sq Hlt Hj) in Hreach. discriminate Hreach.
Qed.

Lemma processVoiceCommand_bare (now : Z) (s : GameState) (command : string)
    (toRow toCol : Z) :
  wfBoard (board s) ->
  gameStarted s = true ->
  testBareSquare (trim (toLowerCase command)) = true ->
  parseSquareNotation (Str (trim (toLowerCase command)))
  = Some (mkSquare toRow toCol) ->
  processVoiceCommand now s command
  = match firstOrigin (board s) (currentPlayer s) toRow toCol with
    | Some origin => executeMove now s (row origin) (col origin) toRow toCol
    | None => Done s
    end.
Proof.
  intros Hwf Hstarted Hbare Hparse.
  unfold processVoiceCommand, extractSquares. rewrite Hstarted, Hbare.
  cbn [negb].
  rewrite (searchRows_spec (board s) (currentPlayer s) _ toRow toCol
             (wfBoard_rows _ Hwf) Hparse)
    by (repeat constructor; lia).
  cbn [bind fst snd]. fold allSquares.
  change (find (canReach (board s) (currentPlayer s) toRow toCol) allSquares)
    with (firstOrigin (board s) (currentPlayer s) toRow toCol).
  destruct (firstOrigin (board s) (currentPlayer s) toRow toCol)
    as [origin |] eqn:Hfirst; cbn [fmap option_fmap option_map];
    [| reflexivity].
  apply find_some in Hfirst as [Hin Hreach].
  apply allSquares_inGrid in Hin as [Hr Hc].
  apply canReach_true in Hreach as (p & _ & _ & Hvalid).
  unfold moveExtracted.
  rewrite (truthyString_squareName origin Hc), (testBareSquare_truthy _ Hbare).
  cbn [andb]. rewrite (parse_squareName origin Hr Hc), Hparse.
  destruct origin as [fromRow fromCol]. cbn [row col] in *.
  rewrite Hvalid. reflexivity.
Qed.

(** C7: a command that is exactly a square name is resolved by taking as
    origin the first square, in row-major order, that holds a piece of the
    colour to move and from which the move to that square is judged legal;
    the move from it is executed, and nothing moves when there is no such
    square. On the initial position, ["e4"] moves the pawn from e2 to e4
    and appends the one record [e2-e4]; processing the command again on
    the resulting state changes nothing. *)
Theorem bare_destination_first_origin :
  (forall (now : Z) (s : GameState) (command : string),
      wfBoard (board s) ->
      gameStarted s = true ->
      testBareSquare (trim (toLowerCase command)) = true ->
      exists toRow toCol,
        parseSquareNotation (Str (trim (toLowerCase command)))
        = Some (mkSquare toRow toCol)
        /\ inGrid toRow toCol = true
        /\ match firstOrigin (board s) (currentPlayer s) toRow toCol with
           | Some origin =>
               (canReach (board s) (currentPlayer s) toRow toCol origin
                = true
                /\ forall sq,
                     In sq allSquares ->
                     canReach (board s) (currentPlayer s) toRow toCol sq
                     = true ->
                     8 * row origin + col origin <= 8 * row sq + col sq)
               /\ exists s',
                    processVoiceCommand now s command = Done s'
                    /\ executeMove now s (row origin) (col origin)
                         toRow toCol = Done s'
                    /\ movedTo now s s' (row origin) (col origin)
                         toRow toCol
           | None => processVoiceCommand now s command = Done s
           end)
  /\ (forall (now now' : Z) (mode : GameMode),
        firstOrigin initialBoard white 4 4 = Some (mkSquare 6 4)
        /\ exists s',
             processVoiceCommand now (initialState mode) "e4" = Done s'
             /\ moveHistory s'
                = [ {| from := Str "e2"; to := Str "e4"; piece := "pawn";
                       notation := "e2-e4"; timestamp := now |} ]
             /\ movedTo now (initialState mode) s' 6 4 4 4
             /\ processVoiceCommand now' s' "e4" = Done s').
Proof.
  split.
  - intros now s command Hwf Hstarted Hbare.
    destruct (parse_bareSquare _ Hbare) as (toRow & toCol & Hto & Hparse).
    exists toRow, toCol. split; [exact Hparse |].
    split; [apply inGrid_true, Hto |].
    rewrite (processVoiceCommand_bare now s command toRow toCol)
      by assumption.
    destruct (firstOrigin (board s) (currentPlayer s) toRow toCol)
      as [origin |] eqn:Hfirst; [| reflexivity].
    split; [exact (firstOrigin_least _ _ _ _ _ Hfirst) |].
    apply find_some in Hfirst as [_ Hreach].
    apply canReach_true in Hreach as (p & Hp & _ & Hvalid).
    apply isValidMove_true_inv in Hvalid as (_ & _ & _ & HinGrid & Hne).
    destruct (executeMove_Done now s (row origin) (col origin) toRow toCol p)
      as (s' & Hexec & _ & Hmoved); try assumption.
    exists s'. done.
  - intros now now' mode. split; [reflexivity |].
    destruct (executeMove_Done now (initialState mode) 6 4 4 4
                (mkPiece "pawn" white 9817))
      as (s' & Hexec & _ & Hmoved);
      [exact wfBoard_initialBoard | reflexivity | reflexivity | left; lia |].
    exists s'. vm_compute in Hexec. injection Hexec as <-.
    split; [reflexivity |]. split; [reflexivity |].
    split; [exact Hmoved | reflexivity].
Qed.

Lemma bare_destination_first_origin_witness :
  exists s',
    processVoiceCommand 0 (initialState player) "E4 " = Done s'
    /\ executeMove 0 (initialState player) 6 4 4 4 = Done s'
    /\ movedTo 0 (initialState player) s' 6 4 4 4.
Proof.
  destruct (proj1 bare_destination_first_origin 0 (initialState player) "E4 ")
    as (toRow & toCol & Hparse & _ & H).
  - split; [reflexivity | repeat constructor].
  - reflexivity.
  - reflexivity.
  - vm_compute in Hparse. injection Hparse as <- <-. exact (proj2 H).
Defined.

Lemma processVoiceCommand_step (now : Z) (s : GameState) (command : string) :
  wfBoard (board s) ->
  exists s',
    processVoiceCommand now s command = Done s'
    /\ (s' = s
        \/ exists fromRow fromCol toRow toCol,
             inGrid fromRow fromCol = true
             /\ inGrid toRow toCol = true
             /\ isValidMove (board s) (currentPlayer s)
                  fromRow fromCol toRow toCol = Done true
             /\ executeMove now s fromRow fromCol toRow toCol = Done s'
             /\ wfState s'
             /\ movedTo now s s' fromRow fromCol toRow toCol).
Proof.
  intros Hwf.
  assert (Hexec : forall fromRow fromCol toRow toCol,
    isValidMove (board s) (currentPlayer s) fromRow fromCol toRow toCol
    = Done true ->
    exists s',
      executeMove now s fromRow fromCol toRow toCol = Done s'
      /\ (s' = s
          \/ exists fromRow fromCol toRow toCol,
               inGrid fromRow fromCol = true
               /\ inGrid toRow toCol = true
               /\ isValidMove (board s) (currentPlayer s)
                    fromRow fromCol toRow toCol = Done true
               /\ executeMove now s fromRow fromCol toRow toCol = Done s'
               /\ wfState s'
               /\ movedTo now s s' fromRow fromCol toRow toCol)).
  { intros fr fc tr tc Hvalid.
    destruct (isValidMove_true_inv _ _ _ _ _ _ Hvalid)
      as (p & Hp & _ & Hto & Hne).
    destruct (executeMove_Done now s fr fc tr tc p Hwf Hp Hto Hne)
      as (s' & Hs' & Hwf' & Hmoved).
    exists s'. split; [exact Hs' |]. right. exists fr, fc, tr, tc.
    split; [apply inGrid_true; eapply board_get_Some_inGrid; eauto |]. done. }
  destruct (gameStarted s) eqn:Hstarted.
  2:{ exists s. unfold processVoiceCommand. rewrite Hstarted. auto. }
  destruct (testBareSquare (trim (toLowerCase command))) eqn:Hbare.
  - destruct (parse_bareSquare _ Hbare) as (toRow & toCol & Hto & Hparse).
    rewrite (processVoiceCommand_bare now s command toRow toCol)
      by assumption.
    destruct (firstOrigin (board s) (currentPlayer s) toRow toCol)
      as [origin |] eqn:Hfirst; [| exists s; auto].
    apply find_some in Hfirst as [_ Hreach].
    apply canReach_true in Hreach as (p & _ & _ & Hvalid).
    apply Hexec, Hvalid.
  - unfold processVoiceCommand, extractSquares. rewrite Hstarted, Hbare.
    cbn [negb].
    destruct (matchSquarePair (trim (toLowerCase command))) as [[x y] |]
      eqn:Hmatch; cbn [bind fst snd]; [| exists s; auto].
    apply matchSquarePair_shape in Hmatch as [Hx Hy].
    destruct (moveExtracted_squares now s x y Hwf Hx Hy)
      as (fr & fc & tr & tc & _ & _ & _ & ok & Hok & ->).
    destruct ok; [apply Hexec, Hok | exists s; auto].
Qed.

(** C9: a command whose lower-cased, trimmed text has no file letter
    followed by a rank digit leaves the whole state as it is: no record,
    same board, same turn. *)
Theorem no_square_no_move (now : Z) (s : GameState) (command : string) :
  containsSquare (trim (toLowerCase command)) = false ->
  processVoiceCommand now s command = Done s.
Proof.
  intros H. unfold processVoiceCommand, extractSquares.
  destruct (gameStarted s); cbn [negb]; [| reflexivity].
  rewrite (containsSquare_bare _ H), (containsSquare_pair _ H).
  reflexivity.
Qed.

Lemma no_square_no_move_witness :
  processVoiceCommand 0 (initialState player) "hello there"
  = Done (initialState player).
Proof. apply (no_square_no_move 0 (initialState player) "hello there"). reflexivity. Defined.

Lemma extractSquares_onBoard (s : GameState) (text : string) :
  wfBoard (board s) ->
  exists fromSquare toSquare,
    extractSquares s text = Done (fromSquare, toSquare)
    /\ forall x, fromSquare = Some x \/ toSquare = Some x ->
                 exists r c, inGrid r c = true
                             /\ parseSquareNotation x = Some (mkSquare r c).
Proof.
  intros Hwf. unfold extractSquares.
  destruct (testBareSquare text) eqn:Hbare.
  - destruct (parse_bareSquare _ Hbare) as (toRow & toCol & Hto & Hparse).
    rewrite (searchRows_spec (board s) (currentPlayer s) _ toRow toCol
               (wfBoard_rows _ Hwf) Hparse)
      by (repeat constructor; lia).
    cbn [bind]. eexists _, _. split; [reflexivity |].
    intros x [Hx | Hx].
    + destruct (find _ _) as [origin |] eqn:Hfind; [| discriminate].
      cbn in Hx. injection Hx as <-.
      apply find_some in Hfind as [Hin _].
      apply allSquares_inGrid in Hin as [Hr Hc].
      exists (row origin), (col origin).
      split; [apply inGrid_true; done |].
      rewrite (parse_squareName origin Hr Hc). destruct origin; reflexivity.
    + injection Hx as <-. exists toRow, toCol.
      split; [apply inGrid_true, Hto | exact Hparse].
  - destruct (matchSquarePair text) as [[a c] |] eqn:Hmatch.
    + apply matchSquarePair_shape in Hmatch as [Ha Hc].
      eexists _, _. split; [reflexivity |].
      intros x [Hx | Hx]; injection Hx as <-;
        [destruct (parse_bareSquare _ Ha) as (r & k & Hin & Hp)
        | destruct (parse_bareSquare _ Hc) as (r & k & Hin & Hp)];
        exists r, k; (split; [apply inGrid_true, Hin | exact Hp]).
    + eexists _, _. split; [reflexivity |]. intros x [Hx | Hx]; discriminate.
Qed.

(** C8: on a board of the component no voice command makes the handler
    throw, and a move is executed only between two squares of the board.
    Square extraction hands on only names that parse to squares of the
    board; and were a destination to parse to [null] or to a pair off the
    board, or an origin to [null], the move step would return the state
    unchanged, the bounds check of [isValidMove] answering before any cell
    is read. *)
Theorem voice_command_safe (now : Z) (s : GameState) (command : string) :
  wfBoard (board s) ->
  (exists s',
      processVoiceCommand now s command = Done s'
      /\ (s' = s
          \/ exists fromRow fromCol toRow toCol,
               inGrid fromRow fromCol = true
               /\ inGrid toRow toCol = true
               /\ executeMove now s fromRow fromCol toRow toCol = Done s'))
  /\ (exists fromSquare toSquare,
        extractSquares s (trim (toLowerCase command))
        = Done (fromSquare, toSquare)
        /\ forall x, fromSquare = Some x \/ toSquare = Some x ->
                     exists r c, inGrid r c = true
                                 /\ parseSquareNotation x
                                    = Some (mkSquare r c))
  /\ (forall x y,
        parseSquareNotation x = None
        \/ parseSquareNotation y = None
        \/ (exists sq, parseSquareNotation y = Some sq
                       /\ inGrid (row sq) (col sq) = false) ->
        moveExtracted now s (Some x) (Some y) = Done s).
Proof.
  intros Hwf. split; [| split].
  - destruct (processVoiceCommand_step now s command Hwf)
      as (s' & Hs' & [-> | (fr & fc & tr & tc & Hf & Ht & _ & He & _)]).
    + exists s. auto.
    + exists s'. split; [exact Hs' |]. right. exists fr, fc, tr, tc. done.
  - apply extractSquares_onBoard, Hwf.
  - intros x y Hbad. unfold moveExtracted.
    destruct (truthyString (Some x) && truthyString (Some y));
      [| reflexivity].
    destruct (parseSquareNotation x) as [[fr fc] |] eqn:Hx;
      destruct (parseSquareNotation y) as [[tr tc] |] eqn:Hy;
      try reflexivity.
    destruct Hbad as [H | [H | (sq & H & Hoff)]]; try discriminate.
    injection H as <-. cbn [row col] in Hoff.
    unfold isValidMove, isValidMove_with. rewrite bounds_check, Hoff.
    reflexivity.
Qed.

Lemma voice_command_safe_witness :
  exists s',
    processVoiceCommand 0 (initialState player) "knight b1 to c3" = Done s'
    /\ (s' = initialState player
        \/ exists fromRow fromCol toRow toCol,
             inGrid fromRow fromCol = true
             /\ inGrid toRow toCol = true
             /\ executeMove 0 (initialState player)
                  fromRow fromCol toRow toCol = Done s').
Proof.
  apply (voice_command_safe 0 (initialState player) "knight b1 to c3").
  split; [reflexivity | repeat constructor].
Defined.

(** The state-unchanged clause of the move step does not extend to an
    origin name with a character outside the alphabets: its pair
    [(-1, -1)] would make [isValidMove] read a row the board does not
    have. No command produces such a name ([extractSquares_onBoard]). *)
Example moveExtracted_offboard_origin :
  moveExtracted 0 (initialState player) (Some (Str "z9")) (Some (Str "e4"))
  = TypeError.
Proof. reflexivity. Qed.

(** ** The click handler *)

Lemma forM_Done {S : Type} (l : list Z) (body : Z -> S -> run S) :
  (forall x acc, x ∈ l -> exists acc', body x acc = Done acc') ->
  forall acc, exists r, forM l body acc = Done r.
Proof.
  induction l as [| x l IH]; intros Hbody acc; cbn [forM]; [eauto |].
  destruct (Hbody x acc) as [acc' ->]; [left |]. cbn [bind].
  apply IH. intros y a Hy. apply Hbody. right. exact Hy.
Qed.

Lemma calculateValidMoves_Done (b : Board) (cp : Color) (r c : Z) :
  length b = 8%nat -> 0 <= r <= 7 ->
  exists moves, calculateValidMoves b cp r c = Done moves.
Proof.
  intros Hlen Hr. unfold calculateValidMoves.
  apply forM_Done. intros toRow acc _.
  apply forM_Done. intros toCol acc' _.
  destruct (isValidMove_Done b cp r c toRow toCol Hlen Hr) as [ok ->].
  cbn [bind]. eauto.
Qed.

Ltac same_game := unfold noMove; cbn; done.

Lemma handleSquareClick_step (now : Z) (s : GameState) (r c : Z) :
  wfState s ->
  inGrid r c = true ->
  exists s',
    handleSquareClick now s r c = Done s'
    /\ wfState s'
    /\ (noMove s s'
        \/ exists fromRow fromCol,
             selectedSquare s = Some (mkSquare fromRow fromCol)
             /\ inGrid fromRow fromCol = true
             /\ isValidMove (board s) (currentPlayer s) fromRow fromCol r c
                = Done true
             /\ executeMove now s fromRow fromCol r c = Done s'
             /\ movedTo now s s' fromRow fromCol r c).
Proof.
  intros Hwfs Hclick. pose proof Hwfs as [Hwf Hsel].
  pose proof (wfBoard_rows _ Hwf) as Hlen.
  pose proof Hclick as Hclick'. apply inGrid_true in Hclick' as [Hr Hc].
  assert (Hselect : exists s',
    (let* piece := board_get (board s) r c in
     if ownPiece s piece then
       let* moves := calculateValidMoves (board s) (currentPlayer s) r c in
       Done (setSelection (Some (mkSquare r c)) moves s)
     else Done (setSelection None [] s)) = Done s'
    /\ wfState s' /\ noMove s s').
  { destruct (board_get_Done (board s) r c Hlen Hr) as [cell ->].
    cbn [bind]. destruct (ownPiece s cell).
    - destruct (calculateValidMoves_Done (board s) (currentPlayer s) r c
                  Hlen Hr) as [moves ->].
      cbn [bind]. eexists. split; [reflexivity |].
      split; [| same_game].
      split; [exact Hwf |]. cbn. intros sq H. injection H as <-. exact Hclick.
    - eexists. split; [reflexivity |]. split; [| same_game].
      split; [exact Hwf | intros sq H; discriminate H]. }
  unfold handleSquareClick.
  destruct (gameStarted s); cbn [negb].
  2:{ exists s. split; [reflexivity |].
      split; [exact Hwfs | left; same_game]. }
  destruct (selectedSquare s) as [[fromRow fromCol] |] eqn:Hselected.
  - pose proof (Hsel _ eq_refl) as Hfrom. cbn [row col] in Hfrom.
    destruct ((fromRow =? r) && (fromCol =? c)).
    { eexists. split; [reflexivity |].
      split; [| left; same_game].
      split; [exact Hwf | intros sq H; discriminate H]. }
    pose proof Hfrom as Hfrom'. apply inGrid_true in Hfrom' as [Hfr Hfc].
    destruct (isValidMove_Done (board s) (currentPlayer s) fromRow fromCol r c
                Hlen Hfr) as [ok Hok].
    rewrite Hok. cbn [bind]. destruct ok.
    + destruct (isValidMove_true_inv _ _ _ _ _ _ Hok)
        as (p & Hp & _ & _ & Hne).
      destruct (executeMove_Done now s fromRow fromCol r c p Hwf Hp Hclick Hne)
        as (s' & Hs' & Hwf' & Hmoved).
      exists s'. split; [exact Hs' |]. split; [exact Hwf' |].
      right. exists fromRow, fromCol. done.
    + destruct Hselect as (s' & Hs' & Hwf' & Hno).
      exists s'. split; [exact Hs' |]. split; [exact Hwf' |]. left. exact Hno.
  - destruct (board_get_Done (board s) r c Hlen Hr) as [cell ->].
    cbn [bind]. destruct (ownPiece s cell).
    + destruct (calculateValidMoves_Done (board s) (currentPlayer s) r c
                  Hlen Hr) as [moves ->].
      cbn [bind]. eexists. split; [reflexivity |].
      split; [| left; same_game].
      split; [exact Hwf |]. cbn. intros sq H. injection H as <-. exact Hclick.
    + exists s. split; [reflexivity |].
      split; [exact Hwfs | left; same_game].
Qed.

Lemma wfState_initialState (mode : GameMode) : wfState (initialState mode).
Proof.
  split; [exact wfBoard_initialBoard | intros sq H; discriminate H].
Qed.

(** * Further properties of the engine *)

(** ** [isValidMove] on an occupied origin *)

Lemma isValidMove_on_piece (b : Board) (cp : Color)
    (fromRow fromCol toRow toCol : Z) (p : ChessPiece) :
  wfBoard b ->
  board_get b fromRow fromCol = Done (Some p) ->
  exists r : bool,
    isValidMove b cp fromRow fromCol toRow toCol = Done r
    /\ (r = true <->
        color p = cp
        /\ inGrid toRow toCol = true
        /\ (fromRow <> toRow \/ fromCol <> toCol)
        /\ targetFree b p toRow toCol
        /\ pieceRule b fromRow fromCol toRow toCol p = Done true).
Proof.
  intros Hwf Hp. pose proof (wfBoard_rows b Hwf) as Hlen.
  destruct (board_get_Some_inGrid b _ _ p Hwf Hp) as [Hfr Hfc].
  unfold isValidMove, isValidMove_with, targetFree. rewrite bounds_check.
  destruct (inGrid toRow toCol) eqn:Hto; cbn [negb].
  2:{ exists false. split; [reflexivity |].
      split; [discriminate | intros (_ & H & _); discriminate H]. }
  apply inGrid_true in Hto.
  destruct ((fromRow =? toRow) && (fromCol =? toCol)) eqn:Hsame.
  { exists false. split; [reflexivity |]. split; [discriminate |].
    apply same_square_check in Hsame. intros (_ & _ & H & _). lia. }
  assert (fromRow <> toRow \/ fromCol <> toCol) as Hne.
  { apply andb_false_iff in Hsame as [H | H]; apply Z.eqb_neq in H; auto. }
  rewrite Hp. cbn [bind].
  destruct (Color_eqb (color p) cp) eqn:Hcol; cbn [negb].
  2:{ exists false. split; [reflexivity |]. split; [discriminate |].
      intros (H & _). apply Color_eqb_eq in H. congruence. }
  apply Color_eqb_eq in Hcol.
  destruct (board_get_Done b toRow toCol Hlen) as [target Htarget]; [lia |].
  rewrite Htarget. cbn [bind].
  destruct target as [t |].
  - destruct (Color_eqb (color t) (color p)) eqn:Ht.
    + exists false. split; [reflexivity |]. split; [discriminate |].
      intros (_ & _ & _ & H & _). apply Color_eqb_eq in Ht.
      exfalso. exact (H t eq_refl Ht).
    + destruct (pieceRule_Done b fromRow fromCol toRow toCol Hlen Hfr
                  ltac:(lia) Hne p) as [r Hr].
      exists r. split; [exact Hr |]. rewrite Hr. split.
      * intros ->. repeat split; try done.
        intros t' Ht' Hc. injection Ht' as <-.
        apply Color_eqb_eq in Hc. congruence.
      * intros (_ & _ & _ & _ & H). congruence.
  - destruct (pieceRule_Done b fromRow fromCol toRow toCol Hlen Hfr
                ltac:(lia) Hne p) as [r Hr].
    exists r. split; [exact Hr |]. rewrite Hr. split.
    + intros ->. repeat split; done.
    + intros (_ & _ & _ & _ & H). congruence.
Qed.

(** ** The movement rule of each piece *)

Lemma pieceRule_knight (b : Board) (fr fc tr tc : Z) (p : ChessPiece) :
  type p = "knight" ->
  pieceRule b fr fc tr tc p = isValidKnightMove fr fc tr tc.
Proof. intros H. unfold pieceRule. rewrite H. reflexivity. Qed.

Lemma pieceRule_king (b : Board) (fr fc tr tc : Z) (p : ChessPiece) :
  type p = "king" ->
  pieceRule b fr fc tr tc p = isValidKingMove fr fc tr tc.
Proof. intros H. unfold pieceRule. rewrite H. reflexivity. Qed.

Lemma pieceRule_pawn (b : Board) (fr fc tr tc : Z) (p : ChessPiece) :
  type p = "pawn" ->
  pieceRule b fr fc tr tc p = isValidPawnMove b fr fc tr tc p.
Proof. intros H. unfold pieceRule. rewrite H. reflexivity. Qed.

Lemma targetFree_cases (b : Board) (p : ChessPiece) (toRow toCol : Z) :
  board_get b toRow toCol = Done None
  \/ (exists t, board_get b toRow toCol = Done (Some t)
                /\ color t <> color p) ->
  targetFree b p toRow toCol.
Proof.
  intros [H | (t & H & Ht)] t' Ht'; rewrite H in Ht'; [discriminate |].
  injection Ht' as <-. exact Ht.
Qed.

(** X1: a knight on the board may move, on its colour's turn, exactly to
    the squares of the board two rows and one column away, or one row and
    two columns away, that do not hold a piece of its own colour; what
    stands on the other squares plays no part. *)
Theorem knight_move_rule (b : Board) (cp : Color)
    (fromRow fromCol toRow toCol : Z) (p : ChessPiece) :
  wfBoard b ->
  board_get b fromRow fromCol = Done (Some p) ->
  type p = "knight" ->
  exists r : bool,
    isValidMove b cp fromRow fromCol toRow toCol = Done r
    /\ (r = true <->
        color p = cp
        /\ inGrid toRow toCol = true
        /\ targetFree b p toRow toCol
        /\ ((Z.abs (fromRow - toRow) = 2 /\ Z.abs (fromCol - toCol) = 1)
            \/ (Z.abs (fromRow - toRow) = 1 /\ Z.abs (fromCol - toCol) = 2))).
Proof.
  intros Hwf Hp Htype.
  destruct (isValidMove_on_piece b cp fromRow fromCol toRow toCol p Hwf Hp)
    as (r & Hr & Hiff).
  exists r. split; [exact Hr |]. rewrite Hiff, (pieceRule_knight _ _ _ _ _ _ Htype).
  unfold isValidKnightMove.
  assert (Hshape :
    ((Z.abs (fromRow - toRow) =? 2) && (Z.abs (fromCol - toCol) =? 1)
     || (Z.abs (fromRow - toRow) =? 1) && (Z.abs (fromCol - toCol) =? 2)) = true
    <-> (Z.abs (fromRow - toRow) = 2 /\ Z.abs (fromCol - toCol) = 1)
        \/ (Z.abs (fromRow - toRow) = 1 /\ Z.abs (fromCol - toCol) = 2)).
  { rewrite orb_true_iff, !andb_true_iff, !Z.eqb_eq. reflexivity. }
  split.
  - intros (Hc & Hto & _ & Hfree & Hrule). injection Hrule as Hrule.
    apply Hshape in Hrule. done.
  - intros (Hc & Hto & Hfree & Hrule). repeat split; try done; [lia |].
    f_equal. apply Hshape, Hrule.
Qed.

Lemma knight_move_rule_witness :
  exists r : bool,
    isValidMove initialBoard white 7 1 5 2 = Done r
    /\ (r = true <->
        white = white
        /\ inGrid 5 2 = true
        /\ targetFree initialBoard (mkPiece "knight" white 9816) 5 2
        /\ ((Z.abs (7 - 5) = 2 /\ Z.abs (1 - 2) = 1)
            \/ (Z.abs (7 - 5) = 1 /\ Z.abs (1 - 2) = 2))).
Proof.
  apply (knight_move_rule initialBoard white 7 1 5 2
           (mkPiece "knight" white 9816)).
  - split; [reflexivity | repeat constructor].
  - reflexivity.
  - reflexivity.
Defined.

(** X2: a king on the board may move, on its colour's turn, exactly to
    the squares of the board at distance one (any of the eight
    neighbours) that do not hold a piece of its own colour. *)
Theorem king_move_rule (b : Board) (cp : Color)
    (fromRow fromCol toRow toCol : Z) (p : ChessPiece) :
  wfBoard b ->
  board_get b fromRow fromCol = Done (Some p) ->
  type p = "king" ->
  exists r : bool,
    isValidMove b cp fromRow fromCol toRow toCol = Done r
    /\ (r = true <->
        color p = cp
        /\ inGrid toRow toCol = true
        /\ targetFree b p toRow toCol
        /\ distance fromRow fromCol toRow toCol = 1).
Proof.
  intros Hwf Hp Htype.
  destruct (isValidMove_on_piece b cp fromRow fromCol toRow toCol p Hwf Hp)
    as (r & Hr & Hiff).
  exists r. split; [exact Hr |]. rewrite Hiff, (pieceRule_king _ _ _ _ _ _ Htype).
  unfold isValidKingMove, distance.
  assert (Hshape :
    ((Z.abs (fromRow - toRow) <=? 1) && (Z.abs (fromCol - toCol) <=? 1)
     && ((Z.abs (fromRow - toRow) >? 0) || (Z.abs (fromCol - toCol) >? 0)))
    = true
    <-> Z.max (Z.abs (toRow - fromRow)) (Z.abs (toCol - fromCol)) = 1).
  { rewrite !andb_true_iff, orb_true_iff, !Z.leb_le, !Z.gtb_ltb, !Z.ltb_lt.
    lia. }
  split.
  - intros (Hc & Hto & _ & Hfree & Hrule). injection Hrule as Hrule.
    apply Hshape in Hrule. done.
  - intros (Hc & Hto & Hfree & Hrule). repeat split; try done; [lia |].
    f_equal. apply Hshape, Hrule.
Qed.

Lemma king_move_rule_witness :
  exists r : bool,
    isValidMove initialBoard white 7 4 6 4 = Done r
    /\ (r = true <->
        white = white
        /\ inGrid 6 4 = true
        /\ targetFree initialBoard (mkPiece "king" white 9812) 6 4
        /\ distance 7 4 6 4 = 1).
Proof.
  apply (king_move_rule initialBoard white 7 4 6 4 (mkPiece "king" white 9812)).
  - split; [reflexivity | repeat constructor].
  - reflexivity.
  - reflexivity.
Defined.

Lemma pathIsClear_true (b : Board) (fromRow fromCol toRow toCol : Z) :
  pathIsClear b fromRow fromCol toRow toCol = true
  <-> forall sq, sq ∈ squaresBetween fromRow fromCol toRow toCol ->
                 board_get b (row sq) (col sq) = Done None.
Proof.
  unfold pathIsClear. rewrite forallb_forall. split.
  - intros H sq Hsq. apply emptyAt_true, H, list_elem_of_In, Hsq.
  - intros H sq Hsq. apply emptyAt_true, H, list_elem_of_In, Hsq.
Qed.

Lemma pieceRule_sliding (b : Board) (fromRow fromCol toRow toCol : Z)
    (p : ChessPiece) :
  length b = 8%nat ->
  0 <= fromRow <= 7 -> 0 <= toRow <= 7 ->
  fromRow <> toRow \/ fromCol <> toCol ->
  slidingPiece p ->
  pieceRule b fromRow fromCol toRow toCol p = Done true
  <-> lineOf (type p) fromRow fromCol toRow toCol
      /\ pathIsClear b fromRow fromCol toRow toCol = true.
Proof.
  intros Hlen Hfr Htr Hne Hslide. unfold pieceRule, lineOf, aligned.
  destruct Hslide as [Ht | [Ht | Ht]]; rewrite Ht;
    cbn [String.eqb Ascii.eqb Bool.eqb];
    [ rewrite isValidRookMove_spec by assumption
    | rewrite isValidBishopMove_spec by assumption
    | rewrite isValidQueenMove_spec by assumption ];
    (split;
     [ intros H; injection H as H; apply andb_true_iff in H as [Hal Hclear];
       split; [| exact Hclear]
     | intros [Hal Hclear]; f_equal; apply andb_true_iff;
       split; [| exact Hclear] ]).
  - left. split; [reflexivity |].
    apply orb_true_iff in Hal as [H | H]; apply Z.eqb_eq in H; auto.
  - destruct Hal as [[_ H] | [[H _] | [H _]]]; try discriminate H.
    rewrite orb_true_iff, !Z.eqb_eq. exact H.
  - right. left. split; [reflexivity |]. apply Z.eqb_eq, Hal.
  - destruct Hal as [[H _] | [[_ H] | [H _]]]; try discriminate H.
    apply Z.eqb_eq, H.
  - right. right. split; [reflexivity |].
    rewrite !orb_true_iff, !Z.eqb_eq in Hal. tauto.
  - destruct Hal as [[H _] | [[H _] | [_ H]]]; try discriminate H.
    rewrite !orb_true_iff, !Z.eqb_eq. tauto.
Qed.

(** X3: a rook, bishop or queen on the board may move, on its colour's
    turn, exactly to the squares of the board, other than its own, that
    lie on a line of the piece (row or column for a rook, diagonal for a
    bishop, any of these for a queen), do not hold a piece of its own
    colour, and are reached over empty squares only. *)
Theorem sliding_move_rule (b : Board) (cp : Color)
    (fromRow fromCol toRow toCol : Z) (p : ChessPiece) :
  wfBoard b ->
  board_get b fromRow fromCol = Done (Some p) ->
  slidingPiece p ->
  exists r : bool,
    isValidMove b cp fromRow fromCol toRow toCol = Done r
    /\ (r = true <->
        color p = cp
        /\ inGrid toRow toCol = true
        /\ (fromRow <> toRow \/ fromCol <> toCol)
        /\ targetFree b p toRow toCol
        /\ lineOf (type p) fromRow fromCol toRow toCol
        /\ forall sq, sq ∈ squaresBetween fromRow fromCol toRow toCol ->
                      board_get b (row sq) (col sq) = Done None).
Proof.
  intros Hwf Hp Hslide. pose proof (wfBoard_rows b Hwf) as Hlen.
  destruct (board_get_Some_inGrid b _ _ p Hwf Hp) as [Hfr _].
  destruct (isValidMove_on_piece b cp fromRow fromCol toRow toCol p Hwf Hp)
    as (r & Hr & Hiff).
  exists r. split; [exact Hr |]. rewrite Hiff. split.
  - intros (Hc & Hto & Hne & Hfree & Hrule).
    pose proof Hto as Hto'. apply inGrid_true in Hto' as [Htr _].
    apply (pieceRule_sliding b _ _ _ _ p Hlen Hfr Htr Hne Hslide) in Hrule
      as [Hline Hclear].
    pose proof (proj1 (pathIsClear_true _ _ _ _ _) Hclear) as Hall. done.
  - intros (Hc & Hto & Hne & Hfree & Hline & Hclear).
    pose proof Hto as Hto'. apply inGrid_true in Hto' as [Htr _].
    repeat split; try done.
    apply (pieceRule_sliding b _ _ _ _ p Hlen Hfr Htr Hne Hslide).
    split; [exact Hline | apply pathIsClear_true, Hclear].
Qed.

Lemma sliding_move_rule_witness :
  exists r : bool,
    isValidMove loneRookBoard white 7 0 7 5 = Done r
    /\ (r = true <->
        white = white
        /\ inGrid 7 5 = true
        /\ (7 <> 7 \/ 0 <> 5)
        /\ targetFree loneRookBoard (mkPiece "rook" white 9814) 7 5
        /\ lineOf "rook" 7 0 7 5
        /\ forall sq, sq ∈ squaresBetween 7 0 7 5 ->
                      board_get loneRookBoard (row sq) (col sq) = Done None).
Proof.
  apply (sliding_move_rule loneRookBoard white 7 0 7 5
           (mkPiece "rook" white 9814)).
  - split; [reflexivity | repeat constructor].
  - reflexivity.
  - left. reflexivity.
Defined.

Lemma isValidPawnMove_spec (b : Board) (fromRow fromCol toRow toCol : Z)
    (p : ChessPiece) :
  length b = 8%nat -> 0 <= toRow <= 7 ->
  isValidPawnMove b fromRow fromCol toRow toCol p = Done true
  <-> (toCol = fromCol /\ toRow = fromRow + direction (color p)
       /\ board_get b toRow toCol = Done None)
      \/ (toCol = fromCol /\ toRow = fromRow + 2 * direction (color p)
          /\ fromRow = startRow (color p)
          /\ board_get b (fromRow + direction (color p)) fromCol = Done None
          /\ board_get b toRow toCol = Done None)
      \/ (Z.abs (fromCol - toCol) = 1
          /\ toRow = fromRow + direction (color p)
          /\ exists t, board_get b toRow toCol = Done (Some t)
                       /\ color t <> color p).
Proof.
  intros Hlen Htr.
  destruct (board_get_Done b toRow toCol Hlen Htr) as [target Htarget].
  assert (Hdir : direction (color p) = 1 \/ direction (color p) = -1)
    by (destruct (color p); cbn; auto).
  unfold isValidPawnMove. rewrite Htarget. cbn [bind].
  destruct (Z.eqb_spec fromCol toCol) as [Hc | Hc].
  - destruct (Z.eqb_spec toRow (fromRow + direction (color p))) as [H1 | H1];
      cbn [andb].
    + destruct target as [t |]; cbn [truthy negb].
      * replace (toRow =? fromRow + 2 * direction (color p)) with false
          by (symmetry; apply Z.eqb_neq; lia).
        rewrite andb_false_r. cbn [andb]. split; [discriminate |].
        intros [(_ & _ & H) | [(_ & H & _) | (H & _)]];
          [discriminate H | lia | lia].
      * split; [intros _; left; done | reflexivity].
    + destruct (Z.eqb_spec fromRow (startRow (color p))) as [Hs | Hs];
        cbn [andb].
      2:{ split; [discriminate |].
          intros [(_ & H & _) | [(_ & _ & H & _) | (H & _)]]; (done || lia). }
      destruct (Z.eqb_spec toRow (fromRow + 2 * direction (color p)))
        as [H2 | H2]; cbn [andb].
      2:{ split; [discriminate |].
          intros [(_ & H & _) | [(_ & H & _) | (H & _)]]; (done || lia). }
      destruct target as [t |]; cbn [truthy negb].
      { split; [discriminate |].
        intros [(_ & H & _) | [(_ & _ & _ & _ & H) | (H & _)]];
          [done | discriminate H | lia]. }
      destruct (board_get_Done b (fromRow + direction (color p)) fromCol Hlen)
        as [middle Hmiddle].
      { rewrite Hs. destruct (color p); cbn; lia. }
      rewrite Hmiddle. cbn [bind]. destruct middle as [m |]; cbn [truthy negb].
      * split; [discriminate |].
        intros [(_ & H & _) | [(_ & _ & _ & H & _) | (H & _)]];
          [done | discriminate H | lia].
      * split; [intros _; right; left; done | reflexivity].
  - destruct (Z.eqb_spec (Z.abs (fromCol - toCol)) 1) as [Ha | Ha];
      cbn [andb].
    2:{ split; [discriminate |].
        intros [(H & _) | [(H & _) | (H & _)]]; (congruence || lia). }
    destruct (Z.eqb_spec toRow (fromRow + direction (color p))) as [H1 | H1];
      cbn [andb].
    2:{ split; [discriminate |].
        intros [(H & _) | [(H & _) | (_ & H & _)]]; (congruence || lia). }
    destruct target as [t |].
    + destruct (Color_eqb (color t) (color p)) eqn:Ht; cbn [negb].
      * apply Color_eqb_eq in Ht. split; [discriminate |].
        intros [(H & _) | [(H & _) | (_ & _ & t' & H & Hne)]];
          [congruence | congruence |].
        injection H as <-. done.
      * split; [| reflexivity]. intros _. right. right.
        repeat split; try done. exists t. split; [reflexivity |].
        intros H. apply Color_eqb_eq in H. congruence.
    + split; [discriminate |].
      intros [(H & _) | [(H & _) | (_ & _ & t' & H & _)]];
        [congruence | congruence | discriminate H].
Qed.

Lemma pawn_move_model (b : Board) (cp : Color)
    (fromRow fromCol toRow toCol : Z) (p : ChessPiece) :
  wfBoard b ->
  board_get b fromRow fromCol = Done (Some p) ->
  type p = "pawn" ->
  exists r : bool,
    isValidMove b cp fromRow fromCol toRow toCol = Done r
    /\ (r = true <->
        color p = cp
        /\ inGrid toRow toCol = true
        /\ ((toCol = fromCol /\ toRow = fromRow + direction (color p)
             /\ board_get b toRow toCol = Done None)
            \/ (toCol = fromCol /\ toRow = fromRow + 2 * direction (color p)
                /\ fromRow = startRow (color p)
                /\ board_get b (fromRow + direction (color p)) fromCol
                   = Done None
                /\ board_get b toRow toCol = Done None)
            \/ (Z.abs (fromCol - toCol) = 1
                /\ toRow = fromRow + direction (color p)
                /\ exists t, board_get b toRow toCol = Done (Some t)
                             /\ color t <> color p))).
Proof.
  intros Hwf Hp Htype. pose proof (wfBoard_rows b Hwf) as Hlen.
  destruct (isValidMove_on_piece b cp fromRow fromCol toRow toCol p Hwf Hp)
    as (r & Hr & Hiff).
  exists r. split; [exact Hr |].
  rewrite Hiff, (pieceRule_pawn _ _ _ _ _ _ Htype).
  assert (Hdir : direction (color p) = 1 \/ direction (color p) = -1)
    by (destruct (color p); cbn; auto).
  split.
  - intros (Hc & Hto & _ & _ & Hrule).
    pose proof Hto as Hto'. apply inGrid_true in Hto' as [Htr _].
    apply (isValidPawnMove_spec b _ _ _ _ p Hlen Htr) in Hrule. done.
  - intros (Hc & Hto & Hcases).
    pose proof Hto as Hto'. apply inGrid_true in Hto' as [Htr _].
    split; [exact Hc |]. split; [exact Hto |].
    split; [destruct Hcases as [H | [H | H]]; lia |].
    split; [| apply (isValidPawnMove_spec b _ _ _ _ p Hlen Htr), Hcases].
    apply targetFree_cases.
    destruct Hcases as [(_ & _ & H) | [(_ & _ & _ & _ & H) | (_ & _ & H)]];
      auto.
Qed.

(** X4: a pawn on the board may move, on its colour's turn, exactly in
    these three ways, where one row ahead is one row less for a white pawn
    and one row more for a black pawn, and the starting row is row 6 for
    white and row 1 for black: one step ahead in its column onto an empty
    square; two steps ahead in its column from its starting row, over an
    empty square onto an empty square; one step ahead into a neighbouring
    column onto a piece of the other colour. It never moves backwards,
    sideways, or diagonally onto an empty square. *)
Theorem pawn_move_rule (b : Board) (cp : Color)
    (fromRow fromCol toRow toCol : Z) (p : ChessPiece) :
  wfBoard b ->
  board_get b fromRow fromCol = Done (Some p) ->
  type p = "pawn" ->
  exists r : bool,
    isValidMove b cp fromRow fromCol toRow toCol = Done r
    /\ (r = true <->
        color p = cp
        /\ inGrid toRow toCol = true
        /\ exists ahead start : Z,
             (color p = white /\ ahead = -1 /\ start = 6
              \/ color p = black /\ ahead = 1 /\ start = 1)
             /\ ((toCol = fromCol /\ toRow = fromRow + ahead
                  /\ board_get b toRow toCol = Done None)
                 \/ (toCol = fromCol /\ toRow = fromRow + 2 * ahead
                     /\ fromRow = start
                     /\ board_get b (fromRow + ahead) fromCol = Done None
                     /\ board_get b toRow toCol = Done None)
                 \/ (Z.abs (fromCol - toCol) = 1
                     /\ toRow = fromRow + ahead
                     /\ exists t, board_get b toRow toCol = Done (Some t)
                                  /\ color t <> color p))).
Proof.
  intros Hwf Hp Htype.
  destruct (pawn_move_model b cp fromRow fromCol toRow toCol p Hwf Hp Htype)
    as (r & Hr & Hiff).
  exists r. split; [exact Hr |]. rewrite Hiff. clear Hiff Hr.
  split.
  - intros (Hc & Hto & Hcases). split; [exact Hc |]. split; [exact Hto |].
    exists (direction (color p)), (startRow (color p)).
    split; [| exact Hcases].
    destruct (color p); cbn; [left | right]; done.
  - intros (Hc & Hto & ahead & start & Hcol & Hcases).
    split; [exact Hc |]. split; [exact Hto |].
    assert (Hmodel : direction (color p) = ahead
                     /\ startRow (color p) = start).
    { destruct Hcol as [(-> & -> & ->) | (-> & -> & ->)]; done. }
    destruct Hmodel as [-> ->]. exact Hcases.
Qed.

Lemma pawn_move_rule_witness :
  isValidMove initialBoard white 6 3 5 3 = Done true.
Proof.
  destruct (pawn_move_rule initialBoard white 6 3 5 3
              (mkPiece "pawn" white 9817)) as (r & Hr & Hiff).
  - split; [reflexivity | repeat constructor].
  - reflexivity.
  - reflexivity.
  - assert (H : r = true).
    { apply Hiff. split; [reflexivity |]. split; [reflexivity |].
      exists (-1), 6. split; [left; done |]. left. done. }
    rewrite H in Hr. exact Hr.
Defined.

(** ** When [isValidMove] throws *)

(** X5: on a board of the component [isValidMove] throws exactly when the
    destination is a square of the board other than the origin and the
    origin row is not a row of the board; in every other case it returns,
    and it answers [false] for a destination off the board and for a
    destination equal to the origin without reading any cell. *)
Theorem isValidMove_throws (b : Board) (cp : Color)
    (fromRow fromCol toRow toCol : Z) :
  wfBoard b ->
  (isValidMove b cp fromRow fromCol toRow toCol = TypeError
   <-> inGrid toRow toCol = true
       /\ (fromRow <> toRow \/ fromCol <> toCol)
       /\ ~ 0 <= fromRow <= 7)
  /\ (isValidMove b cp fromRow fromCol toRow toCol = TypeError
      \/ exists r, isValidMove b cp fromRow fromCol toRow toCol = Done r)
  /\ (inGrid toRow toCol = false \/ (fromRow = toRow /\ fromCol = toCol) ->
      forall b' : Board,
        isValidMove b' cp fromRow fromCol toRow toCol = Done false).
Proof.
  intros Hwf. pose proof (wfBoard_rows b Hwf) as Hlen.
  assert (Hthrow : inGrid toRow toCol = true ->
                   fromRow <> toRow \/ fromCol <> toCol ->
                   ~ 0 <= fromRow <= 7 ->
                   isValidMove b cp fromRow fromCol toRow toCol = TypeError).
  { intros Hto Hne Hoff. unfold isValidMove, isValidMove_with.
    rewrite bounds_check, Hto. cbn [negb].
    replace ((fromRow =? toRow) && (fromCol =? toCol)) with false.
    - rewrite board_get_off_rows by lia. reflexivity.
    - symmetry. apply andb_false_iff.
      destruct Hne; [left | right]; apply Z.eqb_neq; assumption. }
  assert (Hearly : inGrid toRow toCol = false
                   \/ (fromRow = toRow /\ fromCol = toCol) ->
                   forall b' : Board,
                     isValidMove b' cp fromRow fromCol toRow toCol
                     = Done false).
  { intros Hcase b'. unfold isValidMove, isValidMove_with.
    rewrite bounds_check.
    destruct (inGrid toRow toCol); cbn [negb]; [| reflexivity].
    destruct Hcase as [H | H]; [discriminate H |].
    apply same_square_check in H. rewrite H. reflexivity. }
  split; [| split; [| exact Hearly]].
  - split; [| intros (H1 & H2 & H3); auto].
    intros Hthrown.
    destruct (inGrid toRow toCol) eqn:Hto.
    2:{ rewrite (Hearly (or_introl eq_refl) b) in Hthrown. discriminate. }
    destruct (decide (fromRow = toRow /\ fromCol = toCol)) as [Hsame | Hne].
    { rewrite (Hearly (or_intror Hsame) b) in Hthrown. discriminate. }
    destruct (decide (0 <= fromRow <= 7)) as [Hin | Hoff].
    { destruct (isValidMove_Done b cp fromRow fromCol toRow toCol Hlen Hin)
        as [r Hr]. congruence. }
    split; [reflexivity |]. split; [lia | exact Hoff].
  - destruct (decide (0 <= fromRow <= 7)) as [Hin | Hoff].
    { right. apply isValidMove_Done; assumption. }
    destruct (inGrid toRow toCol) eqn:Hto.
    2:{ right. exists false. apply Hearly. auto. }
    destruct (decide (fromRow = toRow /\ fromCol = toCol)) as [Hsame | Hne].
    { right. exists false. apply Hearly. auto. }
    left. apply Hthrow; [reflexivity | lia | exact Hoff].
Qed.

Lemma isValidMove_throws_witness :
  isValidMove initialBoard white (-1) (-1) 4 4 = TypeError
  <-> inGrid 4 4 = true /\ (-1 <> 4 \/ -1 <> 4) /\ ~ 0 <= -1 <= 7.
Proof.
  apply (isValidMove_throws initialBoard white (-1) (-1) 4 4).
  split; [reflexivity | repeat constructor].
Defined.

(** ** The move generator *)

Lemma forM_collect {A : Type} (l : list Z)
    (body : Z -> list A -> run (list A)) (sel : Z -> list A) :
  (forall x acc, body x acc = Done (acc ++ sel x)) ->
  forall acc, forM l body acc = Done (acc ++ flat_map sel l).
Proof.
  intros Hbody. induction l as [| x l IH]; intros acc; cbn [forM flat_map].
  - rewrite app_nil_r. reflexivity.
  - rewrite Hbody. cbn [bind]. rewrite IH, app_assoc. reflexivity.
Qed.

Lemma filter_flat_map {A B : Type} (f : B -> bool) (g : A -> list B)
    (l : list A) :
  List.filter f (flat_map g l) = flat_map (fun x => List.filter f (g x)) l.
Proof.
  induction l as [| x l IH]; cbn [flat_map]; [reflexivity |].
  rewrite List.filter_app, IH. reflexivity.
Qed.

Lemma filter_map_singletons {A B : Type} (f : B -> bool) (g : A -> B)
    (l : list A) :
  List.filter f (map g l)
  = flat_map (fun x => if f (g x) then [g x] else []) l.
Proof.
  induction l as [| x l IH]; cbn [map flat_map List.filter]; [reflexivity |].
  rewrite IH. destruct (f (g x)); reflexivity.
Qed.

Lemma calculateValidMoves_filter (b : Board) (cp : Color) (r c : Z) :
  length b = 8%nat -> 0 <= r <= 7 ->
  calculateValidMoves b cp r c
  = Done (List.filter (legalTo b cp r c) allSquares).
Proof.
  intros Hlen Hr. unfold calculateValidMoves, allSquares.
  rewrite filter_flat_map.
  rewrite (forM_collect range8 _
             (fun toRow => List.filter (legalTo b cp r c)
                             (map (mkSquare toRow) range8))); [reflexivity |].
  intros toRow acc. rewrite filter_map_singletons.
  apply forM_collect. intros toCol acc'.
  unfold legalTo. cbn [row col].
  destruct (isValidMove_Done b cp r c toRow toCol Hlen Hr) as [ok ->].
  cbn [bind]. destruct ok; [reflexivity | rewrite app_nil_r; reflexivity].
Qed.

Lemma allSquares_elem (r c : Z) :
  mkSquare r c ∈ allSquares <-> 0 <= r <= 7 /\ 0 <= c <= 7.
Proof.
  split.
  - intros H. apply list_elem_of_In, allSquares_inGrid in H. exact H.
  - intros [Hr Hc]. eapply list_elem_of_lookup_2, allSquares_row_major; done.
Qed.

Lemma NoDup_allSquares : NoDup allSquares.
Proof.
  apply NoDup_alt. intros i j sq Hi Hj.
  apply lookup_allSquares in Hi, Hj. lia.
Qed.

(** X6: for an origin row of the board, [calculateValidMoves] returns the
    squares of the board to which [isValidMove] accepts the move, each
    once, in row-major order; a square is in the result exactly when the
    move to it is judged legal. *)
Theorem calculateValidMoves_legal (b : Board) (cp : Color) (r c : Z) :
  wfBoard b ->
  0 <= r <= 7 ->
  exists moves : list Square,
    calculateValidMoves b cp r c = Done moves
    /\ moves = List.filter (legalTo b cp r c) allSquares
    /\ NoDup moves
    /\ forall toRow toCol,
         mkSquare toRow toCol ∈ moves
         <-> isValidMove b cp r c toRow toCol = Done true.
Proof.
  intros Hwf Hr. pose proof (wfBoard_rows b Hwf) as Hlen.
  exists (List.filter (legalTo b cp r c) allSquares).
  split; [apply calculateValidMoves_filter; assumption |].
  split; [reflexivity |].
  split; [apply NoDup_ListNoDup, List.NoDup_filter, NoDup_ListNoDup,
          NoDup_allSquares |].
  intros toRow toCol. rewrite list_elem_of_In, filter_In, <- list_elem_of_In.
  rewrite allSquares_elem. unfold legalTo. cbn [row col]. split.
  - intros [_ H].
    destruct (isValidMove b cp r c toRow toCol) as [[|] | | |];
      (reflexivity || discriminate H).
  - intros H. rewrite H. split; [| reflexivity].
    apply isValidMove_true_inv in H as (_ & _ & _ & Hto & _).
    apply inGrid_true, Hto.
Qed.

Lemma calculateValidMoves_legal_witness :
  exists moves : list Square,
    calculateValidMoves initialBoard white 7 1 = Done moves
    /\ moves = List.filter (legalTo initialBoard white 7 1) allSquares
    /\ NoDup moves
    /\ forall toRow toCol,
         mkSquare toRow toCol ∈ moves
         <-> isValidMove initialBoard white 7 1 toRow toCol = Done true.
Proof.
  apply (calculateValidMoves_legal initialBoard white 7 1).
  - split; [reflexivity | repeat constructor].
  - lia.
Defined.

(** ** Counting pieces *)

Lemma count_insert {A : Type} (f : A -> bool) (l : list A) (i : nat)
    (old v : A) :
  l !! i = Some old ->
  (length (List.filter f (<[i := v]> l)) + (if f old then 1 else 0)
   = length (List.filter f l) + (if f v then 1 else 0))%nat.
Proof.
  intros Hold. pose proof (lookup_lt_Some _ _ _ Hold) as Hi.
  rewrite insert_take_drop by exact Hi.
  rewrite <- (take_drop_middle l i old Hold) at 3.
  rewrite !List.filter_app, !length_app. cbn [List.filter].
  destruct (f old), (f v); cbn [length]; lia.
Qed.

Lemma count_concat_insert (f : Cell -> bool) (b : Board) (r : nat)
    (line line' : list Cell) :
  b !! r = Some line ->
  (length (List.filter f (concat (<[r := line']> b)))
   + length (List.filter f line)
   = length (List.filter f (concat b)) + length (List.filter f line'))%nat.
Proof.
  intros Hline. pose proof (lookup_lt_Some _ _ _ Hline) as Hr.
  unfold Board, Cell in *.
  rewrite insert_take_drop by exact Hr.
  rewrite <- (take_drop_middle b r line Hline) at 3.
  rewrite !concat_app. cbn [concat].
  rewrite !List.filter_app, !length_app. lia.
Qed.

Lemma board_set_count (c : Color) (b b' : Board) (r k : Z) (old v : Cell) :
  wfBoard b -> 0 <= r <= 7 -> 0 <= k <= 7 ->
  board_get b r k = Done old ->
  board_set b r k v = Done b' ->
  (countPieces c b' + (if ofColor c old then 1 else 0)
   = countPieces c b + (if ofColor c v then 1 else 0))%nat.
Proof.
  intros Hwf Hr Hk Hget Hset.
  destruct (wfBoard_lookup b r Hwf Hr) as (line & Hline & Hlen).
  unfold board_get, board_set, row_set, countPieces, Board, Cell in *.
  destruct (Z.ltb_spec r 0); [lia |]. rewrite Hline in Hget, Hset.
  destruct (Z.ltb_spec k 0); [lia |].
  destruct (Nat.ltb_spec (Z.to_nat k) (length line)); [| lia].
  cbn [bind] in Hset. injection Hset as <-.
  destruct (line !! Z.to_nat k) as [cell |] eqn:Hcell.
  2:{ apply lookup_ge_None in Hcell. lia. }
  cbn [default] in Hget. injection Hget as <-.
  pose proof (count_concat_insert (ofColor c) b (Z.to_nat r) line
                (<[Z.to_nat k := v]> line) Hline) as Hboard.
  pose proof (count_insert (ofColor c) line (Z.to_nat k) cell v Hcell) as Hline'.
  unfold Board, Cell in *. lia.
Qed.

Lemma ofColor_opposite (c : Color) (t : ChessPiece) :
  color t <> c -> ofColor (opposite c) (Some t) = true.
Proof. destruct c, (color t) eqn:Ht; cbn; rewrite Ht; cbn; done. Qed.

Lemma ofColor_other (c : Color) (p : ChessPiece) :
  ofColor c (Some p) = true -> ofColor (opposite c) (Some p) = false.
Proof. destruct c; cbn; destruct (color p); cbn; done. Qed.

Lemma executeMove_counts (now : Z) (s : GameState)
    (fromRow fromCol toRow toCol : Z) :
  wfBoard (board s) ->
  isValidMove (board s) (currentPlayer s) fromRow fromCol toRow toCol
  = Done true ->
  exists (s' : GameState) (target : Cell),
    executeMove now s fromRow fromCol toRow toCol = Done s'
    /\ board_get (board s) toRow toCol = Done target
    /\ countPieces (currentPlayer s) (board s')
       = countPieces (currentPlayer s) (board s)
    /\ (countPieces (opposite (currentPlayer s)) (board s')
        + (if truthy target then 1 else 0)
        = countPieces (opposite (currentPlayer s)) (board s))%nat.
Proof.
  intros Hwf Hvalid.
  destruct (isValidMove_true_inv _ _ _ _ _ _ Hvalid)
    as (p & Hp & Hcol & Hto & Hne).
  destruct (isValidMove_on_piece (board s) (currentPlayer s)
              fromRow fromCol toRow toCol p Hwf Hp) as (r & Hr & Hiff).
  rewrite Hvalid in Hr. injection Hr as <-.
  destruct (proj1 Hiff eq_refl) as (_ & _ & _ & Hfree & _).
  destruct (board_get_Some_inGrid _ _ _ _ Hwf Hp) as [Hfr Hfc].
  pose proof Hto as Hto'. apply inGrid_true in Hto' as [Htr Htc].
  destruct (board_get_Done (board s) toRow toCol (wfBoard_rows _ Hwf) Htr)
    as [target Htarget].
  destruct (board_set_Done (board s) toRow toCol (Some p) Hwf Htr Htc)
    as (b1 & Hb1 & Hwf1 & Hget1 & Hframe1).
  destruct (board_set_Done b1 fromRow fromCol None Hwf1 Hfr Hfc)
    as (b2 & Hb2 & Hwf2 & Hget2 & Hframe2).
  assert (Hp1 : board_get b1 fromRow fromCol = Done (Some p)).
  { rewrite Hframe1 by (destruct Hne; auto). exact Hp. }
  exists (handleMove
            {| from := getSquareNotation fromRow fromCol;
               to := getSquareNotation toRow toCol;
               piece := pieceName (Some p);
               notation := toText (getSquareNotation fromRow fromCol) +:+ "-"
                           +:+ toText (getSquareNotation toRow toCol);
               timestamp := now |} (setBoardAndClear b2 s)), target.
  split.
  { unfold executeMove. rewrite Hp. cbn [bind]. rewrite Hb1. cbn [bind].
    rewrite Hb2. reflexivity. }
  split; [exact Htarget |]. cbn [handleMove setBoardAndClear board].
  assert (Hown : ofColor (currentPlayer s) (Some p) = true)
    by (cbn; rewrite Hcol; apply Color_eqb_refl).
  pose proof (ofColor_other _ _ Hown) as Hother.
  split.
  - pose proof (board_set_count (currentPlayer s) _ _ _ _ target (Some p)
                  Hwf Htr Htc Htarget Hb1) as H1.
    pose proof (board_set_count (currentPlayer s) _ _ _ _ (Some p) None
                  Hwf1 Hfr Hfc Hp1 Hb2) as H2.
    rewrite Hown in H1, H2. cbn [ofColor] in H2.
    assert (ofColor (currentPlayer s) target = false) as Ht.
    { destruct target as [t |]; [| reflexivity]. cbn.
      apply not_true_is_false. intros H. apply Color_eqb_eq in H.
      apply (Hfree t Htarget). congruence. }
    rewrite Ht in H1. lia.
  - pose proof (board_set_count (opposite (currentPlayer s)) _ _ _ _ target
                  (Some p) Hwf Htr Htc Htarget Hb1) as H1.
    pose proof (board_set_count (opposite (currentPlayer s)) _ _ _ _ (Some p)
                  None Hwf1 Hfr Hfc Hp1 Hb2) as H2.
    rewrite Hother in H1, H2. cbn [ofColor] in H2.
    destruct target as [t |]; cbn [truthy].
    + rewrite ofColor_opposite in H1; [lia |].
      intros H. apply (Hfree t Htarget). congruence.
    + cbn [ofColor] in H1. lia.
Qed.

(** X7: an accepted move keeps the number of pieces of the side that
    moves, and takes one piece from the other side exactly when the
    destination was occupied; the piece taken is of the other colour, so
    the mover never loses a piece. *)
Theorem accepted_move_counts (now : Z) (s : GameState)
    (fromRow fromCol toRow toCol : Z) :
  wfBoard (board s) ->
  isValidMove (board s) (currentPlayer s) fromRow fromCol toRow toCol
  = Done true ->
  exists (s' : GameState) (target : Cell),
    executeMove now s fromRow fromCol toRow toCol = Done s'
    /\ board_get (board s) toRow toCol = Done target
    /\ countPieces (currentPlayer s) (board s')
       = countPieces (currentPlayer s) (board s)
    /\ (countPieces (opposite (currentPlayer s)) (board s')
        + (if truthy target then 1 else 0)
        = countPieces (opposite (currentPlayer s)) (board s))%nat
    /\ forall t, target = Some t -> color t = opposite (currentPlayer s).
Proof.
  intros Hwf Hvalid.
  destruct (executeMove_counts now s fromRow fromCol toRow toCol Hwf Hvalid)
    as (s' & target & Hx & Htarget & Hown & Hother).
  exists s', target. repeat split; try done.
  intros t ->.
  destruct (isValidMove_true_inv _ _ _ _ _ _ Hvalid) as (p & Hp & Hcol & _).
  destruct (isValidMove_on_piece (board s) (currentPlayer s)
              fromRow fromCol toRow toCol p Hwf Hp) as (r & Hr & Hiff).
  rewrite Hvalid in Hr. injection Hr as <-.
  destruct (proj1 Hiff eq_refl) as (_ & _ & _ & Hfree & _).
  specialize (Hfree t Htarget). rewrite Hcol in Hfree.
  destruct (color t), (currentPlayer s); cbn; congruence.
Qed.

Lemma accepted_move_counts_witness :
  exists (s' : GameState) (target : Cell),
    executeMove 0 (initialState player) 6 4 4 4 = Done s'
    /\ board_get initialBoard 4 4 = Done target
    /\ countPieces white (board s') = countPieces white initialBoard
    /\ (countPieces black (board s') + (if truthy target then 1 else 0)
        = countPieces black initialBoard)%nat
    /\ forall t, target = Some t -> color t = opposite white.
Proof.
  apply (accepted_move_counts 0 (initialState player) 6 4 4 4).
  - split; [reflexivity | repeat constructor].
  - reflexivity.
Defined.

Lemma handleEvent_step (now : Z) (s : GameState) (e : Event) :
  wfState s -> wfEvent e ->
  exists s',
    handleEvent now s e = Done s'
    /\ wfState s'
    /\ (noMove s s'
        \/ exists fromRow fromCol toRow toCol,
             isValidMove (board s) (currentPlayer s)
               fromRow fromCol toRow toCol = Done true
             /\ executeMove now s fromRow fromCol toRow toCol = Done s').
Proof.
  intros Hwfs He. pose proof Hwfs as [Hwf _].
  destruct e as [r c | command]; cbn [handleEvent wfEvent] in *.
  - destruct (handleSquareClick_step now s r c Hwfs He)
      as (s' & Hs' & Hwf' & [Hno | (fr & fc & _ & _ & Hv & Hx & _)]).
    + exists s'. auto.
    + exists s'. split; [exact Hs' |]. split; [exact Hwf' |].
      right. exists fr, fc, r, c. done.
  - destruct (processVoiceCommand_step now s command Hwf)
      as (s' & Hs' & [-> | (fr & fc & tr & tc & _ & _ & Hv & Hx & Hwf' & _)]).
    + exists s. split; [exact Hs' |]. split; [exact Hwfs |].
      left. unfold noMove. done.
    + exists s'. split; [exact Hs' |]. split; [exact Hwf' |].
      right. exists fr, fc, tr, tc. done.
Qed.

Lemma handleEvent_counts (now : Z) (s : GameState) (e : Event) :
  wfState s -> wfEvent e ->
  exists s',
    handleEvent now s e = Done s'
    /\ wfState s'
    /\ forall c, (countPieces c (board s') <= countPieces c (board s))%nat.
Proof.
  intros Hwfs He. pose proof Hwfs as [Hwf _].
  destruct (handleEvent_step now s e Hwfs He)
    as (s' & Hs' & Hwf' & [(Hb & _) | (fr & fc & tr & tc & Hv & Hx)]).
  - exists s'. split; [exact Hs' |]. split; [exact Hwf' |].
    intros c. rewrite Hb. lia.
  - exists s'. split; [exact Hs' |]. split; [exact Hwf' |].
    destruct (executeMove_counts now s fr fc tr tc Hwf Hv)
      as (s'' & target & Hx' & _ & Hown & Hother).
    rewrite Hx in Hx'. injection Hx' as <-.
    intros c. destruct (Color_eqb c (currentPlayer s)) eqn:Hc.
    + apply Color_eqb_eq in Hc. subst c. lia.
    + replace c with (opposite (currentPlayer s))
        by (destruct c, (currentPlayer s); (done || discriminate Hc)).
      lia.
Qed.

(** X8: over any sequence of clicks on the board and voice commands the
    handlers return, the board stays 8 by 8, and neither side ever has
    more pieces than before; from the initial position each side has at
    most 16. *)
Theorem events_never_add_pieces (s : GameState) (es : list (Z * Event)) :
  wfState s ->
  Forall (fun ne => wfEvent (snd ne)) es ->
  (exists s',
      runEvents s es = Done s'
      /\ wfState s'
      /\ forall c, (countPieces c (board s') <= countPieces c (board s))%nat)
  /\ forall c, countPieces c initialBoard = 16%nat.
Proof.
  intros Hwfs Hes. split; [| intros []; reflexivity].
  revert s Hwfs. induction Hes as [| [now e] es He Hes IH]; intros s Hwfs.
  - exists s. cbn. auto.
  - cbn [runEvents]. cbn [snd] in He.
    destruct (handleEvent_counts now s e Hwfs He) as (s1 & Hs1 & Hwf1 & Hle1).
    rewrite Hs1. cbn [bind].
    destruct (IH s1 Hwf1) as (s' & Hs' & Hwf' & Hle').
    exists s'. split; [exact Hs' |]. split; [exact Hwf' |].
    intros c. specialize (Hle1 c). specialize (Hle' c). lia.
Qed.

Lemma events_never_add_pieces_witness :
  exists s',
    runEvents (initialState player)
      [(0, Voice "e4"); (1, Voice "d5"); (2, Click 4 4); (3, Click 3 3)]
    = Done s'
    /\ wfState s'
    /\ forall c, (countPieces c (board s') <= countPieces c initialBoard)%nat.
Proof.
  apply (events_never_add_pieces (initialState player)
           [(0, Voice "e4"); (1, Voice "d5"); (2, Click 4 4); (3, Click 3 3)]).
  - split; [split; [reflexivity | repeat constructor]
           | intros sq H; discriminate H].
  - repeat constructor.
Defined.

(** ** Selection and highlights *)

Lemma Done_inj {A : Type} (x y : A) : Done x = Done y -> x = y.
Proof. intros H. injection H as H. exact H. Qed.

Lemma ownPiece_true (s : GameState) (cell : Cell) :
  ownPiece s cell = true ->
  exists p, cell = Some p /\ color p = currentPlayer s.
Proof.
  destruct cell as [p |]; [| discriminate]. cbn. intros H.
  exists p. split; [reflexivity | apply Color_eqb_eq, H].
Qed.

Lemma handleSquareClick_selection (now : Z) (s : GameState) (r c : Z) :
  wfState s -> selectionOk s -> inGrid r c = true ->
  forall s', handleSquareClick now s r c = Done s' -> selectionOk s'.
Proof.
  intros [Hwf Hsel] Hok Hclick s'.
  pose proof (wfBoard_rows _ Hwf) as Hlen.
  pose proof Hclick as Hclick'. apply inGrid_true in Hclick' as [Hr Hc].
  assert (Hselect : forall cell,
    board_get (board s) r c = Done cell ->
    ownPiece s cell = true ->
    forall moves,
      calculateValidMoves (board s) (currentPlayer s) r c = Done moves ->
      selectionOk (setSelection (Some (mkSquare r c)) moves s)).
  { intros cell Hcell Hown moves Hmoves.
    apply ownPiece_true in Hown as (p & -> & Hp).
    unfold selectionOk. cbn. split; [exact Hclick |].
    split; [exists p; done | exact Hmoves]. }
  unfold handleSquareClick.
  destruct (gameStarted s); cbn [negb]; [| intros H; injection H as <-; done].
  destruct (selectedSquare s) as [[fromRow fromCol] |] eqn:Hselected.
  - destruct ((fromRow =? r) && (fromCol =? c)).
    { intros H. injection H as <-. reflexivity. }
    destruct (isValidMove (board s) (currentPlayer s) fromRow fromCol r c)
      as [[|] | | |] eqn:Hvalid; cbn [bind]; try discriminate.
    + unfold executeMove.
      destruct (board_get (board s) fromRow fromCol) as [cell | | |];
        cbn [bind]; try discriminate.
      destruct (board_set (board s) r c cell) as [b1 | | |]; cbn [bind];
        try discriminate.
      destruct (board_set b1 fromRow fromCol None) as [b2 | | |]; cbn [bind];
        try discriminate.
      intros H. injection H as <-. reflexivity.
    + destruct (board_get (board s) r c) as [cell | | |] eqn:Hcell;
        cbn [bind]; try discriminate.
      destruct (ownPiece s cell) eqn:Hown.
      * destruct (calculateValidMoves (board s) (currentPlayer s) r c)
          as [moves | | |] eqn:Hmoves; cbn [bind]; try discriminate.
        intros H. injection H as <-. eapply Hselect; (reflexivity || eassumption).
      * intros H. injection H as <-. reflexivity.
  - destruct (board_get (board s) r c) as [cell | | |] eqn:Hcell;
      cbn [bind]; try discriminate.
    destruct (ownPiece s cell) eqn:Hown.
    + destruct (calculateValidMoves (board s) (currentPlayer s) r c)
        as [moves | | |] eqn:Hmoves; cbn [bind]; try discriminate.
      intros H. injection H as <-. eapply Hselect; (reflexivity || eassumption).
    + intros H. injection H as <-. unfold selectionOk in *.
      rewrite Hselected in *. exact Hok.
Qed.

Lemma executeMove_selection (now : Z) (s s' : GameState)
    (fromRow fromCol toRow toCol : Z) :
  executeMove now s fromRow fromCol toRow toCol = Done s' -> selectionOk s'.
Proof.
  unfold executeMove.
  destruct (board_get (board s) fromRow fromCol) as [cell | | |];
    cbn [bind]; try discriminate.
  destruct (board_set (board s) toRow toCol cell) as [b1 | | |]; cbn [bind];
    try discriminate.
  destruct (board_set b1 fromRow fromCol None) as [b2 | | |]; cbn [bind];
    try discriminate.
  intros H. injection H as <-. reflexivity.
Qed.

Lemma isValidMoveSquare_legal (s : GameState) (r c : Z) :
  wfBoard (board s) -> selectionOk s ->
  isValidMoveSquare s r c = true <-> legalFromSelection s r c.
Proof.
  intros Hwf Hok. unfold isValidMoveSquare, legalFromSelection, selectionOk in *.
  destruct (selectedSquare s) as [sq |].
  - destruct Hok as (Hin & _ & Hmoves). apply inGrid_true in Hin as [Hr _].
    rewrite calculateValidMoves_filter in Hmoves
      by (apply wfBoard_rows, Hwf || exact Hr).
    apply Done_inj in Hmoves. rewrite <- Hmoves. rewrite existsb_exists.
    split.
    + intros (move & Hmove & Hrc). apply filter_In in Hmove as [_ Hlegal].
      apply andb_true_iff in Hrc as [H1 H2]. apply Z.eqb_eq in H1, H2.
      subst r c. exists sq. split; [reflexivity |]. unfold legalTo in Hlegal.
      destruct (isValidMove _ _ _ _ (row move) (col move)) as [[|] | | |];
        (reflexivity || discriminate Hlegal).
    + intros (sq' & Hsq & Hvalid). injection Hsq as <-.
      exists (mkSquare r c). cbn [row col]. rewrite !Z.eqb_refl.
      split; [| reflexivity]. apply filter_In. split.
      * apply list_elem_of_In, allSquares_elem, inGrid_true.
        apply isValidMove_true_inv in Hvalid as (_ & _ & _ & Hto & _).
        exact Hto.
      * unfold legalTo. cbn [row col]. rewrite Hvalid. reflexivity.
  - rewrite Hok. cbn [existsb]. split; [discriminate |].
    intros (sq & H & _). discriminate H.
Qed.

(** X9: if the selection is a square holding a piece of the side to move
    with [validMoves] computed for it, this is again so after any click on
    the board and any voice command; and then the squares marked as valid
    moves, which are the squares painted green, are exactly the
    destinations to which the move from the selected square is judged
    legal (none without a selection). *)
Theorem selection_highlights (now : Z) (s : GameState) (e : Event) :
  wfState s ->
  selectionOk s ->
  wfEvent e ->
  exists s',
    handleEvent now s e = Done s'
    /\ selectionOk s'
    /\ forall r c,
         (isValidMoveSquare s' r c = true <-> legalFromSelection s' r c)
         /\ (getSquareColor s' r c = "bg-green-700"
             \/ getSquareColor s' r c = "bg-green-300"
             <-> legalFromSelection s' r c).
Proof.
  intros Hwfs Hok He.
  destruct (handleEvent_step now s e Hwfs He) as (s' & Hs' & Hwf' & Hcase).
  assert (Hok' : selectionOk s').
  { destruct e as [r c | command]; cbn [handleEvent wfEvent] in *.
    - exact (handleSquareClick_selection now s r c Hwfs Hok He s' Hs').
    - destruct (processVoiceCommand_step now s command (proj1 Hwfs))
        as (s'' & Hs'' & [-> | (fr & fc & tr & tc & _ & _ & _ & Hx & _)]);
        rewrite Hs' in Hs''; injection Hs'' as <-; [exact Hok |].
      eapply executeMove_selection, Hx. }
  exists s'. split; [exact Hs' |]. split; [exact Hok' |].
  intros r c.
  pose proof (isValidMoveSquare_legal s' r c (proj1 Hwf') Hok') as Hlegal.
  split; [exact Hlegal |]. rewrite <- Hlegal. unfold getSquareColor.
  destruct (isSquareSelected s' r c) eqn:Hselected.
  - split; [intros [H | H]; discriminate H |].
    intros H. apply Hlegal in H as (sq & Hsq & Hvalid).
    unfold isSquareSelected in Hselected. rewrite Hsq in Hselected.
    apply andb_true_iff in Hselected as [H1 H2]. apply Z.eqb_eq in H1, H2.
    apply isValidMove_true_inv in Hvalid as (_ & _ & _ & _ & Hne). lia.
  - destruct (isValidMoveSquare s' r c).
    + split; [reflexivity |]. intros _.
      destruct (Z.rem (r + c) 2 =? 1); auto.
    + split; [| discriminate].
      destruct (Z.rem (r + c) 2 =? 1); intros [H | H]; discriminate H.
Qed.

Lemma selection_highlights_witness :
  exists s',
    handleEvent 0 (initialState player) (Click 7 1) = Done s'
    /\ selectionOk s'
    /\ forall r c,
         (isValidMoveSquare s' r c = true <-> legalFromSelection s' r c)
         /\ (getSquareColor s' r c = "bg-green-700"
             \/ getSquareColor s' r c = "bg-green-300"
             <-> legalFromSelection s' r c).
Proof.
  apply (selection_highlights 0 (initialState player) (Click 7 1)).
  - split; [split; [reflexivity | repeat constructor]
           | intros sq H; discriminate H].
  - reflexivity.
  - reflexivity.
Defined.

(** ** Turn and history *)

Lemma executeMove_turn (now : Z) (s s' : GameState)
    (fromRow fromCol toRow toCol : Z) :
  executeMove now s fromRow fromCol toRow toCol = Done s' ->
  currentPlayer s' = opposite (currentPlayer s)
  /\ exists m, moveHistory s' = moveHistory s ++ [m].
Proof.
  unfold executeMove.
  destruct (board_get (board s) fromRow fromCol) as [cell | | |];
    cbn [bind]; try discriminate.
  destruct (board_set (board s) toRow toCol cell) as [b1 | | |]; cbn [bind];
    try discriminate.
  destruct (board_set b1 fromRow fromCol None) as [b2 | | |]; cbn [bind];
    try discriminate.
  intros H. injection H as <-. cbn. eauto.
Qed.

Lemma handleEvent_turn (now : Z) (s : GameState) (e : Event) :
  wfState s -> wfEvent e -> turnMatchesHistory s ->
  exists s',
    handleEvent now s e = Done s'
    /\ wfState s'
    /\ turnMatchesHistory s'
    /\ exists added, moveHistory s' = moveHistory s ++ added
                     /\ (length added <= 1)%nat.
Proof.
  intros Hwfs He Hturn.
  destruct (handleEvent_step now s e Hwfs He)
    as (s' & Hs' & Hwf' & [(_ & Hc & Hh) | (fr & fc & tr & tc & _ & Hx)]);
    exists s'; (split; [exact Hs' |]); (split; [exact Hwf' |]).
  - split; [unfold turnMatchesHistory; rewrite Hc, Hh; exact Hturn |].
    exists []. rewrite app_nil_r. split; [exact Hh | cbn; lia].
  - apply executeMove_turn in Hx as (Hc & m & Hh).
    split; [| exists [m]; split; [exact Hh | cbn; lia]].
    unfold turnMatchesHistory in *. rewrite Hc, Hh, Hturn, length_app.
    cbn [length]. rewrite Nat.add_1_r, Nat.even_succ, <- Nat.negb_even.
    destruct (Nat.even (length (moveHistory s))); reflexivity.
Qed.

(** ** Names of squares *)

Lemma charAt_indexOf_files (c : ascii) :
  (if isFileChar c
   then match charAt files (indexOf files c) with
        | Some d => Ascii.eqb d c
        | None => false
        end
   else true) = true.
Proof. destruct c as [[] [] [] [] [] [] [] []]; reflexivity. Qed.

Lemma charAt_indexOf_ranks (c : ascii) :
  (if isRankChar c
   then match charAt ranks (indexOf ranks c) with
        | Some d => Ascii.eqb d c
        | None => false
        end
   else true) = true.
Proof. destruct c as [[] [] [] [] [] [] [] []]; reflexivity. Qed.

Lemma get_beyond (s : string) :
  forall n : nat, (String.length s <= n)%nat -> String.get n s = None.
Proof.
  induction s as [| a s IH]; intros n Hn; [reflexivity |].
  destruct n as [| n]; cbn [String.length] in Hn; [lia |].
  cbn [String.get]. apply IH. lia.
Qed.

Lemma charAt_Some_range (s : string) (i : Z) (a : ascii) :
  charAt s i = Some a -> 0 <= i < Z.of_nat (String.length s).
Proof.
  unfold charAt. destruct (Z.ltb_spec i 0) as [Hneg | Hpos];
    [discriminate |]. intros Hget.
  destruct (Z.lt_ge_cases i (Z.of_nat (String.length s))) as [Hlt | Hge];
    [lia |].
  rewrite get_beyond in Hget by lia. discriminate Hget.
Qed.

Lemma getSquareNotation_name (s : string) :
  testBareSquare s = true ->
  exists r c,
    inGrid r c = true
    /\ parseSquareNotation (Str s) = Some (mkSquare r c)
    /\ getSquareNotation r c = Str s.
Proof.
  intros Hs. destruct (parse_bareSquare s Hs) as (r & c & Hin & Hparse).
  exists r, c. split; [apply inGrid_true, Hin |]. split; [exact Hparse |].
  destruct s as [| c0 [| c1 [| c2 s]]]; cbn [testBareSquare] in Hs;
    try discriminate Hs.
  apply andb_true_iff in Hs as [Hf Hr].
  pose proof (charAt_indexOf_files c0) as Hi.
  pose proof (charAt_indexOf_ranks c1) as Hj.
  rewrite Hf in Hi. rewrite Hr in Hj.
  unfold parseSquareNotation in Hparse.
  destruct ((indexOf files c0 =? -1) || (indexOf ranks c1 =? -1));
    injection Hparse as <- <-; [lia |].
  unfold getSquareNotation.
  destruct (charAt files (indexOf files c0)) as [d0 |]; [| discriminate Hi].
  destruct (charAt ranks (indexOf ranks c1)) as [d1 |]; [| discriminate Hj].
  apply Ascii.eqb_eq in Hi, Hj. subst. reflexivity.
Qed.

Lemma getSquareNotation_offboard (r c : Z) :
  inGrid r c = false -> parseSquareNotation (getSquareNotation r c) = None.
Proof.
  intros Hoff. unfold getSquareNotation.
  destruct (charAt files c) as [a |] eqn:Hc;
    destruct (charAt ranks r) as [d |] eqn:Hr; try reflexivity.
  apply charAt_Some_range in Hc, Hr. cbn in Hc, Hr.
  assert (inGrid r c = true) by (apply inGrid_true; lia). congruence.
Qed.

(** X11: the names of squares and the squares of the board correspond one
    to one: every two-character name with a file in [a..h] and a rank in
    [1..8] parses to a square of the board whose name it is, two squares
    of the board with the same name are the same square, and the name
    computed for coordinates off the board never parses to a square (nor
    to the pair [(-1, -1)]). *)
Theorem square_names_one_to_one :
  (forall s : string,
      testBareSquare s = true ->
      exists r c,
        inGrid r c = true
        /\ parseSquareNotation (Str s) = Some (mkSquare r c)
        /\ getSquareNotation r c = Str s)
  /\ (forall r c r' c',
        inGrid r c = true -> inGrid r' c' = true ->
        getSquareNotation r c = getSquareNotation r' c' ->
        r = r' /\ c = c')
  /\ (forall r c,
        inGrid r c = false ->
        parseSquareNotation (getSquareNotation r c) = None).
Proof.
  split; [exact getSquareNotation_name |].
  split; [| exact getSquareNotation_offboard].
  intros r c r' c' Hin Hin' Hname.
  apply inGrid_true in Hin as [Hr Hc], Hin' as [Hr' Hc'].
  pose proof (parse_squareName (mkSquare r c) Hr Hc) as H1.
  pose proof (parse_squareName (mkSquare r' c') Hr' Hc') as H2.
  unfold squareName in H1, H2. cbn [row col] in H1, H2.
  rewrite Hname, H2 in H1. injection H1 as -> ->. done.
Qed.

Lemma square_names_one_to_one_witness :
  exists r c,
    inGrid r c = true
    /\ parseSquareNotation (Str "h1") = Some (mkSquare r c)
    /\ getSquareNotation r c = Str "h1".
Proof.
  apply (proj1 square_names_one_to_one "h1"). reflexivity.
Defined.

(** ** The executor without its precondition *)

Lemma turnPassed_opposite (c : Color) : turnPassed c (opposite c).
Proof. destruct c; [left | right]; done. Qed.

(** X12: [executeMove] does not check legality. For any two squares of the
    board it returns, passes the turn from white to black or from black to
    white, and appends one record; the origin
    ends empty and, if the destination is another square, the destination
    holds whatever the origin held, a piece or nothing, in place of what
    stood there; all other squares keep their content. With an empty
    origin the record names the piece [unknown]. *)
Theorem executeMove_unchecked (now : Z) (s : GameState)
    (fromRow fromCol toRow toCol : Z) :
  wfBoard (board s) ->
  inGrid fromRow fromCol = true ->
  inGrid toRow toCol = true ->
  exists (s' : GameState) (cell : Cell) (m : ChessMove),
    board_get (board s) fromRow fromCol = Done cell
    /\ executeMove now s fromRow fromCol toRow toCol = Done s'
    /\ wfState s'
    /\ turnPassed (currentPlayer s) (currentPlayer s')
    /\ moveHistory s' = moveHistory s ++ [m]
    /\ piece m = pieceName cell
    /\ (cell = None -> piece m = "unknown")
    /\ board_get (board s') fromRow fromCol = Done None
    /\ (fromRow <> toRow \/ fromCol <> toCol ->
        board_get (board s') toRow toCol = Done cell)
    /\ forall r c, (r <> fromRow \/ c <> fromCol) ->
                   (r <> toRow \/ c <> toCol) ->
                   board_get (board s') r c = board_get (board s) r c.
Proof.
  intros Hwf Hfrom Hto.
  apply inGrid_true in Hfrom as [Hfr Hfc], Hto as [Htr Htc].
  destruct (board_get_Done (board s) fromRow fromCol (wfBoard_rows _ Hwf) Hfr)
    as [cell Hcell].
  destruct (board_set_Done (board s) toRow toCol cell Hwf Htr Htc)
    as (b1 & Hb1 & Hwf1 & Hget1 & Hframe1).
  destruct (board_set_Done b1 fromRow fromCol None Hwf1 Hfr Hfc)
    as (b2 & Hb2 & Hwf2 & Hget2 & Hframe2).
  unfold executeMove. rewrite Hcell. cbn [bind]. rewrite Hb1. cbn [bind].
  rewrite Hb2. cbn [bind]. eexists _, cell, _.
  split; [reflexivity |]. split; [reflexivity |].
  split; [split; [exact Hwf2 | intros sq H; discriminate H] |].
  cbn. split; [apply turnPassed_opposite |]. repeat split; try done.
  - intros ->. reflexivity.
  - intros Hne. rewrite Hframe2 by (destruct Hne; auto). exact Hget1.
  - intros r c H1 H2. rewrite Hframe2, Hframe1 by assumption. reflexivity.
Qed.

Lemma executeMove_unchecked_witness :
  exists (s' : GameState) (m : ChessMove),
    executeMove 0 (initialState player) 4 4 0 4 = Done s'
    /\ currentPlayer s' = black
    /\ moveHistory s' = [m]
    /\ piece m = "unknown"
    /\ board_get (board s') 4 4 = Done None
    /\ board_get (board s') 0 4 = Done None.
Proof.
  destruct (executeMove_unchecked 0 (initialState player) 4 4 0 4)
    as (s' & cell & m & Hcell & Hs' & _ & Hturn & Hh & _ & Hname & Hfrom
        & Hto & _).
  - split; [reflexivity | repeat constructor].
  - reflexivity.
  - reflexivity.
  - exists s', m. injection Hcell as <-.
    split; [exact Hs' |].
    split; [destruct Hturn as [[_ H] | [H _]]; [exact H | discriminate H] |].
    split; [exact Hh |]. split; [exact (Hname eq_refl) |].
    split; [exact Hfrom |]. apply Hto. left. lia.
Defined.

(** ** A spoken move and the same move by clicks *)

Lemma spokenMoveRead_all :
  forallb (fun a => forallb (spokenMoveRead a) allSquares) allSquares = true.
Proof. vm_compute. reflexivity. Qed.

Lemma spokenMove_read (fromRow fromCol toRow toCol : Z) :
  0 <= fromRow <= 7 /\ 0 <= fromCol <= 7 ->
  0 <= toRow <= 7 /\ 0 <= toCol <= 7 ->
  exists x y,
    testBareSquare (trim (toLowerCase (spokenMove fromRow fromCol toRow toCol)))
    = false
    /\ matchSquarePair
         (trim (toLowerCase (spokenMove fromRow fromCol toRow toCol)))
       = Some (x, y)
    /\ getSquareNotation fromRow fromCol = Str x
    /\ getSquareNotation toRow toCol = Str y.
Proof.
  intros Hfrom Hto.
  pose proof spokenMoveRead_all as Hall. rewrite forallb_forall in Hall.
  specialize (Hall (mkSquare fromRow fromCol)
                (proj1 (list_elem_of_In _ _)
                   (proj2 (allSquares_elem _ _) Hfrom))).
  rewrite forallb_forall in Hall.
  specialize (Hall (mkSquare toRow toCol)
                (proj1 (list_elem_of_In _ _)
                   (proj2 (allSquares_elem _ _) Hto))).
  unfold spokenMoveRead, squareName in Hall. cbn [row col] in Hall.
  apply andb_true_iff in Hall as [Hbare Hpair].
  apply negb_true_iff in Hbare.
  destruct (matchSquarePair _) as [[x y] |]; [| discriminate Hpair].
  destruct (getSquareNotation fromRow fromCol) as [na |];
    [| discriminate Hpair].
  destruct (getSquareNotation toRow toCol) as [nb |]; [| discriminate Hpair].
  apply andb_true_iff in Hpair as [Hx Hy]. apply String.eqb_eq in Hx, Hy.
  subst. exists na, nb. done.
Qed.

Lemma processVoiceCommand_spoken (now : Z) (s : GameState)
    (fromRow fromCol toRow toCol : Z) :
  wfBoard (board s) ->
  gameStarted s = true ->
  inGrid fromRow fromCol = true ->
  inGrid toRow toCol = true ->
  exists ok,
    isValidMove (board s) (currentPlayer s) fromRow fromCol toRow toCol
    = Done ok
    /\ processVoiceCommand now s (spokenMove fromRow fromCol toRow toCol)
       = if ok then executeMove now s fromRow fromCol toRow toCol
         else Done s.
Proof.
  intros Hwf Hstarted Hfrom Hto.
  apply inGrid_true in Hfrom, Hto.
  destruct (spokenMove_read fromRow fromCol toRow toCol Hfrom Hto)
    as (x & y & Hbare & Hpair & Hx & Hy).
  destruct (isValidMove_Done (board s) (currentPlayer s)
              fromRow fromCol toRow toCol (wfBoard_rows _ Hwf))
    as [ok Hok]; [lia |].
  exists ok. split; [exact Hok |].
  unfold processVoiceCommand, extractSquares.
  rewrite Hstarted, Hbare, Hpair. cbn [negb bind fst snd].
  unfold moveExtracted. rewrite <- Hx, <- Hy.
  pose proof (truthyString_squareName (mkSquare fromRow fromCol)) as H1.
  pose proof (truthyString_squareName (mkSquare toRow toCol)) as H2.
  pose proof (parse_squareName (mkSquare fromRow fromCol)) as H3.
  pose proof (parse_squareName (mkSquare toRow toCol)) as H4.
  unfold squareName in *. cbn [row col] in *.
  rewrite H1, H2 by lia. cbn [andb]. cbv beta iota.
  rewrite H3, H4 by lia. rewrite Hok. reflexivity.
Qed.

Lemma executeMove_setSelection (now : Z) (s : GameState)
    (sel : option Square) (moves : list Square)
    (fromRow fromCol toRow toCol : Z) :
  executeMove now (setSelection sel moves s) fromRow fromCol toRow toCol
  = executeMove now s fromRow fromCol toRow toCol.
Proof.
  unfold executeMove. cbn [board setSelection].
  destruct (board_get (board s) fromRow fromCol) as [cell | | |];
    cbn [bind]; [| reflexivity ..].
  destruct (board_set (board s) toRow toCol cell) as [b1 | | |]; cbn [bind];
    [| reflexivity ..].
  destruct (board_set b1 fromRow fromCol None) as [b2 | | |]; reflexivity.
Qed.

Lemma bind_Done_r {A : Type} (m : run A) : bind m Done = m.
Proof. destruct m; reflexivity. Qed.

Lemma click_unselected (now : Z) (s : GameState) (r c : Z) :
  wfBoard (board s) -> gameStarted s = true -> selectedSquare s = None ->
  0 <= r <= 7 ->
  exists cell,
    board_get (board s) r c = Done cell
    /\ exists s',
         handleSquareClick now s r c = Done s'
         /\ ((ownPiece s cell = true
              /\ exists moves, s' = setSelection (Some (mkSquare r c)) moves s)
             \/ (ownPiece s cell = false /\ s' = s)).
Proof.
  intros Hwf Hstarted Hnone Hr. pose proof (wfBoard_rows _ Hwf) as Hlen.
  destruct (board_get_Done (board s) r c Hlen Hr) as [cell Hcell].
  exists cell. split; [exact Hcell |].
  unfold handleSquareClick. rewrite Hstarted, Hnone, Hcell. cbn [negb bind].
  destruct (ownPiece s cell).
  - destruct (calculateValidMoves_Done (board s) (currentPlayer s) r c Hlen Hr)
      as [moves ->].
    cbn [bind]. eexists. split; [reflexivity |]. left. eauto.
  - exists s. auto.
Qed.

Lemma click_reselect (s s0 : GameState) (r c : Z) :
  length (board s) = 8%nat -> 0 <= r <= 7 ->
  board s = board s0 -> currentPlayer s = currentPlayer s0 ->
  moveHistory s = moveHistory s0 ->
  exists s',
    (let* piece := board_get (board s) r c in
     if ownPiece s piece then
       let* moves := calculateValidMoves (board s) (currentPlayer s) r c in
       Done (setSelection (Some (mkSquare r c)) moves s)
     else Done (setSelection None [] s)) = Done s'
    /\ board s' = board s0
    /\ currentPlayer s' = currentPlayer s0
    /\ moveHistory s' = moveHistory s0.
Proof.
  intros Hlen Hr Hb Hc Hh.
  destruct (board_get_Done (board s) r c Hlen Hr) as [cell ->]. cbn [bind].
  destruct (ownPiece s cell).
  - destruct (calculateValidMoves_Done (board s) (currentPlayer s) r c Hlen Hr)
      as [moves ->].
    cbn [bind]. eexists. split; [reflexivity |]. cbn. done.
  - eexists. split; [reflexivity |]. cbn. done.
Qed.

(** One call of [processVoiceCommand] on the spoken move against the two
    calls of [handleSquareClick]. *)
Lemma spoken_move_calls (now1 now : Z) (s : GameState)
    (fromRow fromCol toRow toCol : Z) :
  wfBoard (board s) ->
  gameStarted s = true ->
  selectedSquare s = None ->
  inGrid fromRow fromCol = true ->
  inGrid toRow toCol = true ->
  exists sv sc,
    processVoiceCommand now s (spokenMove fromRow fromCol toRow toCol)
    = Done sv
    /\ runEvents s [(now1, Click fromRow fromCol); (now, Click toRow toCol)]
       = Done sc
    /\ board sc = board sv
    /\ currentPlayer sc = currentPlayer sv
    /\ moveHistory sc = moveHistory sv.
Proof.
  intros Hwf Hstarted Hnone Hfrom Hto.
  pose proof (wfBoard_rows _ Hwf) as Hlen.
  destruct (processVoiceCommand_spoken now s fromRow fromCol toRow toCol
              Hwf Hstarted Hfrom Hto) as (ok & Hok & Hvoice).
  pose proof Hfrom as Hfrom'. pose proof Hto as Hto'.
  apply inGrid_true in Hfrom' as [Hfr Hfc], Hto' as [Htr Htc].
  rewrite Hvoice. cbn [runEvents handleEvent].
  destruct (click_unselected now1 s fromRow fromCol Hwf Hstarted Hnone Hfr)
    as (cell & Hcell & s1 & Hs1 & [(Hown & moves & ->) | (Hown & ->)]);
    rewrite Hs1; cbn [bind]; rewrite bind_Done_r.
  - unfold handleSquareClick.
    cbn [gameStarted selectedSquare board currentPlayer setSelection].
    rewrite Hstarted. cbn [negb].
    destruct ((fromRow =? toRow) && (fromCol =? toCol)) eqn:Hsame.
    + apply same_square_check in Hsame.
      assert (ok = false) as ->.
      { destruct ok; [| reflexivity].
        apply isValidMove_true_inv in Hok as (_ & _ & _ & _ & Hne). lia. }
      exists s. eexists. split; [reflexivity |]. split; [reflexivity |].
      cbn. done.
    + rewrite Hok. cbn [bind]. destruct ok.
      * rewrite executeMove_setSelection.
        destruct (isValidMove_true_inv _ _ _ _ _ _ Hok)
          as (p & Hp & _ & _ & Hne).
        destruct (executeMove_Done now s fromRow fromCol toRow toCol p
                    Hwf Hp Hto Hne) as (s' & Hs' & _).
        rewrite Hs'. exists s', s'. done.
      * destruct (click_reselect
                    (setSelection (Some (mkSquare fromRow fromCol)) moves s)
                    s toRow toCol Hlen Htr eq_refl eq_refl eq_refl)
          as (sc & Hsc & Hb & Hc & Hh).
        exists s, sc. split; [reflexivity |]. split; [exact Hsc |]. done.
  - assert (ok = false) as ->.
    { destruct ok; [| reflexivity].
      apply isValidMove_true_inv in Hok as (p & Hp & Hcol & _).
      rewrite Hp in Hcell. injection Hcell as <-. cbn in Hown.
      rewrite Hcol, Color_eqb_refl in Hown. discriminate Hown. }
    destruct (click_unselected now s toRow toCol Hwf Hstarted Hnone Htr)
      as (cell' & _ & s2 & Hs2 & [(_ & moves & ->) | (_ & ->)]);
      rewrite Hs2; exists s; eexists; (split; [reflexivity |]);
      (split; [reflexivity |]); cbn; done.
Qed.

(** ** Commands the resolver drops *)

Lemma countSquares_cons (f r : ascii) (rest : string) :
  countSquares (String f (String r rest))
  = ((if isFileChar f && isRankChar r then 1 else 0)
     + countSquares (String r rest))%nat.
Proof. reflexivity. Qed.

Lemma lazyThenSquare_count (s x : string) :
  lazyThenSquare s = Some x -> (1 <= countSquares s)%nat.
Proof.
  induction s as [| f s IH]; [discriminate |].
  destruct s as [| r rest]; [discriminate |].
  rewrite countSquares_cons. cbn [lazyThenSquare].
  destruct (isFileChar f && isRankChar r); [lia |].
  destruct (isLineTerminator f); [discriminate |].
  intros H. specialize (IH H). lia.
Qed.

Lemma countSquares_step (c : ascii) (s : string) :
  (countSquares s <= countSquares (String c s))%nat.
Proof.
  destruct s as [| r rest]; [cbn; lia |]. rewrite countSquares_cons. lia.
Qed.

Lemma matchSquarePair_count (s : string) (p : string * string) :
  matchSquarePair s = Some p -> (2 <= countSquares s)%nat.
Proof.
  induction s as [| f s IH]; [discriminate |].
  destruct s as [| r rest]; [discriminate |].
  rewrite countSquares_cons. cbn [matchSquarePair]. intros H.
  assert (Hcase : (exists x, isFileChar f && isRankChar r = true
                             /\ lazyThenSquare rest = Some x)
                  \/ matchSquarePair (String r rest) = Some p).
  { destruct (isFileChar f && isRankChar r); [| auto].
    destruct (lazyThenSquare rest) as [x |]; eauto. }
  destruct Hcase as [(x & Hsq & Hlazy) | Hrec].
  - apply lazyThenSquare_count in Hlazy.
    pose proof (countSquares_step r rest). rewrite Hsq. lia.
  - specialize (IH Hrec). lia.
Qed.

(** X14: a command that is not just a square name and names at most one
    square, such as "knight c3" or "bishop takes f7", is dropped: the
    state is returned unchanged, whatever the position. *)
Theorem one_square_with_words_dropped (now : Z) (s : GameState)
    (command : string) :
  testBareSquare (trim (toLowerCase command)) = false ->
  (countSquares (trim (toLowerCase command)) <= 1)%nat ->
  processVoiceCommand now s command = Done s.
Proof.
  intros Hbare Hcount. unfold processVoiceCommand, extractSquares.
  destruct (gameStarted s); cbn [negb]; [| reflexivity].
  rewrite Hbare.
  destruct (matchSquarePair (trim (toLowerCase command))) as [p |] eqn:Hpair.
  - apply matchSquarePair_count in Hpair. lia.
  - reflexivity.
Qed.

Lemma one_square_with_words_dropped_witness :
  processVoiceCommand 0 (initialState player) "Knight c3"
  = Done (initialState player).
Proof.
  apply (one_square_with_words_dropped 0 (initialState player) "Knight c3").
  - reflexivity.
  - vm_compute. lia.
Defined.

(** ** Processing a command twice *)

Lemma executeMove_started (now : Z) (s s' : GameState)
    (fromRow fromCol toRow toCol : Z) :
  executeMove now s fromRow fromCol toRow toCol = Done s' ->
  gameStarted s' = gameStarted s.
Proof.
  unfold executeMove.
  destruct (board_get (board s) fromRow fromCol) as [cell | | |];
    cbn [bind]; try discriminate.
  destruct (board_set (board s) toRow toCol cell) as [b1 | | |]; cbn [bind];
    try discriminate.
  destruct (board_set b1 fromRow fromCol None) as [b2 | | |]; cbn [bind];
    try discriminate.
  intros H. injection H as <-. reflexivity.
Qed.

Lemma isValidMove_empty_origin (b : Board) (cp : Color)
    (fromRow fromCol toRow toCol : Z) :
  board_get b fromRow fromCol = Done None ->
  isValidMove b cp fromRow fromCol toRow toCol = Done false.
Proof.
  intros H. unfold isValidMove, isValidMove_with.
  destruct (_ || _); [reflexivity |].
  destruct (_ && _); [reflexivity |]. rewrite H. reflexivity.
Qed.

(** X15: a command that is not just a square name has its effect once:
    processing it again on the state it produced changes nothing, since
    the origin it names is then empty. *)
Theorem pair_command_idempotent (now now' : Z) (s : GameState)
    (command : string) :
  wfBoard (board s) ->
  testBareSquare (trim (toLowerCase command)) = false ->
  exists s',
    processVoiceCommand now s command = Done s'
    /\ processVoiceCommand now' s' command = Done s'.
Proof.
  intros Hwf Hbare. unfold processVoiceCommand, extractSquares.
  rewrite Hbare.
  destruct (gameStarted s) eqn:Hstarted; cbn [negb].
  2:{ exists s. rewrite Hstarted. done. }
  destruct (matchSquarePair (trim (toLowerCase command))) as [[x y] |]
    eqn:Hpair; cbn [bind fst snd].
  2:{ exists s. rewrite Hstarted. done. }
  apply matchSquarePair_shape in Hpair as [Hx Hy].
  destruct (moveExtracted_squares now s x y Hwf Hx Hy)
    as (fr & fc & tr & tc & _ & Hpx & Hpy & ok & Hok & ->).
  destruct ok.
  - destruct (isValidMove_true_inv _ _ _ _ _ _ Hok) as (p & Hp & _ & Hto & Hne).
    destruct (executeMove_Done now s fr fc tr tc p Hwf Hp Hto Hne)
      as (s' & Hs' & _ & (q & _ & _ & _ & Hempty & _)).
    exists s'. split; [exact Hs' |].
    rewrite (executeMove_started _ _ _ _ _ _ _ Hs'), Hstarted. cbn [negb].
    unfold moveExtracted.
    rewrite (testBareSquare_truthy x Hx), (testBareSquare_truthy y Hy).
    cbn [andb]. rewrite Hpx, Hpy.
    rewrite (isValidMove_empty_origin _ _ _ _ _ _ Hempty). reflexivity.
  - exists s. split; [reflexivity |]. rewrite Hstarted. cbn [negb].
    unfold moveExtracted.
    rewrite (testBareSquare_truthy x Hx), (testBareSquare_truthy y Hy).
    cbn [andb]. rewrite Hpx, Hpy, Hok. reflexivity.
Qed.

Lemma pair_command_idempotent_witness :
  exists s',
    processVoiceCommand 0 (initialState player) "e2 to e4" = Done s'
    /\ processVoiceCommand 1 s' "e2 to e4" = Done s'.
Proof.
  apply (pair_command_idempotent 0 1 (initialState player) "e2 to e4").
  - split; [reflexivity | repeat constructor].
  - reflexivity.
Defined.

Example bare_command_twice :
  exists s1 s2,
    runEvents (initialState player)
      [(0, Voice "e4"); (1, Voice "d5"); (2, Voice "d5")] = Done s1
    /\ processVoiceCommand 3 s1 "d5" = Done s2
    /\ length (moveHistory s1) = 3%nat
    /\ length (moveHistory s2) = 4%nat.
Proof. eexists _, _. repeat split; vm_compute; reflexivity. Qed.

(** ** The basic variant *)

Lemma Basic_isValidMove_spec (b : Board) (cp : Color)
    (fromRow fromCol toRow toCol : Z) :
  wfBoard b ->
  Basic.isValidMove b cp fromRow fromCol toRow toCol = Done true
  <-> exists p, board_get b fromRow fromCol = Done (Some p)
                /\ color p = cp
                /\ inGrid toRow toCol = true
                /\ targetFree b p toRow toCol.
Proof.
  intros Hwf. pose proof (wfBoard_rows b Hwf) as Hlen.
  unfold Basic.isValidMove, targetFree. split.
  - destruct (board_get b fromRow fromCol) as [[p |] | | |]; cbn [bind];
      try discriminate.
    destruct (Color_eqb (color p) cp) eqn:Hcol; cbn [negb];
      [| discriminate].
    rewrite bounds_check.
    destruct (inGrid toRow toCol) eqn:Hto; cbn [negb]; [| discriminate].
    destruct (board_get b toRow toCol) as [target | | |]; cbn [bind];
      try discriminate.
    intros H. exists p. split; [reflexivity |].
    split; [apply Color_eqb_eq, Hcol |]. split; [reflexivity |].
    intros t Ht Hc. injection Ht as ->.
    rewrite Hc, Color_eqb_refl in H. discriminate H.
  - intros (p & Hp & Hcol & Hto & Hfree). subst cp. rewrite Hp. cbn [bind].
    rewrite Color_eqb_refl, bounds_check, Hto. cbn [negb].
    pose proof Hto as Hto'. apply inGrid_true in Hto' as [Htr _].
    destruct (board_get_Done b toRow toCol Hlen Htr) as [target Htarget].
    rewrite Htarget. cbn [bind]. destruct target as [t |]; [| reflexivity].
    destruct (Color_eqb (color t) (color p)) eqn:Ht; [| reflexivity].
    apply Color_eqb_eq in Ht. exfalso. exact (Hfree t Htarget Ht).
Qed.

(** X16: the basic variant judges a move legal exactly when the origin
    holds a piece of the side to move and the destination is a square of
    the board not holding a piece of that side, whatever the piece and the
    squares in between; every move the rule-based [isValidMove] accepts is
    accepted by the basic one. *)
Theorem basic_variant_accepts (b : Board) (cp : Color)
    (fromRow fromCol toRow toCol : Z) :
  wfBoard b ->
  (Basic.isValidMove b cp fromRow fromCol toRow toCol = Done true
   <-> exists p, board_get b fromRow fromCol = Done (Some p)
                 /\ color p = cp
                 /\ inGrid toRow toCol = true
                 /\ targetFree b p toRow toCol)
  /\ (isValidMove b cp fromRow fromCol toRow toCol = Done true ->
      Basic.isValidMove b cp fromRow fromCol toRow toCol = Done true).
Proof.
  intros Hwf. split; [apply Basic_isValidMove_spec, Hwf |].
  intros Hvalid. apply Basic_isValidMove_spec; [exact Hwf |].
  destruct (isValidMove_true_inv _ _ _ _ _ _ Hvalid) as (p & Hp & _).
  destruct (isValidMove_on_piece b cp fromRow fromCol toRow toCol p Hwf Hp)
    as (r & Hr & Hiff).
  rewrite Hvalid in Hr. injection Hr as <-.
  destruct (proj1 Hiff eq_refl) as (Hc & Hto & _ & Hfree & _).
  exists p. done.
Qed.

Lemma basic_variant_accepts_witness :
  Basic.isValidMove initialBoard white 7 0 0 0 = Done true
  <-> exists p, board_get initialBoard 7 0 = Done (Some p)
                /\ color p = white
                /\ inGrid 0 0 = true
                /\ targetFree initialBoard p 0 0.
Proof.
  apply (basic_variant_accepts initialBoard white 7 0 0 0).
  split; [reflexivity | repeat constructor].
Defined.

(** X17: with a square selected, a click on a square of the board to
    which the rule-based [isValidMove] accepts the move has the same
    outcome in the click handlers of both variants: the move is executed
    by the statements of [executeMove]. *)
Theorem basic_click_agrees (now : Z) (s : GameState)
    (fromRow fromCol r c : Z) :
  wfBoard (board s) ->
  gameStarted s = true ->
  selectedSquare s = Some (mkSquare fromRow fromCol) ->
  isValidMove (board s) (currentPlayer s) fromRow fromCol r c = Done true ->
  exists s',
    executeMove now s fromRow fromCol r c = Done s'
    /\ handleSquareClick now s r c = Done s'
    /\ Basic.handleSquareClick now s r c = Done s'.
Proof.
  intros Hwf Hstarted Hsel Hvalid.
  destruct (isValidMove_true_inv _ _ _ _ _ _ Hvalid)
    as (p & Hp & Hcol & Hto & Hne).
  destruct (executeMove_Done now s fromRow fromCol r c p Hwf Hp Hto Hne)
    as (s' & Hs' & _).
  assert (Hbasic : Basic.isValidMove (board s) (currentPlayer s)
                     fromRow fromCol r c = Done true).
  { apply Basic_isValidMove_spec; [exact Hwf |].
    destruct (isValidMove_on_piece (board s) (currentPlayer s)
                fromRow fromCol r c p Hwf Hp) as (ok & Hok & Hiff).
    rewrite Hvalid in Hok. injection Hok as <-.
    destruct (proj1 Hiff eq_refl) as (_ & _ & _ & Hfree & _).
    exists p. done. }
  assert (Hsame : (fromRow =? r) && (fromCol =? c) = false).
  { apply andb_false_iff. destruct Hne; [left | right];
      apply Z.eqb_neq; assumption. }
  exists s'. split; [exact Hs' |].
  unfold handleSquareClick, Basic.handleSquareClick.
  rewrite Hstarted, Hsel, Hsame, Hvalid, Hbasic. cbn [negb bind].
  split; exact Hs'.
Qed.

Lemma basic_click_agrees_witness :
  exists s',
    executeMove 0
      (setSelection (Some (mkSquare 6 4)) [] (initialState player)) 6 4 4 4
    = Done s'
    /\ handleSquareClick 0
         (setSelection (Some (mkSquare 6 4)) [] (initialState player)) 4 4
       = Done s'
    /\ Basic.handleSquareClick 0
         (setSelection (Some (mkSquare 6 4)) [] (initialState player)) 4 4
       = Done s'.
Proof.
  apply (basic_click_agrees 0
           (setSelection (Some (mkSquare 6 4)) [] (initialState player))
           6 4 4 4).
  - split; [reflexivity | repeat constructor].
  - reflexivity.
  - reflexivity.
  - reflexivity.
Defined.

(** ** The loop of [isPathClear] on arbitrary arguments *)

Lemma isPathClear_loop_modelled (b : Board) (rs cs tr tc : Z) :
  forall (fuel : nat) (cr cc : Z),
    snd (isPathClear_loop b fuel rs cs tr tc cr cc) <> Unmodelled.
Proof.
  induction fuel as [| fuel IH]; intros cr cc; [discriminate |].
  rewrite isPathClear_loop_S.
  destruct (negb (cr =? tr) || negb (cc =? tc)); [| discriminate].
  unfold board_get. destruct (cr <? 0); [discriminate |].
  destruct (b !! Z.to_nat cr); [| discriminate].
  destruct (cc <? 0); [apply IH |].
  destruct (default None (l !! Z.to_nat cc)); [discriminate | apply IH].
Qed.

(** X18: whatever the board and the four coordinates, the loop of
    [isPathClear] comes to an end: within
    [length board + |toCol - fromCol| + 1] evaluations of its condition it
    returns an answer or throws on a row the board does not have, and
    more evaluations change nothing. *)
Theorem isPathClear_always_ends (b : Board) (fromRow fromCol toRow toCol : Z) :
  exists (reads : list Square) (outcome : run bool),
    (forall fuel : nat,
        (pathFuel b fromCol toCol <= fuel)%nat ->
        isPathClear_run b fuel fromRow fromCol toRow toCol = (reads, outcome))
    /\ isPathClear b fromRow fromCol toRow toCol = outcome
    /\ (outcome = TypeError \/ exists r, outcome = Done r).
Proof.
  destruct (isPathClear_fuel_adequate b fromRow fromCol toRow toCol)
    as [Hfuel Hmore].
  exists (fst (isPathClear_run b (pathFuel b fromCol toCol)
                 fromRow fromCol toRow toCol)),
    (isPathClear b fromRow fromCol toRow toCol).
  split; [| split; [reflexivity |]].
  - intros fuel Hle. rewrite (Hmore fuel Hle). unfold isPathClear.
    destruct (isPathClear_run b (pathFuel b fromCol toCol)
                fromRow fromCol toRow toCol); reflexivity.
  - pose proof (isPathClear_loop_modelled b (stepOf fromRow toRow)
                  (stepOf fromCol toCol) toRow toCol
                  (pathFuel b fromCol toCol)
                  (fromRow + stepOf fromRow toRow)
                  (fromCol + stepOf fromCol toCol)) as Hmod.
    unfold isPathClear, isPathClear_run in *.
    destruct (snd _) as [r | | |]; [eauto | auto | done | done].
Qed.

(** ** The reply of the engine *)

Lemma executeMove_timers (now : Z) (s s' : GameState)
    (fromRow fromCol toRow toCol : Z) :
  executeMove now s fromRow fromCol toRow toCol = Done s' ->
  gameMode s' = gameMode s
  /\ engineTimers s'
     = match gameMode s, currentPlayer s with
       | engine, white => S (engineTimers s)
       | _, _ => engineTimers s
       end.
Proof.
  unfold executeMove.
  destruct (board_get (board s) fromRow fromCol) as [cell | | |];
    cbn [bind]; try discriminate.
  destruct (board_set (board s) toRow toCol cell) as [b1 | | |]; cbn [bind];
    try discriminate.
  destruct (board_set b1 fromRow fromCol None) as [b2 | | |]; cbn [bind];
    try discriminate.
  intros H. injection H as <-. cbn. done.
Qed.

Lemma makeEngineMove_Done (now : Z) (pick : nat) (s : GameState) :
  (pick < 4)%nat ->
  exists s' reply,
    makeEngineMove now pick s = Done s'
    /\ board s' = board s
    /\ currentPlayer s' = white
    /\ moveHistory s' = moveHistory s ++ [reply]
    /\ piece reply = "pawn"
    /\ notation reply = toText (from reply) +:+ "-" +:+ toText (to reply)
    /\ (exists sq, parseSquareNotation (from reply) = Some sq
                   /\ inGrid (row sq) (col sq) = true)
    /\ (exists sq, parseSquareNotation (to reply) = Some sq
                   /\ inGrid (row sq) (col sq) = true).
Proof.
  intros Hpick.
  destruct pick as [| [| [| [| pick]]]]; [.. | lia];
    (eexists _, _; split; [reflexivity |]; cbn;
     repeat split; try reflexivity; eexists; split; reflexivity).
Qed.

(** X19: in a game against the engine, an accepted move of white sets one
    timer, and when its callback [makeEngineMove] then runs, it appends
    one record that names a "pawn" and two squares of the board, gives the
    turn back to white, so that the turn is again in step with the
    history, and leaves the board as white's move left it: the reply is
    recorded, not played. *)
Theorem engine_reply_recorded (now now' : Z) (pick : nat) (s : GameState)
    (fromRow fromCol toRow toCol : Z) :
  wfBoard (board s) ->
  gameMode s = engine ->
  currentPlayer s = white ->
  turnMatchesHistory s ->
  isValidMove (board s) white fromRow fromCol toRow toCol = Done true ->
  (pick < 4)%nat ->
  exists s1 s2 reply,
    executeMove now s fromRow fromCol toRow toCol = Done s1
    /\ engineTimers s1 = S (engineTimers s)
    /\ makeEngineMove now' pick s1 = Done s2
    /\ board s2 = board s1
    /\ currentPlayer s2 = white
    /\ moveHistory s2 = moveHistory s1 ++ [reply]
    /\ piece reply = "pawn"
    /\ (exists sq, parseSquareNotation (from reply) = Some sq
                   /\ inGrid (row sq) (col sq) = true)
    /\ (exists sq, parseSquareNotation (to reply) = Some sq
                   /\ inGrid (row sq) (col sq) = true)
    /\ turnMatchesHistory s2.
Proof.
  intros Hwf Hmode Hwhite Hturn Hvalid Hpick. rewrite <- Hwhite in Hvalid.
  destruct (isValidMove_true_inv _ _ _ _ _ _ Hvalid)
    as (p & Hp & _ & Hto & Hne).
  destruct (executeMove_Done now s fromRow fromCol toRow toCol p Hwf Hp Hto Hne)
    as (s1 & Hs1 & _ & _).
  destruct (executeMove_timers _ _ _ _ _ _ _ Hs1) as [_ Htimers].
  destruct (executeMove_turn _ _ _ _ _ _ _ Hs1) as (Hc1 & m & Hh1).
  destruct (makeEngineMove_Done now' pick s1 Hpick)
    as (s2 & reply & Hs2 & Hb & Hc & Hh & Hpiece & _ & Hfrom & Hdest).
  exists s1, s2, reply. rewrite Hmode, Hwhite in Htimers.
  repeat split; try done.
  unfold turnMatchesHistory in *. rewrite Hc, Hh, Hh1, !length_app.
  cbn [length]. rewrite Hwhite in Hturn.
  replace (length (moveHistory s) + 1 + 1)%nat
    with (S (S (length (moveHistory s)))) by lia.
  cbn [Nat.even].
  destruct (Nat.even (length (moveHistory s))); [reflexivity | discriminate].
Qed.

Lemma engine_reply_recorded_witness :
  exists s1 s2 reply,
    executeMove 0 (initialState engine) 6 4 4 4 = Done s1
    /\ engineTimers s1 = S (engineTimers (initialState engine))
    /\ makeEngineMove 1 0 s1 = Done s2
    /\ board s2 = board s1
    /\ currentPlayer s2 = white
    /\ moveHistory s2 = moveHistory s1 ++ [reply]
    /\ piece reply = "pawn"
    /\ (exists sq, parseSquareNotation (from reply) = Some sq
                   /\ inGrid (row sq) (col sq) = true)
    /\ (exists sq, parseSquareNotation (to reply) = Some sq
                   /\ inGrid (row sq) (col sq) = true)
    /\ turnMatchesHistory s2.
Proof.
  apply (engine_reply_recorded 0 1 0 (initialState engine) 6 4 4 4).
  - split; [reflexivity | repeat constructor].
  - reflexivity.
  - reflexivity.
  - reflexivity.
  - reflexivity.
  - lia.
Defined.

(** ** The filter of VoiceControls and the commands of the board *)

(** [+:+] computes on a literal prefix. *)
#[local] Arguments String.append !_ _ / : simpl nomatch.

Lemma append_assoc (a b c : string) : (a +:+ b) +:+ c = a +:+ b +:+ c.
Proof. induction a as [| x a IH]; cbn [String.append]; congruence. Qed.

Lemma stripPrefix_Some (p s r : string) :
  stripPrefix p s = Some r -> s = p +:+ r.
Proof.
  revert s. induction p as [| a p IH]; intros s; cbn.
  - intros H. by injection H as ->.
  - destruct s as [| b s]; [discriminate |].
    destruct (Ascii.eqb_spec a b) as [-> | _]; [| discriminate].
    intros H. by rewrite (IH _ H).
Qed.

Lemma thenMatch_true (w : string) (k : string -> bool) (s : string) :
  thenMatch w k s = true -> exists rest, s = w +:+ rest /\ k rest = true.
Proof.
  unfold thenMatch. destruct (stripPrefix w s) as [rest |] eqn:Hp;
    [| discriminate].
  intros Hk. exists rest. split; [exact (stripPrefix_Some _ _ _ Hp) | exact Hk].
Qed.

Lemma allChars_app (P : ascii -> bool) (a b : string) :
  allChars P (a +:+ b) = allChars P a && allChars P b.
Proof.
  induction a as [| c a IH]; cbn; [reflexivity |].
  by rewrite IH, andb_assoc.
Qed.

Lemma allChars_impl (P Q : ascii -> bool) (s : string) :
  (forall c, P c = true -> Q c = true) ->
  allChars P s = true -> allChars Q s = true.
Proof.
  intros HPQ. induction s as [| c s IH]; cbn; [reflexivity |].
  intros H. apply andb_true_iff in H as [Hc Hs].
  by rewrite (HPQ _ Hc), (IH Hs).
Qed.

Lemma trimStart_split (s : string) :
  exists ws, s = ws +:+ trimStart s /\ allChars isWhiteSpace ws = true.
Proof.
  induction s as [| c s (ws & Hs & Hws)]; [by exists EmptyString |].
  cbn [trimStart]. destruct (isWhiteSpace c) eqn:Hc.
  - exists (String c ws). cbn. by rewrite Hc, Hws, <- Hs.
  - by exists EmptyString.
Qed.

Ltac each_char c :=
  destruct c as [[] [] [] [] [] [] [] []]; vm_compute;
  try reflexivity; try discriminate; intros; try discriminate.

Lemma white_plain (c : ascii) : isWhiteSpace c = true -> plainChar c = true.
Proof. each_char c. Qed.

Lemma white_not_file (c : ascii) :
  isWhiteSpace c = true -> isFileChar c = false.
Proof. each_char c. Qed.

Lemma file_plain (c : ascii) : isFileChar c = true -> plainChar c = true.
Proof. each_char c. Qed.

Lemma file_not_white (c : ascii) :
  isFileChar c = true -> isWhiteSpace c = false.
Proof. each_char c. Qed.

Lemma file_not_break (c : ascii) :
  isFileChar c = true -> isLineTerminator c = false.
Proof. each_char c. Qed.

Lemma rank_lower (c : ascii) : isRankChar c = true -> lowerChar c = c.
Proof. each_char c. Qed.

Lemma rank_not_white (c : ascii) :
  isRankChar c = true -> isWhiteSpace c = false.
Proof. each_char c. Qed.

Lemma rank_not_break (c : ascii) :
  isRankChar c = true -> isLineTerminator c = false.
Proof. each_char c. Qed.

Lemma rank_not_file (c : ascii) : isRankChar c = true -> isFileChar c = false.
Proof. each_char c. Qed.

Lemma plain_lower (c : ascii) : plainChar c = true -> lowerChar c = c.
Proof.
  unfold plainChar. intros H. apply andb_true_iff in H as [H _].
  by destruct (Ascii.eqb_spec (lowerChar c) c).
Qed.

Lemma plain_not_rank (c : ascii) : plainChar c = true -> isRankChar c = false.
Proof.
  unfold plainChar. intros H. apply andb_true_iff in H as [_ H].
  by destruct (isRankChar c).
Qed.

Lemma toLowerCase_app (a b : string) :
  toLowerCase (a +:+ b) = toLowerCase a +:+ toLowerCase b.
Proof. induction a as [| c a IH]; cbn; [reflexivity | by rewrite IH]. Qed.

Lemma toLowerCase_plain (s : string) :
  allChars plainChar s = true -> toLowerCase s = s.
Proof.
  induction s as [| c s IH]; cbn; [reflexivity |].
  intros H. apply andb_true_iff in H as [Hc Hs].
  by rewrite (plain_lower _ Hc), (IH Hs).
Qed.

Lemma toLowerCase_bare (s : string) :
  testBareSquare s = true -> toLowerCase s = s.
Proof.
  destruct s as [| f [| r [| c s]]]; cbn [testBareSquare]; try discriminate.
  intros H. apply andb_true_iff in H as [Hf Hr]. cbn.
  by rewrite (plain_lower _ (file_plain _ Hf)), (rank_lower _ Hr).
Qed.

Lemma trimEnd_app (a b : string) :
  trimEnd b = b -> b <> EmptyString -> trimEnd (a +:+ b) = a +:+ b.
Proof.
  intros Hb Hne. induction a as [| c a IH]; cbn [String.append trimEnd];
    [exact Hb |].
  rewrite IH. destruct (a +:+ b) as [| x y] eqn:Hab; [| reflexivity].
  destruct a; cbn in Hab; [contradiction | discriminate].
Qed.

Lemma trimEnd_bare (s : string) : testBareSquare s = true -> trimEnd s = s.
Proof.
  destruct s as [| f [| r [| c s]]]; cbn [testBareSquare]; try discriminate.
  intros H. apply andb_true_iff in H as [_ Hr]. cbn.
  by rewrite (rank_not_white _ Hr).
Qed.

Lemma bare_not_empty (s : string) :
  testBareSquare s = true -> s <> EmptyString.
Proof. by destruct s. Qed.

Lemma trimStart_spaces_bare (ws sq : string) :
  allChars isWhiteSpace ws = true -> testBareSquare sq = true ->
  trimStart (ws +:+ sq) = sq.
Proof.
  intros Hws Hsq. induction ws as [| c ws IH]; cbn.
  - destruct sq as [| f [| r [| c s]]]; cbn [testBareSquare] in Hsq;
      try discriminate.
    apply andb_true_iff in Hsq as [Hf _]. cbn.
    by rewrite (file_not_white _ Hf).
  - cbn in Hws. apply andb_true_iff in Hws as [Hc Hws]. rewrite Hc.
    exact (IH Hws).
Qed.

(** No square is named inside a run of plain characters, and a square that
    follows the run is the first one that the lazy star reaches, unless a
    line terminator stops the dot before it. *)
Lemma countSquares_plain_app (a sq : string) :
  allChars plainChar a = true -> testBareSquare sq = true ->
  countSquares (a +:+ sq) = 1%nat.
Proof.
  intros Ha Hsq. induction a as [| c a IH].
  - destruct sq as [| f [| r [| c s]]]; cbn [testBareSquare] in Hsq;
      try discriminate.
    cbn. by rewrite Hsq.
  - cbn in Ha. apply andb_true_iff in Ha as [Hc Ha]. specialize (IH Ha).
    cbn [String.append]. destruct (a +:+ sq) as [| x y] eqn:Hab;
      [discriminate IH |].
    rewrite countSquares_cons, IH.
    assert (Hx : isRankChar x = false).
    { destruct a as [| c' a']; cbn in Hab.
      - subst sq. destruct y as [| r [| c' s]]; cbn [testBareSquare] in Hsq;
          try discriminate.
        apply andb_true_iff in Hsq as [Hf _].
        exact (plain_not_rank _ (file_plain _ Hf)).
      - injection Hab as -> _. cbn in Ha.
        apply andb_true_iff in Ha as [Hc' _]. exact (plain_not_rank _ Hc'). }
    by rewrite Hx, andb_false_r.
Qed.

Lemma countSquares_plain (a : string) :
  allChars plainChar a = true -> countSquares a = 0%nat.
Proof.
  induction a as [| c a IH]; [reflexivity |]. cbn [allChars].
  intros H. apply andb_true_iff in H as [Hc Ha]. specialize (IH Ha).
  destruct a as [| x y]; [reflexivity |]. rewrite countSquares_cons, IH.
  cbn in Ha. apply andb_true_iff in Ha as [Hx _].
  by rewrite (plain_not_rank _ Hx), andb_false_r.
Qed.

Lemma hasLineTerminator_cons (c : ascii) (s : string) :
  hasLineTerminator (String c s) = isLineTerminator c || hasLineTerminator s.
Proof.
  unfold hasLineTerminator. cbn [allChars]. by rewrite negb_andb, negb_involutive.
Qed.

Lemma hasLineTerminator_app (a b : string) :
  hasLineTerminator (a +:+ b) = hasLineTerminator a || hasLineTerminator b.
Proof.
  unfold hasLineTerminator. by rewrite allChars_app, negb_andb.
Qed.

Lemma hasLineTerminator_bare (s : string) :
  testBareSquare s = true -> hasLineTerminator s = false.
Proof.
  destruct s as [| f [| r [| c s]]]; cbn [testBareSquare]; try discriminate.
  intros H. apply andb_true_iff in H as [Hf Hr].
  rewrite !hasLineTerminator_cons.
  by rewrite (file_not_break _ Hf), (rank_not_break _ Hr).
Qed.

Lemma lazyThenSquare_plain_app (a sq : string) :
  allChars plainChar a = true -> testBareSquare sq = true ->
  lazyThenSquare (a +:+ sq)
  = if hasLineTerminator a then None else Some sq.
Proof.
  intros Ha Hsq. induction a as [| c a IH].
  - destruct sq as [| f [| r [| c s]]]; cbn [testBareSquare] in Hsq;
      try discriminate.
    cbn [String.append lazyThenSquare]. by rewrite Hsq.
  - cbn in Ha. apply andb_true_iff in Ha as [Hc Ha]. specialize (IH Ha).
    rewrite hasLineTerminator_cons. cbn [String.append].
    destruct (a +:+ sq) as [| x y] eqn:Hab.
    { destruct a; cbn in Hab; [subst sq |]; discriminate. }
    cbn [lazyThenSquare].
    assert (Hx : isRankChar x = false).
    { destruct a as [| c' a']; cbn in Hab.
      - subst sq. destruct y as [| r [| c' s]]; cbn [testBareSquare] in Hsq;
          try discriminate.
        apply andb_true_iff in Hsq as [Hf _].
        exact (plain_not_rank _ (file_plain _ Hf)).
      - injection Hab as -> _. cbn in Ha.
        apply andb_true_iff in Ha as [Hc' _]. exact (plain_not_rank _ Hc'). }
    rewrite Hx, andb_false_r.
    destruct (isLineTerminator c); [reflexivity | exact IH].
Qed.

Lemma matchSquarePair_few (s : string) :
  (countSquares s <= 1)%nat -> matchSquarePair s = None.
Proof.
  intros Hcount. destruct (matchSquarePair s) as [p |] eqn:Hpair;
    [| reflexivity].
  apply matchSquarePair_count in Hpair. lia.
Qed.

Lemma matchSquarePair_cons (f r : ascii) (rest : string) :
  matchSquarePair (String f (String r rest))
  = if isFileChar f && isRankChar r then
      match lazyThenSquare rest with
      | Some second => Some (String f (String r EmptyString), second)
      | None => matchSquarePair (String r rest)
      end
    else matchSquarePair (String r rest).
Proof. reflexivity. Qed.

Lemma moveVerbs_plain (v : string) :
  In v moveVerbs -> allChars plainChar v = true.
Proof.
  assert (H : forallb (allChars plainChar) moveVerbs = true) by reflexivity.
  rewrite forallb_forall in H. exact (H v).
Qed.

(** The shape of a transcript in long notation. *)
Lemma matchLongNotation_shape (t : string) :
  matchLongNotation t = true ->
  exists origin middle dest,
    t = origin +:+ middle +:+ dest
    /\ testBareSquare origin = true
    /\ testBareSquare dest = true
    /\ allChars plainChar middle = true.
Proof.
  destruct t as [| f [| r rest]]; cbn [matchLongNotation]; try discriminate.
  intros H. apply andb_true_iff in H as [Hsq Hrest].
  unfold spacesThen in Hrest. apply existsb_exists in Hrest as (v & Hv & Hm).
  apply thenMatch_true in Hm as (u & Hu & Hdest).
  destruct (trimStart_split rest) as (ws1 & Hrest & Hws1).
  destruct (trimStart_split u) as (ws2 & Hu2 & Hws2).
  exists (String f (String r EmptyString)), (ws1 +:+ v +:+ ws2), (trimStart u).
  repeat split.
  - cbn [String.append]. rewrite !append_assoc, <- Hu2, <- Hu, <- Hrest.
    reflexivity.
  - exact Hsq.
  - exact Hdest.
  - rewrite !allChars_app, (moveVerbs_plain v Hv).
    by rewrite (allChars_impl _ _ ws1 white_plain Hws1),
      (allChars_impl _ _ ws2 white_plain Hws2).
Qed.

(** What the board extracts from a transcript that is already trimmed and
    in lower case, and that starts and ends with a square. *)
Lemma framed_transcript (origin middle dest : string) :
  testBareSquare origin = true ->
  testBareSquare dest = true ->
  allChars plainChar middle = true ->
  let t := origin +:+ middle +:+ dest in
  trim (toLowerCase t) = t
  /\ testBareSquare t = false
  /\ hasLineTerminator t = hasLineTerminator middle
  /\ matchSquarePair t
     = if hasLineTerminator middle then None else Some (origin, dest).
Proof.
  intros Ho Hd Hm t. subst t.
  assert (Hlower : toLowerCase (origin +:+ middle +:+ dest)
                   = origin +:+ middle +:+ dest).
  { by rewrite !toLowerCase_app, (toLowerCase_bare _ Ho),
      (toLowerCase_bare _ Hd), (toLowerCase_plain _ Hm). }
  pose proof (lazyThenSquare_plain_app middle dest Hm Hd) as Hlazy.
  pose proof (countSquares_plain_app middle dest Hm Hd) as Hcount.
  pose proof (bare_not_empty _ Hd) as Hne.
  destruct origin as [| f [| r [| c s]]]; cbn [testBareSquare] in Ho;
    try discriminate.
  pose proof Ho as Ho'. apply andb_true_iff in Ho' as [Hf Hr].
  repeat split.
  - rewrite Hlower. unfold trim.
    assert (Hstart : trimStart (String f (String r EmptyString)
                                +:+ middle +:+ dest)
                     = String f (String r EmptyString) +:+ middle +:+ dest).
    { cbn [String.append trimStart]. by rewrite (file_not_white _ Hf). }
    rewrite Hstart, <- append_assoc.
    apply trimEnd_app; [exact (trimEnd_bare _ Hd) | exact Hne].
  - cbn [String.append testBareSquare].
    destruct (middle +:+ dest) as [| x y] eqn:Hmd; [| reflexivity].
    destruct middle; cbn in Hmd; [contradiction | discriminate].
  - cbn [String.append]. rewrite !hasLineTerminator_cons, hasLineTerminator_app.
    rewrite (file_not_break _ Hf), (rank_not_break _ Hr),
      (hasLineTerminator_bare _ Hd).
    by rewrite orb_false_r.
  - cbn [String.append]. rewrite matchSquarePair_cons, Ho, Hlazy.
    destruct (hasLineTerminator middle); [| reflexivity].
    apply matchSquarePair_few.
    destruct (middle +:+ dest) as [| x y] eqn:Hmd; [cbn; lia |].
    rewrite countSquares_cons, Hcount, (rank_not_file _ Hr). cbn. lia.
Qed.

(** X20: a transcript in long notation, a square, one of the words "to",
    "take", "takes", "capture" or "captures" with or without white space
    around it, and a square, is handed on by [processChessMove], and the
    board reads it as the move from the first square to the second: it
    makes the move if [isValidMove] accepts it and leaves the state as it
    is otherwise. The one exception is a line terminator in the white
    space, which the filter lets through and at which the pattern of the
    board stops: such a transcript is dropped. *)
Theorem long_notation_read (now : Z) (s : GameState) (transcript : string) :
  wfBoard (board s) ->
  gameStarted s = true ->
  matchLongNotation transcript = true ->
  processChessMove transcript = Some transcript
  /\ exists origin middle dest fromRow fromCol toRow toCol ok,
       transcript = origin +:+ middle +:+ dest
       /\ inGrid fromRow fromCol = true
       /\ inGrid toRow toCol = true
       /\ getSquareNotation fromRow fromCol = Str origin
       /\ getSquareNotation toRow toCol = Str dest
       /\ isValidMove (board s) (currentPlayer s) fromRow fromCol toRow toCol
          = Done ok
       /\ processVoiceCommand now s transcript
          = if hasLineTerminator transcript then Done s
            else if ok then executeMove now s fromRow fromCol toRow toCol
            else Done s.
Proof.
  intros Hwf Hstarted Hlong. split.
  { unfold processChessMove, movePatterns. cbn [firstMatch]. rewrite Hlong.
    by destruct (testBareSquare transcript), (matchPieceSquare transcript),
      (matchCastling transcript). }
  destruct (matchLongNotation_shape _ Hlong)
    as (origin & middle & dest & -> & Ho & Hd & Hm).
  destruct (framed_transcript origin middle dest Ho Hd Hm)
    as (Htrim & Hbare & Hbreak & Hpair).
  destruct (moveExtracted_squares now s origin dest Hwf Ho Hd)
    as (fromRow & fromCol & toRow & toCol & Hfrom & Hpo & Hpd & ok & Hok
        & Hmove).
  destruct (getSquareNotation_name origin Ho) as (r1 & c1 & Hin1 & Hp1 & Hn1).
  destruct (getSquareNotation_name dest Hd) as (r2 & c2 & Hin2 & Hp2 & Hn2).
  rewrite Hpo in Hp1. injection Hp1 as <- <-.
  rewrite Hpd in Hp2. injection Hp2 as <- <-.
  exists origin, middle, dest, fromRow, fromCol, toRow, toCol, ok.
  repeat split; try done.
  - unfold processVoiceCommand, extractSquares.
    rewrite Hstarted, Htrim, Hbare, Hpair, Hbreak. cbn [negb].
    destruct (hasLineTerminator middle); cbn [bind fst snd];
      [reflexivity | exact Hmove].
Qed.

Lemma long_notation_read_witness :
  processChessMove "e2 to e4" = Some "e2 to e4"
  /\ exists origin middle dest fromRow fromCol toRow toCol ok,
       "e2 to e4" = origin +:+ middle +:+ dest
       /\ inGrid fromRow fromCol = true
       /\ inGrid toRow toCol = true
       /\ getSquareNotation fromRow fromCol = Str origin
       /\ getSquareNotation toRow toCol = Str dest
       /\ isValidMove (board (initialState player))
            (currentPlayer (initialState player)) fromRow fromCol toRow toCol
          = Done ok
       /\ processVoiceCommand 0 (initialState player) "e2 to e4"
          = if hasLineTerminator "e2 to e4" then Done (initialState player)
            else if ok
                 then executeMove 0 (initialState player)
                        fromRow fromCol toRow toCol
                 else Done (initialState player).
Proof.
  apply (long_notation_read 0 (initialState player) "e2 to e4").
  - split; [reflexivity | repeat constructor].
  - reflexivity.
  - reflexivity.
Defined.

Lemma words_plain (ws : list string) (w : string) :
  forallb (allChars plainChar) ws = true -> In w ws ->
  allChars plainChar w = true.
Proof. intros H. rewrite forallb_forall in H. exact (H w). Qed.

(** A word of the patterns starts with a letter. *)
Lemma trimStart_word (ws : list string) (w rest : string) :
  forallb (fun w => match w with
                    | String c _ => negb (isWhiteSpace c)
                    | EmptyString => false
                    end) ws = true ->
  In w ws -> trimStart (w +:+ rest) = w +:+ rest.
Proof.
  intros H Hin. rewrite forallb_forall in H. specialize (H w Hin).
  destruct w as [| c w]; [discriminate H |].
  cbn [String.append trimStart]. by destruct (isWhiteSpace c).
Qed.

Lemma extractSquares_few (s : GameState) (t : string) :
  testBareSquare t = false -> (countSquares t <= 1)%nat ->
  extractSquares s t = Done (None, None).
Proof.
  intros Hbare Hcount. unfold extractSquares.
  by rewrite Hbare, (matchSquarePair_few _ Hcount).
Qed.

(** The shape of a transcript with a piece word. *)
Lemma matchPieceSquare_shape (t : string) :
  matchPieceSquare t = true ->
  testBareSquare (trimStart t) = false ->
  exists words dest,
    t = words +:+ dest
    /\ trimStart t = t
    /\ allChars plainChar words = true
    /\ testBareSquare dest = true.
Proof.
  unfold matchPieceSquare, spacesThen at 2. intros H Hbare.
  rewrite Hbare, orb_false_r in H.
  apply existsb_exists in H as (w & Hw & Hm).
  apply thenMatch_true in Hm as (rest & -> & Hdest). unfold spacesThen in Hdest.
  destruct (trimStart_split rest) as (ws & Hrest & Hws).
  exists (w +:+ ws), (trimStart rest). repeat split.
  - by rewrite append_assoc, <- Hrest.
  - by apply (trimStart_word pieceWords).
  - rewrite allChars_app, (words_plain pieceWords w eq_refl Hw).
    exact (allChars_impl _ _ ws white_plain Hws).
  - exact Hdest.
Qed.

(** The shape of a castling transcript. *)
Lemma matchCastling_shape (t : string) :
  matchCastling t = true ->
  allChars plainChar t = true /\ trim t = t.
Proof.
  unfold matchCastling. intros H.
  apply existsb_exists in H as (w & Hw & Hm).
  apply thenMatch_true in Hm as (rest & -> & Hside). unfold spacesThen in Hside.
  destruct (trimStart_split rest) as (ws & Hrest & Hws).
  assert (Hend : exists k e,
             trimStart rest = k +:+ e
             /\ allChars plainChar k = true
             /\ (e = "sid" \/ e = "side")).
  { apply orb_true_iff in Hside as [Hside | Hside].
    - apply existsb_exists in Hside as (k & Hk & Hm).
      apply thenMatch_true in Hm as (e & He & Hm). exists k, e.
      split; [exact He |].
      split; [exact (words_plain ["king"; "queen"] k eq_refl Hk) |].
      unfold matchSideEnd in Hm.
      apply orb_true_iff in Hm as [Hm | Hm]; apply String.eqb_eq in Hm; auto.
    - exists EmptyString, (trimStart rest). repeat split.
      unfold matchSideEnd in Hside.
      apply orb_true_iff in Hside as [Hm | Hm]; apply String.eqb_eq in Hm;
        auto. }
  destruct Hend as (k & e & Hke & Hk & He).
  rewrite Hrest, Hke.
  assert (Hplain : allChars plainChar e = true /\ trimEnd e = e
                   /\ e <> EmptyString).
  { destruct He as [-> | ->]; done. }
  destruct Hplain as (Hplain & Htrim & Hne).
  split.
  - rewrite !allChars_app, (words_plain ["castle"; "castling"] w eq_refl Hw).
    by rewrite (allChars_impl _ _ ws white_plain Hws), Hk, Hplain.
  - unfold trim. rewrite (trimStart_word ["castle"; "castling"] w _ eq_refl Hw).
    rewrite <- !append_assoc. by apply trimEnd_app.
Qed.

(** X21: [processChessMove] also hands on a transcript that names a piece
    before the square ("knight f3") and a castling transcript ("castle
    kingside"), and the board drops both: whatever the position, the
    state stays as it is. Of the second pattern only a transcript without
    a piece word, a square after white space, is read by the board. *)
Theorem piece_and_castling_dropped (now : Z) (s : GameState)
    (transcript : string) :
  matchPieceSquare transcript = true
  /\ testBareSquare (trimStart transcript) = false
  \/ matchCastling transcript = true ->
  processChessMove transcript = Some transcript
  /\ processVoiceCommand now s transcript = Done s.
Proof.
  intros Hcase. split.
  { unfold processChessMove, movePatterns. cbn [firstMatch].
    destruct (testBareSquare transcript); [reflexivity |].
    destruct Hcase as [[-> _] | ->]; [reflexivity |].
    by destruct (matchPieceSquare transcript). }
  unfold processVoiceCommand. destruct (gameStarted s); cbn [negb];
    [| reflexivity].
  assert (Hfew : trim (toLowerCase transcript) = transcript
                 /\ testBareSquare transcript = false
                 /\ (countSquares transcript <= 1)%nat).
  { destruct Hcase as [[Hpiece Hbare] | Hcastling].
    - destruct (matchPieceSquare_shape _ Hpiece Hbare)
        as (words & dest & -> & Hstart & Hwords & Hdest).
      rewrite Hstart in Hbare.
      rewrite toLowerCase_app, (toLowerCase_plain _ Hwords),
        (toLowerCase_bare _ Hdest).
      split; [| split; [exact Hbare |]].
      + unfold trim. rewrite Hstart.
        apply trimEnd_app;
          [exact (trimEnd_bare _ Hdest) | exact (bare_not_empty _ Hdest)].
      + by rewrite (countSquares_plain_app _ _ Hwords Hdest).
    - destruct (matchCastling_shape _ Hcastling) as [Hplain Htrim].
      rewrite (toLowerCase_plain _ Hplain).
      pose proof (countSquares_plain _ Hplain) as Hcount.
      split; [exact Htrim |]. split; [| lia].
      destruct transcript as [| f [| r [| c t]]]; try reflexivity.
      cbn in Hplain. apply andb_true_iff in Hplain as [_ Hr].
      apply andb_true_iff in Hr as [Hr _].
      cbn [testBareSquare]. by rewrite (plain_not_rank _ Hr), andb_false_r. }
  destruct Hfew as (-> & Hbare & Hcount).
  by rewrite (extractSquares_few s _ Hbare Hcount).
Qed.

Lemma piece_and_castling_dropped_witness :
  processChessMove "knight f3" = Some "knight f3"
  /\ processVoiceCommand 0 (initialState player) "knight f3"
     = Done (initialState player).
Proof.
  apply (piece_and_castling_dropped 0 (initialState player) "knight f3").
  left. split; reflexivity.
Defined.

(** X22: while the timer of the engine is pending, the board lets black's
    pieces be moved by hand, since the turn is black's. If such a move is
    accepted before the callback runs, it sets no second timer, and the
    callback then still appends its reply and gives the turn to white:
    three records were added for one pending timer, white is to move with
    an odd number of records more, and the turn is out of step with the
    history. *)
Theorem engine_reply_after_hand_move (now1 now2 now3 : Z) (pick : nat)
    (s s1 : GameState) (fromRow fromCol toRow toCol : Z)
    (fromRow' fromCol' toRow' toCol' : Z) :
  wfBoard (board s) ->
  gameMode s = engine ->
  currentPlayer s = white ->
  turnMatchesHistory s ->
  isValidMove (board s) white fromRow fromCol toRow toCol = Done true ->
  executeMove now1 s fromRow fromCol toRow toCol = Done s1 ->
  isValidMove (board s1) black fromRow' fromCol' toRow' toCol' = Done true ->
  (pick < 4)%nat ->
  exists s2 s3,
    executeMove now2 s1 fromRow' fromCol' toRow' toCol' = Done s2
    /\ engineTimers s2 = S (engineTimers s)
    /\ makeEngineMove now3 pick s2 = Done s3
    /\ board s3 = board s2
    /\ currentPlayer s3 = white
    /\ length (moveHistory s3) = (length (moveHistory s) + 3)%nat
    /\ ~ turnMatchesHistory s3.
Proof.
  intros Hwf Hmode Hwhite Hturn Hvalid Hs1 Hvalid' Hpick.
  rewrite <- Hwhite in Hvalid.
  destruct (isValidMove_true_inv _ _ _ _ _ _ Hvalid)
    as (p & Hp & _ & Hto & Hne).
  destruct (executeMove_Done now1 s fromRow fromCol toRow toCol p
              Hwf Hp Hto Hne) as (s1' & Hs1' & [Hwf1 _] & _).
  rewrite Hs1 in Hs1'. injection Hs1' as <-.
  destruct (executeMove_timers _ _ _ _ _ _ _ Hs1) as [Hmode1 Htimers1].
  destruct (executeMove_turn _ _ _ _ _ _ _ Hs1) as (Hc1 & m1 & Hh1).
  rewrite Hmode, Hwhite in Htimers1. rewrite Hwhite in Hc1. cbn in Hc1.
  rewrite <- Hc1 in Hvalid'.
  destruct (isValidMove_true_inv _ _ _ _ _ _ Hvalid')
    as (p' & Hp' & _ & Hto' & Hne').
  destruct (executeMove_Done now2 s1 fromRow' fromCol' toRow' toCol' p'
              Hwf1 Hp' Hto' Hne') as (s2 & Hs2 & _ & _).
  destruct (executeMove_timers _ _ _ _ _ _ _ Hs2) as [_ Htimers2].
  destruct (executeMove_turn _ _ _ _ _ _ _ Hs2) as (_ & m2 & Hh2).
  rewrite Hc1 in Htimers2.
  assert (Htimers : engineTimers s2 = S (engineTimers s)).
  { rewrite Htimers2. by destruct (gameMode s1). }
  destruct (makeEngineMove_Done now3 pick s2 Hpick)
    as (s3 & reply & Hs3 & Hb & Hc & Hh & _).
  assert (Hlen : length (moveHistory s3) = (length (moveHistory s) + 3)%nat).
  { rewrite Hh, Hh2, Hh1, !length_app. cbn [length]. lia. }
  exists s2, s3. repeat split; try done.
  unfold turnMatchesHistory in *. rewrite Hc, Hlen.
  rewrite Hwhite in Hturn.
  replace (length (moveHistory s) + 3)%nat
    with (S (S (S (length (moveHistory s))))) by lia.
  rewrite Nat.even_succ_succ, Nat.even_succ, <- Nat.negb_even.
  destruct (Nat.even (length (moveHistory s))); [discriminate | discriminate].
Qed.

Lemma engine_reply_after_hand_move_witness :
  exists s1 s2 s3,
    executeMove 0 (initialState engine) 6 4 4 4 = Done s1
    /\ executeMove 1 s1 1 4 3 4 = Done s2
    /\ engineTimers s2 = S (engineTimers (initialState engine))
    /\ makeEngineMove 2 0 s2 = Done s3
    /\ board s3 = board s2
    /\ currentPlayer s3 = white
    /\ length (moveHistory s3)
       = (length (moveHistory (initialState engine)) + 3)%nat
    /\ ~ turnMatchesHistory s3.
Proof.
  destruct (executeMove 0 (initialState engine) 6 4 4 4) as [s1 | | |] eqn:Hs1;
    try discriminate Hs1.
  destruct (engine_reply_after_hand_move 0 1 2 0 (initialState engine) s1
              6 4 4 4 1 4 3 4) as (s2 & s3 & H).
  - split; [reflexivity | repeat constructor].
  - reflexivity.
  - reflexivity.
  - reflexivity.
  - reflexivity.
  - exact Hs1.
  - vm_compute in Hs1. injection Hs1 as <-. reflexivity.
  - lia.
  - exists s1, s2, s3. split; [reflexivity | exact H].
Defined.

(** * The component with its voice effect *)

Lemma withGame_game (c : Component) : withGame c (game c) = c.
Proof. by destruct c. Qed.

Lemma runEffect_S (fuel : nat) (clock : nat -> Z) (k : nat) (c : Component) :
  runEffect (S fuel) clock k c
  = let* g := voiceEffect (clock k) c in
    if boardChanged (game c) g
    then runEffect fuel clock (S k) (withGame c g)
    else Done (withGame c g).
Proof. reflexivity. Qed.

Lemma boardChanged_same (s : GameState) : boardChanged s s = false.
Proof. unfold boardChanged. by rewrite Nat.eqb_refl. Qed.

Lemma boardChanged_noMove (s s' : GameState) :
  noMove s s' -> boardChanged s s' = false.
Proof.
  intros (_ & _ & Hh). unfold boardChanged. by rewrite Hh, Nat.eqb_refl.
Qed.

Lemma acceptedMove_changed (s s' : GameState) :
  acceptedMove s s' -> boardChanged s s' = true.
Proof.
  intros (now & fr & fc & tr & tc & _ & _ & (p & _ & _ & Hh & _) & _).
  unfold boardChanged. rewrite Hh, length_app. cbn [length].
  destruct (Nat.eqb_spec (length (moveHistory s) + 1)
              (length (moveHistory s))); [lia | reflexivity].
Qed.

Lemma noMove_refl (s : GameState) : noMove s s.
Proof. unfold noMove. done. Qed.

Lemma executeMove_accepted (now : Z) (s : GameState)
    (fromRow fromCol toRow toCol : Z) :
  wfBoard (board s) ->
  isValidMove (board s) (currentPlayer s) fromRow fromCol toRow toCol
  = Done true ->
  exists s',
    executeMove now s fromRow fromCol toRow toCol = Done s'
    /\ wfState s'
    /\ movedTo now s s' fromRow fromCol toRow toCol
    /\ turnPassed (currentPlayer s) (currentPlayer s')
    /\ acceptedMove s s'
    /\ gameStarted s' = gameStarted s.
Proof.
  intros Hwf Hvalid.
  destruct (isValidMove_true_inv _ _ _ _ _ _ Hvalid)
    as (p & Hp & _ & Hto & Hne).
  destruct (executeMove_Done now s fromRow fromCol toRow toCol p
              Hwf Hp Hto Hne) as (s' & Hs' & Hwf' & Hmoved).
  assert (Hturn : turnPassed (currentPlayer s) (currentPlayer s')).
  { destruct (executeMove_turn _ _ _ _ _ _ _ Hs') as [-> _].
    apply turnPassed_opposite. }
  exists s'. split; [exact Hs' |]. split; [exact Hwf' |].
  split; [exact Hmoved |]. split; [exact Hturn |].
  split; [| exact (executeMove_started _ _ _ _ _ _ _ Hs')].
  exists now, fromRow, fromCol, toRow, toCol. done.
Qed.

Lemma acceptedMove_history (s s' : GameState) :
  acceptedMove s s' ->
  (exists m, moveHistory s' = moveHistory s ++ [m])
  /\ (turnMatchesHistory s -> turnMatchesHistory s').
Proof.
  intros (now & fr & fc & tr & tc & _ & Hx & _).
  apply executeMove_turn in Hx as (Hc & m & Hh).
  split; [exists m; exact Hh |]. intros Hturn.
  unfold turnMatchesHistory in *. rewrite Hc, Hh, Hturn, length_app.
  cbn [length]. rewrite Nat.add_1_r, Nat.even_succ, <- Nat.negb_even.
  destruct (Nat.even (length (moveHistory s))); reflexivity.
Qed.

Lemma acceptedMoves_history (n : nat) (s s' : GameState) :
  acceptedMoves n s s' ->
  (exists added, moveHistory s' = moveHistory s ++ added /\ length added = n)
  /\ (turnMatchesHistory s -> turnMatchesHistory s').
Proof.
  induction 1 as [s s' (_ & Hc & Hh) | n s s1 s' Hmove _ [(added & Hh & Hn) IH]].
  - split; [exists []; by rewrite app_nil_r |].
    unfold turnMatchesHistory. by rewrite Hc, Hh.
  - destruct (acceptedMove_history _ _ Hmove) as [[m Hm] Hturn].
    split; [| intros H; exact (IH (Hturn H))].
    exists (m :: added). rewrite Hh, Hm, <- app_assoc. cbn. by rewrite Hn.
Qed.

Lemma voiceEffect_step (now : Z) (c : Component) :
  wfState (game c) ->
  exists g,
    voiceEffect now c = Done g
    /\ wfState g
    /\ gameStarted g = gameStarted (game c)
    /\ (g = game c \/ acceptedMove (game c) g).
Proof.
  intros Hwfs. pose proof Hwfs as [Hwf _]. unfold voiceEffect.
  destruct (truthyText (lastVoiceCommand c) && gameStarted (game c)).
  2:{ exists (game c). auto. }
  destruct (processVoiceCommand_step now (game c) (lastVoiceCommand c) Hwf)
    as (g & Hg & [-> | (fr & fc & tr & tc & _ & _ & Hv & Hx & _)]).
  - exists (game c). auto.
  - destruct (executeMove_accepted now (game c) fr fc tr tc Hwf Hv)
      as (g' & Hg' & Hwf' & _ & _ & Hacc & Hst).
    rewrite Hx in Hg'. apply Done_inj in Hg'. subst g'.
    exists g. auto.
Qed.

Lemma runEffect_stop (fuel : nat) (clock : nat -> Z) (k : nat)
    (c : Component) :
  wfState (game c) ->
  voiceEffect (clock k) c = Done (game c) ->
  exists c', runEffect (S fuel) clock k c = Done c' /\ settled c c' 0.
Proof.
  intros Hwfs H. exists c. rewrite runEffect_S, H. cbn [bind].
  rewrite boardChanged_same, withGame_game. split; [reflexivity |].
  unfold settled. split; [exact Hwfs |]. split; [reflexivity |].
  split; [reflexivity |]. apply moves_none, noMove_refl.
Qed.

Lemma settled_step (c c' : Component) (g : GameState) (n : nat) :
  acceptedMove (game c) g ->
  settled (withGame c g) c' n ->
  gameStarted g = gameStarted (game c) ->
  settled c c' (S n).
Proof.
  intros Hacc (Hwf & Hlast & Hst & Hchain) Hstarted. cbn in Hlast, Hst, Hchain.
  unfold settled. split; [exact Hwf |]. split; [exact Hlast |].
  split; [congruence |]. exact (moves_step _ _ _ _ Hacc Hchain).
Qed.

(** A command that is not just a square moves nothing when it is
    processed again on the state it has produced. *)
Lemma processVoiceCommand_again (now now' : Z) (s s' : GameState)
    (command : string) :
  wfBoard (board s) ->
  testBareSquare (trim (toLowerCase command)) = false ->
  processVoiceCommand now s command = Done s' ->
  processVoiceCommand now' s' command = Done s'.
Proof.
  intros Hwf Hbare. unfold processVoiceCommand at 1, extractSquares.
  rewrite Hbare. destruct (gameStarted s) eqn:Hstarted; cbn [negb].
  2:{ intros H. apply Done_inj in H. subst s'.
      unfold processVoiceCommand. by rewrite Hstarted. }
  destruct (matchSquarePair (trim (toLowerCase command))) as [[x y] |]
    eqn:Hpair; cbn [bind fst snd].
  2:{ intros H. apply Done_inj in H. subst s'.
      unfold processVoiceCommand, extractSquares.
      by rewrite Hstarted, Hbare, Hpair. }
  pose proof Hpair as Hshape. apply matchSquarePair_shape in Hshape as [Hx Hy].
  destruct (moveExtracted_squares now s x y Hwf Hx Hy)
    as (fr & fc & tr & tc & _ & Hpx & Hpy & ok & Hok & ->).
  destruct ok.
  - intros Hs'.
    destruct (isValidMove_true_inv _ _ _ _ _ _ Hok) as (p & Hp & _ & Hto & Hne).
    destruct (executeMove_Done now s fr fc tr tc p Hwf Hp Hto Hne)
      as (s1 & Hs1 & _ & (q & _ & _ & _ & Hempty & _)).
    rewrite Hs' in Hs1. apply Done_inj in Hs1. subst s1.
    unfold processVoiceCommand, extractSquares.
    rewrite (executeMove_started _ _ _ _ _ _ _ Hs'), Hstarted, Hbare, Hpair.
    cbn [negb bind fst snd]. unfold moveExtracted.
    rewrite (testBareSquare_truthy x Hx), (testBareSquare_truthy y Hy).
    cbn [andb]. rewrite Hpx, Hpy.
    rewrite (isValidMove_empty_origin _ _ _ _ _ _ Hempty). reflexivity.
  - intros H. apply Done_inj in H. subst s'.
    unfold processVoiceCommand, extractSquares.
    rewrite Hstarted, Hbare, Hpair. cbn [negb bind fst snd].
    unfold moveExtracted.
    rewrite (testBareSquare_truthy x Hx), (testBareSquare_truthy y Hy).
    cbn [andb]. rewrite Hpx, Hpy, Hok. reflexivity.
Qed.

Lemma pieces_after_move (now : Z) (s s' : GameState)
    (fromRow fromCol toRow toCol : Z) :
  wfBoard (board s) ->
  isValidMove (board s) (currentPlayer s) fromRow fromCol toRow toCol
  = Done true ->
  executeMove now s fromRow fromCol toRow toCol = Done s' ->
  exists target,
    board_get (board s) toRow toCol = Done target
    /\ (pieces (board s') + (if truthy target then 1 else 0)
        = pieces (board s))%nat.
Proof.
  intros Hwf Hvalid Hs'.
  destruct (executeMove_counts now s fromRow fromCol toRow toCol Hwf Hvalid)
    as (s1 & target & Hs1 & Htarget & Hown & Hother).
  rewrite Hs' in Hs1. apply Done_inj in Hs1. subst s1.
  exists target. split; [exact Htarget |]. unfold pieces.
  destruct (currentPlayer s); cbn [opposite] in Hother; lia.
Qed.

Section BareCommand.

Variable clock : nat -> Z.
Variable command : string.
Variables toRow toCol : Z.
Hypothesis Htruthy : truthyText command = true.
Hypothesis Hbare : testBareSquare (trim (toLowerCase command)) = true.
Hypothesis Hparse :
  parseSquareNotation (Str (trim (toLowerCase command)))
  = Some (mkSquare toRow toCol).

(** One run of the effect on a bare destination. *)
Lemma bare_run (k : nat) (c : Component) :
  lastVoiceCommand c = command ->
  wfState (game c) ->
  gameStarted (game c) = true ->
  voiceEffect (clock k) c = Done (game c)
  \/ exists g p target,
       voiceEffect (clock k) c = Done g
       /\ wfState g
       /\ gameStarted g = true
       /\ acceptedMove (game c) g
       /\ board_get (board g) toRow toCol = Done (Some p)
       /\ board_get (board (game c)) toRow toCol = Done target
       /\ (pieces (board g) + (if truthy target then 1 else 0)
           = pieces (board (game c)))%nat.
Proof.
  intros Hcmd Hwfs Hstarted. pose proof Hwfs as [Hwf _].
  unfold voiceEffect. rewrite Hcmd, Htruthy, Hstarted. cbn [andb].
  rewrite (processVoiceCommand_bare _ _ _ toRow toCol Hwf Hstarted Hbare Hparse).
  destruct (firstOrigin (board (game c)) (currentPlayer (game c)) toRow toCol)
    as [origin |] eqn:Hfirst; [| left; reflexivity].
  right. apply firstOrigin_least in Hfirst as [Hreach _].
  apply canReach_true in Hreach as (p0 & _ & _ & Hvalid).
  destruct (executeMove_accepted (clock k) (game c) _ _ toRow toCol Hwf Hvalid)
    as (g & Hg & Hwfg & (p & _ & _ & _ & _ & Hdest & _) & _ & Hacc & Hst).
  destruct (pieces_after_move _ _ _ _ _ _ _ Hwf Hvalid Hg)
    as (target & Htarget & Hpieces).
  exists g, p, target. rewrite Hst. done.
Qed.

(** While the destination is occupied every further move is a capture, so
    the runs end. *)
Lemma runEffect_captures (fuel : nat) :
  forall (k : nat) (c : Component),
    lastVoiceCommand c = command ->
    wfState (game c) ->
    gameStarted (game c) = true ->
    (exists q, board_get (board (game c)) toRow toCol = Done (Some q)) ->
    (pieces (board (game c)) < fuel)%nat ->
    exists c' n,
      runEffect fuel clock k c = Done c'
      /\ settled c c' n
      /\ (n <= pieces (board (game c)))%nat.
Proof.
  induction fuel as [| fuel IH]; intros k c Hcmd Hwfs Hstarted (q & Hq) Hfuel;
    [lia |].
  destruct (bare_run k c Hcmd Hwfs Hstarted)
    as [Hstop | (g & p & target & Hg & Hwfg & Hstg & Hacc & Hdest & Htarget
                 & Hpieces)].
  - destruct (runEffect_stop fuel clock k c Hwfs Hstop) as (c' & Hrun & Hset).
    exists c', 0%nat. split; [exact Hrun |]. split; [exact Hset | lia].
  - rewrite Hq in Htarget. apply Done_inj in Htarget. subst target.
    cbn [truthy] in Hpieces.
    destruct (IH (S k) (withGame c g)) as (c' & n & Hrun & Hset & Hn).
    + exact Hcmd.
    + exact Hwfg.
    + exact Hstg.
    + exists p. exact Hdest.
    + cbn [game withGame]. lia.
    + exists c', (S n). rewrite runEffect_S, Hg. cbn [bind].
      rewrite (acceptedMove_changed _ _ Hacc).
      split; [exact Hrun |].
      split; [apply (settled_step c c' g n Hacc Hset); congruence |].
      cbn [game withGame] in Hn. lia.
Qed.

Lemma runEffect_bare (fuel : nat) (k : nat) (c : Component) :
  lastVoiceCommand c = command ->
  wfState (game c) ->
  gameStarted (game c) = true ->
  (effectFuel (game c) <= fuel)%nat ->
  exists c' n,
    runEffect fuel clock k c = Done c'
    /\ settled c c' n
    /\ (n <= S (pieces (board (game c))))%nat.
Proof.
  intros Hcmd Hwfs Hstarted Hfuel. unfold effectFuel in Hfuel.
  destruct fuel as [| fuel]; [lia |].
  destruct (bare_run k c Hcmd Hwfs Hstarted)
    as [Hstop | (g & p & target & Hg & Hwfg & Hstg & Hacc & Hdest & Htarget
                 & Hpieces)].
  - destruct (runEffect_stop fuel clock k c Hwfs Hstop) as (c' & Hrun & Hset).
    exists c', 0%nat. split; [exact Hrun |]. split; [exact Hset | lia].
  - destruct (runEffect_captures fuel (S k) (withGame c g))
      as (c' & n & Hrun & Hset & Hn).
    + exact Hcmd.
    + exact Hwfg.
    + exact Hstg.
    + exists p. exact Hdest.
    + cbn [game withGame]. lia.
    + exists c', (S n). rewrite runEffect_S, Hg. cbn [bind].
      rewrite (acceptedMove_changed _ _ Hacc).
      split; [exact Hrun |].
      split; [apply (settled_step c c' g n Hacc Hset); congruence |].
      cbn [game withGame] in Hn. lia.
Qed.

End BareCommand.

(** The runs of the effect end, whatever the pending command: a command
    with two squares moves at most once, a bare destination at most once
    more than there are pieces to capture. *)
Lemma runEffect_settles (fuel : nat) (clock : nat -> Z) (k : nat)
    (c : Component) :
  wfState (game c) ->
  (effectFuel (game c) <= fuel)%nat ->
  exists c' n,
    runEffect fuel clock k c = Done c'
    /\ settled c c' n
    /\ (n <= S (pieces (board (game c))))%nat.
Proof.
  intros Hwfs Hfuel. pose proof Hwfs as [Hwf _].
  destruct (truthyText (lastVoiceCommand c) && gameStarted (game c))
    eqn:Hguard.
  2:{ unfold effectFuel in Hfuel. destruct fuel as [| fuel]; [lia |].
      destruct (runEffect_stop fuel clock k c Hwfs) as (c' & Hrun & Hset).
      { unfold voiceEffect. by rewrite Hguard. }
      exists c', 0%nat. split; [exact Hrun |]. split; [exact Hset | lia]. }
  apply andb_true_iff in Hguard as [Htruthy Hstarted].
  destruct (testBareSquare (trim (toLowerCase (lastVoiceCommand c))))
    eqn:Hbare.
  - destruct (parse_bareSquare _ Hbare) as (tr & tc & _ & Hparse).
    exact (runEffect_bare clock (lastVoiceCommand c) tr tc Htruthy Hbare
             Hparse fuel k c eq_refl Hwfs Hstarted Hfuel).
  - unfold effectFuel in Hfuel.
    destruct fuel as [| [| fuel]]; [lia | lia |].
    destruct (voiceEffect_step (clock k) c Hwfs)
      as (g & Hg & Hwfg & Hstg & [-> | Hacc]).
    + destruct (runEffect_stop (S fuel) clock k c Hwfs Hg)
        as (c' & Hrun & Hset).
      exists c', 0%nat. split; [exact Hrun |]. split; [exact Hset | lia].
    + assert (Hagain : voiceEffect (clock (S k)) (withGame c g) = Done g).
      { unfold voiceEffect in *. cbn [game lastVoiceCommand withGame].
        rewrite Htruthy, Hstarted in Hg. cbn [andb] in Hg.
        rewrite Htruthy, Hstg, Hstarted. cbn [andb].
        exact (processVoiceCommand_again _ _ _ _ _ Hwf Hbare Hg). }
      destruct (runEffect_stop fuel clock (S k) (withGame c g) Hwfg Hagain)
        as (c' & Hrun & Hset).
      exists c', 1%nat. rewrite runEffect_S, Hg. cbn [bind].
      rewrite (acceptedMove_changed _ _ Hacc).
      split; [exact Hrun |].
      split; [exact (settled_step c c' g 0 Hacc Hset Hstg) | lia].
Qed.

(** More runs than needed change nothing. *)
Lemma runEffect_fuel (fuel fuel' : nat) (clock : nat -> Z) (k : nat)
    (c c' : Component) :
  runEffect fuel clock k c = Done c' ->
  (fuel <= fuel')%nat ->
  runEffect fuel' clock k c = Done c'.
Proof.
  revert fuel' k c. induction fuel as [| fuel IH]; intros fuel' k c;
    [discriminate |].
  intros Hrun Hle. destruct fuel' as [| fuel']; [lia |].
  rewrite runEffect_S in *.
  destruct (voiceEffect (clock k) c) as [g | | |]; cbn [bind] in *;
    try discriminate Hrun.
  destruct (boardChanged (game c) g); [| exact Hrun].
  apply (IH fuel' _ _ Hrun). lia.
Qed.

(** One input of the component: it returns, and what it leaves is the
    state before with no move made, or the result of one or more accepted
    moves in a row. *)
Lemma componentInput_settles (clock : nat -> Z) (c : Component) (e : Event) :
  wfState (game c) ->
  wfEvent e ->
  exists c' n,
    componentInput clock c e = Done c'
    /\ wfState (game c')
    /\ acceptedMoves n (game c) (game c')
    /\ (n <= S (S (pieces (board (game c)))))%nat.
Proof.
  intros Hwfs He. pose proof Hwfs as [Hwf _].
  destruct e as [r col | command]; cbn [componentInput wfEvent] in *.
  - destruct (handleSquareClick_step (clock 0%nat) (game c) r col Hwfs He)
      as (g & Hg & Hwfg & [Hno | (fr & fc & _ & _ & Hv & Hx & _)]);
      rewrite Hg; cbn [bind].
    + rewrite (boardChanged_noMove _ _ Hno).
      exists (withGame c g), 0%nat. cbn [game withGame].
      split; [reflexivity |]. split; [exact Hwfg |].
      split; [exact (moves_none _ _ Hno) | lia].
    + destruct (executeMove_accepted (clock 0%nat) (game c) fr fc r col Hwf Hv)
        as (g' & Hg' & _ & _ & _ & Hacc & Hst).
      rewrite Hx in Hg'. apply Done_inj in Hg'. subst g'.
      destruct (pieces_after_move _ _ _ _ _ _ _ Hwf Hv Hx)
        as (target & _ & Hpieces).
      rewrite (acceptedMove_changed _ _ Hacc).
      destruct (runEffect_settles (effectFuel g) clock 1 (withGame c g))
        as (c' & n & Hrun & (Hwf' & _ & _ & Hchain) & Hn).
      * exact Hwfg.
      * cbn [game withGame]. lia.
      * cbn [game withGame] in Hchain, Hn.
        exists c', (S n). split; [exact Hrun |]. split; [exact Hwf' |].
        split; [exact (moves_step _ _ _ _ Hacc Hchain) |].
        destruct (truthy target); lia.
  - destruct (String.eqb command (lastVoiceCommand c)).
    + exists c, 0%nat. split; [reflexivity |]. split; [exact Hwfs |].
      split; [apply moves_none, noMove_refl | lia].
    + destruct (runEffect_settles (effectFuel (game c)) clock 0
                  {| game := game c; lastVoiceCommand := command |})
        as (c' & n & Hrun & (Hwf' & _ & _ & Hchain) & Hn).
      * exact Hwfs.
      * cbn [game]. lia.
      * cbn [game] in Hchain, Hn.
        exists c', n. split; [exact Hrun |]. split; [exact Hwf' |].
        split; [exact Hchain | lia].
Qed.

Lemma runEffect_idle (fuel : nat) (clock : nat -> Z) (k : nat)
    (c : Component) :
  voiceEffect (clock k) c = Done (game c) ->
  runEffect (S fuel) clock k c = Done c.
Proof.
  intros H. rewrite runEffect_S, H. cbn [bind].
  by rewrite boardChanged_same, withGame_game.
Qed.

(** C1: every move that [isValidMove] accepts is executed with these
    effects: the turn passes from white to black or from black to white,
    exactly one record is appended to the history, the origin square is
    empty and the destination holds the piece that stood on the origin.
    Every input of the component, a click or a new voice command,
    together with the runs of the voice effect that follow from it,
    returns, and leaves either board, turn and history as they were or
    the result of accepted moves made one after the other, each of them
    with these effects. *)
Theorem accepted_move_effect (clock : nat -> Z) (c : Component) (e : Event) :
  wfState (game c) ->
  wfEvent e ->
  (forall now fromRow fromCol toRow toCol,
      isValidMove (board (game c)) (currentPlayer (game c))
        fromRow fromCol toRow toCol = Done true ->
      exists s',
        executeMove now (game c) fromRow fromCol toRow toCol = Done s'
        /\ wfState s'
        /\ movedTo now (game c) s' fromRow fromCol toRow toCol
        /\ turnPassed (currentPlayer (game c)) (currentPlayer s')
        /\ length (moveHistory s') = S (length (moveHistory (game c))))
  /\ exists c' n,
       componentInput clock c e = Done c'
       /\ wfState (game c')
       /\ acceptedMoves n (game c) (game c').
Proof.
  intros Hwfs He. pose proof Hwfs as [Hwf _]. split.
  - intros now fr fc tr tc Hvalid.
    destruct (executeMove_accepted now (game c) fr fc tr tc Hwf Hvalid)
      as (s' & Hs' & Hwf' & Hmoved & Hturn & _).
    exists s'. split; [exact Hs' |]. split; [exact Hwf' |].
    split; [exact Hmoved |]. split; [exact Hturn |].
    destruct Hmoved as (p & _ & _ & Hh & _).
    rewrite Hh, length_app. cbn [length]. lia.
  - destruct (componentInput_settles clock c e Hwfs He)
      as (c' & n & Hrun & Hwf' & Hchain & _).
    exists c', n. done.
Qed.

Lemma accepted_move_effect_witness :
  exists s',
    executeMove 0 (initialState engine) 7 6 5 5 = Done s'
    /\ currentPlayer s' = black
    /\ length (moveHistory s') = 1%nat
    /\ board_get (board s') 7 6 = Done None
    /\ board_get (board s') 5 5 = Done (pc "knight" white 9816).
Proof.
  destruct (proj1 (accepted_move_effect (fun _ => 0) (initialComponent engine)
                     (Voice "g1 takes f3")
                     (wfState_initialState engine) I) 0 7 6 5 5)
    as (s' & Hs' & _ & (p & Hp & _ & _ & Hfrom & Hto & _) & Hturn & Hlen).
  - reflexivity.
  - exists s'. split; [exact Hs' |].
    split; [destruct Hturn as [[_ H] | [H _]]; [exact H | discriminate H] |].
    split; [exact Hlen |]. split; [exact Hfrom |].
    cbn in Hp. injection Hp as <-. exact Hto.
Defined.

(** X10: over any sequence of inputs of the component, clicks and new
    voice commands, each with the runs of the voice effect that follow
    from it, every input returns, records are only ever appended to the
    history, and the turn stays in step with it: if white was to move
    exactly when the history had even length, this still holds
    afterwards. One input can append more than one record, but no more
    than two more than there are pieces on the board. [startNewGame]
    establishes the relation of turn and history. *)
Theorem turn_follows_history (c : Component)
    (es : list ((nat -> Z) * Event)) :
  wfState (game c) ->
  Forall (fun ce => wfEvent (snd ce)) es ->
  turnMatchesHistory (game c) ->
  (exists c',
      runInputs c es = Done c'
      /\ wfState (game c')
      /\ turnMatchesHistory (game c')
      /\ exists added, moveHistory (game c') = moveHistory (game c) ++ added)
  /\ (forall clock e,
        wfEvent e ->
        exists c' added,
          componentInput clock c e = Done c'
          /\ moveHistory (game c') = moveHistory (game c) ++ added
          /\ (length added <= pieces (board (game c)) + 2)%nat)
  /\ forall s0, turnMatchesHistory (startNewGame s0).
Proof.
  intros Hwfs Hes Hturn. split; [| split; [| reflexivity]].
  - revert c Hwfs Hturn.
    induction Hes as [| [clock e] es He Hes IH]; intros c Hwfs Hturn.
    + exists c. split; [reflexivity |]. split; [exact Hwfs |].
      split; [exact Hturn |]. exists []. by rewrite app_nil_r.
    + cbn [runInputs]. cbn [snd] in He.
      destruct (componentInput_settles clock c e Hwfs He)
        as (c1 & n & Hrun & Hwf1 & Hchain & _).
      destruct (acceptedMoves_history _ _ _ Hchain)
        as [(added1 & Hh1 & _) Hturn1].
      rewrite Hrun. cbn [bind].
      destruct (IH c1 Hwf1 (Hturn1 Hturn))
        as (c' & Hc' & Hwf' & Hturn' & added & Hh).
      exists c'. split; [exact Hc' |]. split; [exact Hwf' |].
      split; [exact Hturn' |].
      exists (added1 ++ added). by rewrite Hh, Hh1, app_assoc.
  - intros clock e He.
    destruct (componentInput_settles clock c e Hwfs He)
      as (c' & n & Hrun & _ & Hchain & Hn).
    destruct (acceptedMoves_history _ _ _ Hchain) as [(added & Hh & Hlen) _].
    exists c', added. split; [exact Hrun |]. split; [exact Hh | lia].
Qed.

Lemma turn_follows_history_witness :
  exists c',
    runInputs (initialComponent player)
      [(fun _ => 0, Voice "e4"); (fun _ => 1, Voice "d5");
       (fun _ => 2, Click 7 1)] = Done c'
    /\ wfState (game c')
    /\ turnMatchesHistory (game c')
    /\ exists added,
         moveHistory (game c')
         = moveHistory (game (initialComponent player)) ++ added.
Proof.
  apply (turn_follows_history (initialComponent player)
           [(fun _ => 0, Voice "e4"); (fun _ => 1, Voice "d5");
            (fun _ => 2, Click 7 1)]).
  - exact (wfState_initialState player).
  - repeat constructor.
  - reflexivity.
Defined.

(** The command d5 after e4 is a single input with three moves: the black
    pawn goes to d5, and the effect then takes it with the white pawn and
    takes that with the black queen. *)
Example one_command_three_moves :
  exists c',
    runInputs (initialComponent player)
      [(fun _ => 0, Voice "e4"); (fun _ => 1, Voice "d5")] = Done c'
    /\ map notation (moveHistory (game c')) = ["e2-e4"; "d7-d5"; "e4-d5"; "d8-d5"].
Proof. eexists. split; vm_compute; reflexivity. Qed.

(** ** A spoken move and the same move by clicks, on the component *)

Lemma spokenMove_truthy (fromRow fromCol toRow toCol : Z) :
  truthyText (spokenMove fromRow fromCol toRow toCol) = true.
Proof.
  unfold spokenMove.
  destruct (toText (getSquareNotation fromRow fromCol)) as [| a x];
    reflexivity.
Qed.

Lemma truthyText_eqb (s : string) :
  truthyText s = true -> String.eqb s EmptyString = false.
Proof. by destruct s. Qed.

Lemma componentInput_click_idle (clock : nat -> Z) (c : Component)
    (r col : Z) :
  lastVoiceCommand c = EmptyString ->
  componentInput clock c (Click r col)
  = let* g := handleSquareClick (clock 0%nat) (game c) r col in
    Done (withGame c g).
Proof.
  intros Hidle. cbn [componentInput].
  destruct (handleSquareClick (clock 0%nat) (game c) r col) as [g | | |];
    cbn [bind]; try reflexivity.
  destruct (boardChanged (game c) g); [| reflexivity].
  unfold effectFuel. apply runEffect_idle.
  unfold voiceEffect. cbn [lastVoiceCommand withGame]. by rewrite Hidle.
Qed.

(** X13: on a component with no command pending and no square selected,
    saying "<origin> to <destination>" for two squares of the board and
    clicking the origin and then the destination lead to the same board,
    the same turn and the same history, the runs of the voice effect
    included: the same accepted move, or no move at all. With a command
    pending the two can differ, since a move made by clicks makes the
    effect process the pending command again. *)
Theorem spoken_move_as_clicks (clock1 clock : nat -> Z) (c : Component)
    (fromRow fromCol toRow toCol : Z) :
  wfBoard (board (game c)) ->
  gameStarted (game c) = true ->
  selectedSquare (game c) = None ->
  lastVoiceCommand c = EmptyString ->
  inGrid fromRow fromCol = true ->
  inGrid toRow toCol = true ->
  exists cv cc,
    componentInput clock c (Voice (spokenMove fromRow fromCol toRow toCol))
    = Done cv
    /\ runInputs c [(clock1, Click fromRow fromCol);
                    (clock, Click toRow toCol)] = Done cc
    /\ board (game cc) = board (game cv)
    /\ currentPlayer (game cc) = currentPlayer (game cv)
    /\ moveHistory (game cc) = moveHistory (game cv).
Proof.
  intros Hwf Hstarted Hnone Hidle Hfrom Hto.
  set (command := spokenMove fromRow fromCol toRow toCol).
  destruct (spoken_move_calls (clock1 0%nat) (clock 0%nat) (game c)
              fromRow fromCol toRow toCol Hwf Hstarted Hnone Hfrom Hto)
    as (sv & sc & Hsv & Hsc & Hb & Hc & Hh).
  fold command in Hsv.
  pose proof (spokenMove_truthy fromRow fromCol toRow toCol) as Htruthy.
  fold command in Htruthy.
  assert (Hbare : testBareSquare (trim (toLowerCase command)) = false).
  { destruct (spokenMove_read fromRow fromCol toRow toCol) as (x & y & H & _);
      [by apply inGrid_true | by apply inGrid_true | exact H]. }
  (* the spoken move: one run that may move, and one that does not *)
  assert (Hvoice : componentInput clock c (Voice command)
                   = Done {| game := sv; lastVoiceCommand := command |}).
  { cbn [componentInput]. rewrite Hidle, (truthyText_eqb _ Htruthy).
    unfold effectFuel. rewrite runEffect_S. unfold voiceEffect at 1.
    cbn [game lastVoiceCommand]. rewrite Htruthy, Hstarted. cbn [andb].
    rewrite Hsv. cbn [bind]. unfold withGame. cbn [game lastVoiceCommand].
    destruct (boardChanged (game c) sv); [| reflexivity].
    apply runEffect_idle. unfold voiceEffect. cbn [game lastVoiceCommand].
    destruct (truthyText command && gameStarted sv); [| reflexivity].
    exact (processVoiceCommand_again _ _ _ _ _ Hwf Hbare Hsv). }
  (* the two clicks: no command is pending, so the effect does nothing *)
  cbn [runEvents handleEvent] in Hsc.
  destruct (handleSquareClick (clock1 0%nat) (game c) fromRow fromCol)
    as [g1 | | |] eqn:Hg1; cbn [bind] in Hsc; try discriminate Hsc.
  rewrite bind_Done_r in Hsc.
  exists {| game := sv; lastVoiceCommand := command |},
    (withGame (withGame c g1) sc).
  split; [exact Hvoice |]. split; [| cbn [game withGame]; done].
  cbn [runInputs]. rewrite (componentInput_click_idle clock1 c _ _ Hidle), Hg1.
  cbn [bind]. rewrite componentInput_click_idle by exact Hidle.
  cbn [game withGame]. rewrite Hsc. reflexivity.
Qed.

Lemma spoken_move_as_clicks_witness :
  exists cv cc,
    componentInput (fun _ => 5) (initialComponent player)
      (Voice (spokenMove 7 6 5 5)) = Done cv
    /\ runInputs (initialComponent player)
         [(fun _ => 4, Click 7 6); (fun _ => 5, Click 5 5)] = Done cc
    /\ board (game cc) = board (game cv)
    /\ currentPlayer (game cc) = currentPlayer (game cv)
    /\ moveHistory (game cc) = moveHistory (game cv).
Proof.
  apply (spoken_move_as_clicks (fun _ => 4) (fun _ => 5)
           (initialComponent player) 7 6 5 5).
  - split; [reflexivity | repeat constructor].
  - reflexivity.
  - reflexivity.
  - reflexivity.
  - reflexivity.
  - reflexivity.
Defined.
